(** * PrivacyScrub V5: video job orchestration and policy resolution

    A shallow embedding of the orchestration core of the repository:
    - [services/gpu-worker/config.py]   the policy resolver,
    - [services/gpu-worker/main.py]     the chunk worker and the progress
                                        aggregator,
    - [services/orchestrator/main.py]   the chunk planner, the dispatcher,
                                        the stitcher and the erasure endpoint,
    - [services/gateway/main.py]        job creation, the image proxy and
                                        the status endpoint,
    - [services/gpu-worker/inference.py] the boxes the engine redacts.

    Firestore documents and bucket objects are finite maps keyed by strings,
    Python exceptions are an error result that keeps the state reached so
    far, and the external tools (ffprobe, ffmpeg, OpenCV, the redaction
    engine, Cloud Tasks, the signing service) are fields of a record of
    collaborators that every handler takes as an argument. *)

From Stdlib Require Import QArith Ascii.
From stdpp Require Import gmap strings list sorting pretty.
Close Scope Q_scope.
Set Warnings "-register-all".

(** ** Python values and results *)

(** JSON-shaped Python values, as they arrive in an option bag.  Numbers are
    exact rationals: every finite [int] and [float] is one, and Python
    compares the two kinds exactly. *)
Inductive pyval :=
| VNone
| VBool (b : bool)
| VNum (q : Q)
| VStr (s : string)
| VList (l : list pyval)
| VDict (d : list (string * pyval)).

(** Python's truth value of an object, as tested by [if x:]. *)
Definition truthy (v : pyval) : bool :=
  match v with
  | VNone => false
  | VBool b => b
  | VNum q => negb (Qeq_bool q 0)
  | VStr s => negb (String.eqb s "")
  | VList l => match l with [] => false | _ => true end
  | VDict d => match d with [] => false | _ => true end
  end.

(** The numeric value of an object that supports ordering against a float;
    [bool] is a subclass of [int]. *)
Definition as_number (v : pyval) : option Q :=
  match v with
  | VBool true => Some 1%Q
  | VBool false => Some 0%Q
  | VNum q => Some q
  | _ => None
  end.

Inductive exn :=
| NotFound            (* google.api_core.exceptions.NotFound *)
| TypeError
| AttributeError
| CalledProcessError  (* subprocess.run(..., check=True) *)
| CvError.            (* cv2.error *)

Inductive Res (A : Type) :=
| Ok (a : A)
| Raise (e : exn).
Arguments Ok {A} a.
Arguments Raise {A} e.

Definition is_ok {A} (r : Res A) : bool :=
  match r with Ok _ => true | Raise _ => false end.

Definition Qlt_bool (a b : Q) : bool := negb (Qle_bool b a).

(** [max(floor, v)] with two positional arguments: the second is returned
    when it compares strictly greater, otherwise the first. *)
Definition py_max (floor : Q) (v : pyval) : Res Q :=
  match as_number v with
  | Some q => Ok (if Qlt_bool floor q then q else floor)
  | None => Raise TypeError
  end.

(** ** Policy resolver (config.py) *)

Module Policy.

Inductive AnonymizeMode := BLUR | PIXELATE | BLACK_BOX.

(** [AnonymizeMode(value)]: lookup by value, [None] for [ValueError]. *)
Definition AnonymizeMode_of (v : pyval) : option AnonymizeMode :=
  match v with
  | VStr s =>
      if String.eqb s "blur" then Some BLUR
      else if String.eqb s "pixelate" then Some PIXELATE
      else if String.eqb s "black_box" then Some BLACK_BOX
      else None
  | _ => None
  end.

Record PrivacyConfig := {
  target_faces : bool;
  target_plates : bool;
  target_logos : bool;
  target_text : bool;
  mode : AnonymizeMode;
  confidence_threshold : Q;
  enable_heuristics : bool
}.

(** [PrivacyConfig()] with the field defaults of the class. *)
Definition default_config : PrivacyConfig :=
  {| target_faces := true; target_plates := true; target_logos := false;
     target_text := false; mode := BLUR; confidence_threshold := 0.4%Q;
     enable_heuristics := true |}.

Definition set_target_faces (b : bool) (c : PrivacyConfig) : PrivacyConfig :=
  {| target_faces := b; target_plates := target_plates c;
     target_logos := target_logos c; target_text := target_text c;
     mode := mode c; confidence_threshold := confidence_threshold c;
     enable_heuristics := enable_heuristics c |}.
Definition set_target_plates (b : bool) (c : PrivacyConfig) : PrivacyConfig :=
  {| target_faces := target_faces c; target_plates := b;
     target_logos := target_logos c; target_text := target_text c;
     mode := mode c; confidence_threshold := confidence_threshold c;
     enable_heuristics := enable_heuristics c |}.
Definition set_target_logos (b : bool) (c : PrivacyConfig) : PrivacyConfig :=
  {| target_faces := target_faces c; target_plates := target_plates c;
     target_logos := b; target_text := target_text c;
     mode := mode c; confidence_threshold := confidence_threshold c;
     enable_heuristics := enable_heuristics c |}.
Definition set_target_text (b : bool) (c : PrivacyConfig) : PrivacyConfig :=
  {| target_faces := target_faces c; target_plates := target_plates c;
     target_logos := target_logos c; target_text := b;
     mode := mode c; confidence_threshold := confidence_threshold c;
     enable_heuristics := enable_heuristics c |}.
Definition set_mode (m : AnonymizeMode) (c : PrivacyConfig) : PrivacyConfig :=
  {| target_faces := target_faces c; target_plates := target_plates c;
     target_logos := target_logos c; target_text := target_text c;
     mode := m; confidence_threshold := confidence_threshold c;
     enable_heuristics := enable_heuristics c |}.
Definition set_confidence_threshold (q : Q) (c : PrivacyConfig) : PrivacyConfig :=
  {| target_faces := target_faces c; target_plates := target_plates c;
     target_logos := target_logos c; target_text := target_text c;
     mode := mode c; confidence_threshold := q;
     enable_heuristics := enable_heuristics c |}.

(** [d.get(key, default)] *)
Definition dict_get (d : gmap string pyval) (key : string) (default : pyval) : pyval :=
  match d !! key with Some v => v | None => default end.

(** Step 2 of [get_config_for_profile]: the profile mandates.  The profile is
    compared against the members of the [str]-valued enum, so an unknown
    name takes no branch. *)
Definition apply_mandates (profile : string) (user_overrides : gmap string pyval)
    (cfg : PrivacyConfig) : Res PrivacyConfig :=
  if String.eqb profile "GDPR" then
    let cfg := set_target_faces true cfg in
    let cfg := set_target_plates true cfg in
    let cfg := set_target_text true cfg in
    match py_max 0.6%Q (dict_get user_overrides "confidence_threshold" (VNum 0.6%Q)) with
    | Ok t => Ok (set_confidence_threshold t cfg)
    | Raise e => Raise e
    end
  else if String.eqb profile "HIPAA_SAFE_HARBOR" then
    let cfg := set_target_faces true cfg in
    let cfg := set_target_plates true cfg in
    let cfg := set_target_text true cfg in
    let cfg := set_target_logos true cfg in
    let cfg := set_mode BLACK_BOX cfg in
    match py_max 0.7%Q (dict_get user_overrides "confidence_threshold" (VNum 0.7%Q)) with
    | Ok t => Ok (set_confidence_threshold t cfg)
    | Raise e => Raise e
    end
  else if String.eqb profile "CCPA" then
    let cfg := set_target_faces true cfg in
    let cfg := set_target_plates true cfg in
    match py_max 0.55%Q (dict_get user_overrides "confidence_threshold" (VNum 0.55%Q)) with
    | Ok t => Ok (set_confidence_threshold t cfg)
    | Raise e => Raise e
    end
  else Ok cfg.

(** Step 3: the user overrides. *)
Definition apply_overrides (profile : string) (user_overrides : gmap string pyval)
    (cfg : PrivacyConfig) : PrivacyConfig :=
  let cfg := if truthy (dict_get user_overrides "target_logos" VNone)
             then set_target_logos true cfg else cfg in
  let cfg := if truthy (dict_get user_overrides "target_text" VNone)
             then set_target_text true cfg else cfg in
  if negb (String.eqb profile "HIPAA_SAFE_HARBOR") then
    match user_overrides !! "mode" with
    | Some v =>
        match AnonymizeMode_of v with
        | Some m => set_mode m cfg
        | None => cfg            (* except ValueError: pass *)
        end
    | None => cfg
    end
  else cfg.

Definition get_config_for_profile (profile : string)
    (user_overrides : option (gmap string pyval)) : Res PrivacyConfig :=
  let user_overrides := match user_overrides with Some d => d | None => ∅ end in
  match apply_mandates profile user_overrides default_config with
  | Ok cfg => Ok (apply_overrides profile user_overrides cfg)
  | Raise e => Raise e
  end.

(** The mandates of a profile as a table, read off the branches of step 2:
    the targets forced on, the mode forced if any, the confidence floor if
    any.  Faces and plates are on in the default configuration already. *)
Record Mandate := {
  m_faces : bool; m_plates : bool; m_logos : bool; m_text : bool;
  m_mode : option AnonymizeMode;
  m_floor : option Q
}.

Definition mandates (profile : string) : Mandate :=
  if String.eqb profile "GDPR" then
    {| m_faces := true; m_plates := true; m_logos := false; m_text := true;
       m_mode := None; m_floor := Some 0.6%Q |}
  else if String.eqb profile "HIPAA_SAFE_HARBOR" then
    {| m_faces := true; m_plates := true; m_logos := true; m_text := true;
       m_mode := Some BLACK_BOX; m_floor := Some 0.7%Q |}
  else if String.eqb profile "CCPA" then
    {| m_faces := true; m_plates := true; m_logos := false; m_text := false;
       m_mode := None; m_floor := Some 0.55%Q |}
  else
    {| m_faces := false; m_plates := false; m_logos := false; m_text := false;
       m_mode := None; m_floor := None |}.

(** The override of the threshold is usable by [max]: absent, or a number. *)
Definition threshold_usable (user_overrides : gmap string pyval) : Prop :=
  match user_overrides !! "confidence_threshold" with
  | Some v => is_Some (as_number v)
  | None => True
  end.

(** The threshold [max] computes from a floor and the override, when the
    override is usable. *)
Definition raised_threshold (floor : Q) (user_overrides : gmap string pyval) : Q :=
  match user_overrides !! "confidence_threshold" with
  | Some v =>
      match as_number v with
      | Some q => if Qlt_bool floor q then q else floor
      | None => floor
      end
  | None => floor
  end.

(** The mode value is one of the three recognised names. *)
Definition recognized_mode (v : pyval) : Prop := is_Some (AnonymizeMode_of v).

End Policy.

(** ** Strings as the handlers use them *)

(** [sub in s] *)
Fixpoint str_in (sub s : string) : bool :=
  String.prefix sub s ||
  match s with
  | EmptyString => false
  | String _ s' => str_in sub s'
  end.

(** [s.endswith(suffix)] *)
Definition endswith (s suffix : string) : bool :=
  let n := String.length s in
  let k := String.length suffix in
  (k <=? n)%nat && String.eqb (String.substring (n - k) k s) suffix.

(** [os.path.basename(p)]: what follows the last slash. *)
Fixpoint basename (p : string) : string :=
  match p with
  | EmptyString => EmptyString
  | String c p' =>
      if str_in "/" p' then basename p'
      else if Ascii.eqb c "/"%char then p' else p
  end.

(** [s.replace(old, new)] for a non-empty [old]: every non-overlapping
    occurrence, left to right.  [skip] counts the characters of a matched
    occurrence still to be dropped. *)
Fixpoint replace_from (old new : string) (skip : nat) (s : string) : string :=
  match s with
  | EmptyString => EmptyString
  | String c s' =>
      match skip with
      | S k => replace_from old new k s'
      | O => if String.prefix old s
             then new +:+ replace_from old new (String.length old - 1) s'
             else String c (replace_from old new 0 s')
      end
  end.
Definition replace (old new s : string) : string := replace_from old new 0 s.

(** The [%03d] of the segment pattern: decimal, zero-padded to width three. *)
Definition fmt_03d (i : nat) : string :=
  (if (i <? 10)%nat then "00" else if (i <? 100)%nat then "0" else "") +:+ pretty i.

(** The order of [sorted] and [list.sort] on [str]. *)
Definition str_le (a b : string) : Prop := String.leb a b = true.
Global Instance str_le_dec a b : Decision (str_le a b).
Proof. unfold str_le. apply _. Defined.

(** Strictly before, in the same order. *)
Definition str_lt (a b : string) : Prop := String.ltb a b = true.
Global Instance str_lt_dec a b : Decision (str_lt a b).
Proof. unfold str_lt. apply _. Defined.

(** The characters of [str(uuid.uuid4())], which the gateway uses as job
    ids: lower-case hexadecimal digits and the dash. *)
Definition uuid_char (c : ascii) : bool := str_in (String c "") "0123456789abcdef-".

Fixpoint uuid_like_tail (s : string) : bool :=
  match s with
  | EmptyString => true
  | String c s' => uuid_char c && uuid_like_tail s'
  end.

(** A non-empty string of such characters. *)
Definition uuid_like (s : string) : bool :=
  match s with
  | EmptyString => false
  | String _ _ => uuid_like_tail s
  end.

(** ** The job store, the bucket and the trace of effects *)

Module Core.

Import Policy.

(** Contents of a bucket object or of a local file. *)
Abbreviation bytes := string (only parsing).

Inductive Status :=
| QUEUED | CHUNKING | PROCESSING | STITCHING | COMPLETED | FAILED | CANCELLED.

Global Instance Status_eq_dec : EqDecision Status.
Proof. solve_decision. Defined.

Definition terminal (s : Status) : bool :=
  match s with
  | COMPLETED | FAILED | CANCELLED => true
  | _ => false
  end.

(** A document of the [jobs] collection, with the fields [submit_video]
    creates and the handlers update; [status] ranges over the seven strings
    the code writes.  [settings] holds the optional fields the worker reads
    with a default ([profile], [target_logos], [target_text], [mode]). *)
Record Job := {
  status : Status;
  webhook_url : option string;
  filename : string;
  chunks_total : Z;
  chunks_completed : Z;
  output_url : option string;
  error_message : option string;
  settings : gmap string pyval
}.

Definition set_status (s : Status) (j : Job) : Job :=
  {| status := s; webhook_url := webhook_url j; filename := filename j;
     chunks_total := chunks_total j; chunks_completed := chunks_completed j;
     output_url := output_url j; error_message := error_message j;
     settings := settings j |}.
Definition set_chunks_total (n : Z) (j : Job) : Job :=
  {| status := status j; webhook_url := webhook_url j; filename := filename j;
     chunks_total := n; chunks_completed := chunks_completed j;
     output_url := output_url j; error_message := error_message j;
     settings := settings j |}.
Definition set_chunks_completed (n : Z) (j : Job) : Job :=
  {| status := status j; webhook_url := webhook_url j; filename := filename j;
     chunks_total := chunks_total j; chunks_completed := n;
     output_url := output_url j; error_message := error_message j;
     settings := settings j |}.
Definition set_output_url (u : string) (j : Job) : Job :=
  {| status := status j; webhook_url := webhook_url j; filename := filename j;
     chunks_total := chunks_total j; chunks_completed := chunks_completed j;
     output_url := Some u; error_message := error_message j;
     settings := settings j |}.
Definition set_error_message (m : string) (j : Job) : Job :=
  {| status := status j; webhook_url := webhook_url j; filename := filename j;
     chunks_total := chunks_total j; chunks_completed := chunks_completed j;
     output_url := output_url j; error_message := Some m;
     settings := settings j |}.

(** The document [submit_video] of the gateway creates. *)
Definition new_job (webhook : option string) (fname : string) : Job :=
  {| status := QUEUED; webhook_url := webhook; filename := fname;
     chunks_total := 0; chunks_completed := 0;
     output_url := None; error_message := None; settings := ∅ |}.

(** The payload of a task submitted to the worker queue. *)
Record Task := {
  task_url : string;
  task_job_id : string;
  task_chunk_name : string;
  task_chunk_index : nat
}.

(** What a handler does to the outside, in the order it does it. *)
Inductive Event :=
| EvStatus (job_id : string) (s : Status)
| EvChunksTotal (job_id : string) (n : Z)
| EvChunksCompleted (job_id : string) (n : Z)
| EvUpload (path : string)
| EvDelete (path : string)
| EvCreateTask (t : Task) (accepted : bool)
| EvStitchTrigger (url : string) (job_id : string)
| EvWebhook (url : string) (job_id : string).

Record World := {
  jobs : gmap string Job;
  blobs : gmap string bytes;
  trace : list Event
}.

(** The collaborators and the deployment settings of the services. *)
Record Env := {
  BUCKET_NAME : string;
  WORKER_URL : option string;
  ORCHESTRATOR_URL : option string;
  (** ffprobe and [float] of its output; [None] when either raises *)
  ffprobe : bytes → option Q;
  (** the ffmpeg segment muxer: the segments in order, [None] on a non-zero
      exit status *)
  ffmpeg_segment : bytes → option (list bytes);
  (** the ffmpeg concat demuxer with metadata stripped *)
  ffmpeg_concat : list bytes → option bytes;
  (** [cv2.VideoCapture]: the frames read until [ret] is false, [None] when
      [isOpened()] is false *)
  video_capture : bytes → option (list bytes);
  detect_and_redact : bytes → PrivacyConfig → bytes;
  (** [cv2.VideoWriter] with the dimensions and rate of the given input *)
  video_writer : bytes → list bytes → bytes;
  (** [cv2.imwrite(path, dummy)] for the all-zero 100x100 image: the file it
      leaves at [path]; [None] when it raises [cv2.error], as it does for a
      path whose extension names no image format *)
  imwrite_dummy : string → option bytes;
  (** whether [create_task] accepts the task; it raises otherwise *)
  create_task : Task → bool;
  (** [blob.generate_signed_url(version="v4", expiration=3600)] for the
      object at the path: the URL carries the time of signing, which the
      trace at the moment of the call stands for; [None] when it raises *)
  generate_signed_url : list Event → string → option string
}.

(** Handlers: state passing with exceptions; the state reached when an
    exception is raised is kept. *)
Definition M (A : Type) : Type := World → Res A * World.

Global Instance M_ret : MRet M := λ A a w, (Ok a, w).
Global Instance M_bind : MBind M := λ A B f m w,
  match m w with
  | (Ok a, w') => f a w'
  | (Raise e, w') => (Raise e, w')
  end.

Definition raise {A} (e : exn) : M A := λ w, (Raise e, w).

Definition emit (ev : Event) : M unit := λ w,
  (Ok (), {| jobs := jobs w; blobs := blobs w; trace := trace w ++ [ev] |}).

(** [for x in l: body(x)] *)
Fixpoint for_each {A} (l : list A) (body : A → M unit) : M unit :=
  match l with
  | [] => mret ()
  | x :: l' => body x ;; for_each l' body
  end.

(** *** Firestore *)

(** [doc_ref.update(fields)]: fails with NotFound when the document does not
    exist; [f] writes the fields. *)
Definition doc_update (job_id : string) (f : Job → Job) : M unit := λ w,
  match jobs w !! job_id with
  | Some j => (Ok (), {| jobs := <[job_id := f j]> (jobs w); blobs := blobs w;
                         trace := trace w |})
  | None => (Raise NotFound, w)
  end.

(** [doc_ref.get()] *)
Definition doc_get (job_id : string) : M (option Job) := λ w,
  (Ok (jobs w !! job_id), w).

Definition update_status (job_id : string) (s : Status) : M unit :=
  doc_update job_id (set_status s) ;; emit (EvStatus job_id s).

(** *** Cloud Storage *)

Definition blob_exists (path : string) : M bool := λ w,
  (Ok (bool_decide (is_Some (blobs w !! path))), w).

Definition download (path : string) : M bytes := λ w,
  match blobs w !! path with
  | Some b => (Ok b, w)
  | None => (Raise NotFound, w)
  end.

Definition upload (path : string) (data : bytes) : M unit := λ w,
  (Ok (), {| jobs := jobs w; blobs := <[path := data]> (blobs w);
             trace := trace w ++ [EvUpload path] |}).

(** [blob.delete()] *)
Definition blob_delete (path : string) : M unit := λ w,
  match blobs w !! path with
  | Some _ => (Ok (), {| jobs := jobs w; blobs := delete path (blobs w);
                         trace := trace w ++ [EvDelete path] |})
  | None => (Raise NotFound, w)
  end.

(** The names of the objects of a bucket that start with [pre].  The order
    of the listing is the map's; no handler relies on it. *)
Definition listed (pre : string) (b : gmap string bytes) : list string :=
  filter (λ name, String.prefix pre name = true) (map_to_list b).*1.

(** [bucket.list_blobs(prefix=...)] *)
Definition list_blobs (pre : string) : M (list string) := λ w,
  (Ok (listed pre (blobs w)), w).

(** [blob.generate_signed_url(...)] inside [try ... except]: the URL signed
    at the moment of the call, [None] when signing raises. *)
Definition sign_url (env : Env) (path : string) : M (option string) := λ w,
  (Ok (generate_signed_url env (trace w) path), w).

(** ** The orchestrator (orchestrator/main.py) *)

Inductive IngestResp :=
| IngestError
| Dispatched (chunks : nat).

Definition CHUNK_DURATION : Q := 300%Q.

(** The file the segment muxer writes for index [i] under the pattern
    [/tmp/{job_id}_chunk_%03d.mp4]. *)
Definition segment_path (job_id : string) (i : nat) : string :=
  "/tmp/" +:+ job_id +:+ "_chunk_" +:+ fmt_03d i +:+ ".mp4".

(** [os.path.basename(fpath).replace(f"{job_id}_", "")] *)
Definition clean_name (job_id fpath : string) : string :=
  replace (job_id +:+ "_") "" (basename fpath).

(** Local files are compared by their paths. *)
Definition file_le (a b : string * bytes) : Prop := str_le a.1 b.1.
Global Instance file_le_dec a b : Decision (file_le a b).
Proof. unfold file_le. apply _. Defined.

(** [sorted(glob.glob(f"/tmp/{job_id}_chunk_*.mp4"))] after the muxer wrote
    [segs] into a [/tmp] that held no such file before, with the contents of
    each file. *)
Definition generated_files (job_id : string) (segs : list bytes) : list (string * bytes) :=
  merge_sort file_le (imap (λ i seg, (segment_path job_id i, seg)) segs).

(** Step 4 of [ingest_video]: the chunk planner.  Uploads every chunk and
    returns [chunks_to_dispatch]. *)
Definition plan_chunks (env : Env) (job_id : string) (original : bytes)
    (duration : Q) : M (list string) :=
  if Qlt_bool 0 duration && Qlt_bool duration CHUNK_DURATION then
    let chunk_name := "chunk_000.mp4" in
    upload ("input/" +:+ job_id +:+ "/" +:+ chunk_name) original ;;
    mret [chunk_name]
  else
    match ffmpeg_segment env original with
    | None => raise CalledProcessError
    | Some segs =>
        let files := generated_files job_id segs in
        for_each files (λ f,
          upload ("input/" +:+ job_id +:+ "/" +:+ clean_name job_id f.1) f.2) ;;
        mret (map (λ f, clean_name job_id f.1) files)
    end.

(** The task submitted for chunk [i]: [worker_payload] and the worker URL. *)
Definition chunk_task (env : Env) (job_id : string) (i : nat) (chunk : string) : Task :=
  {| task_url := default "None" (WORKER_URL env) +:+ "/internal/process-chunk";
     task_job_id := job_id;
     task_chunk_name := chunk;
     task_chunk_index := i |}.

(** Step 6 of [ingest_video]: one task per chunk; a task the queue refuses is
    reported and skipped. *)
Definition dispatch (env : Env) (job_id : string) (chunks_to_dispatch : list string) : M unit :=
  for_each (imap (λ i chunk_name, (i, chunk_name)) chunks_to_dispatch) (λ ic,
    let t := chunk_task env job_id ic.1 ic.2 in
    emit (EvCreateTask t (create_task env t))).

(** Step 3 of [ingest_video]: the probed duration, 0 when the probe fails. *)
Definition probed_duration (env : Env) (original : bytes) : Q :=
  match ffprobe env original with
  | Some d => d
  | None => 0%Q        (* Fallback *)
  end.

Definition ingest_video (env : Env) (job_id : string) : M IngestResp :=
  update_status job_id CHUNKING ;;
  let blob_path := "input/" +:+ job_id +:+ "/original.mp4" in
  found ← blob_exists blob_path;
  if negb found then
    doc_update job_id (λ j, set_error_message "Input video not found" (set_status FAILED j)) ;;
    emit (EvStatus job_id FAILED) ;;
    mret IngestError
  else
    original ← download blob_path;
    let duration := probed_duration env original in
    chunks_to_dispatch ← plan_chunks env job_id original duration;
    let total_chunks := length chunks_to_dispatch in
    doc_update job_id (set_chunks_total (Z.of_nat total_chunks)) ;;
    emit (EvChunksTotal job_id (Z.of_nat total_chunks)) ;;
    dispatch env job_id chunks_to_dispatch ;;
    mret (Dispatched total_chunks).

(** The filter of [stitch_video] on object names. *)
Definition is_chunk_blob (name : string) : bool :=
  str_in "chunk_" name && endswith name ".mp4".

(** [chunk_blobs] of [stitch_video]: filtered, then sorted by name. *)
Definition select_chunks (names : list string) : list string :=
  merge_sort str_le (filter (λ name, is_chunk_blob name = true) names).

(** The download loop of [stitch_video]: every chunk goes to
    [/tmp/<basename>]; returns the local files and the list of their paths. *)
Fixpoint download_chunks (chunk_blobs : list string) (fs : gmap string bytes)
    (local_files : list string) : M (gmap string bytes * list string) :=
  match chunk_blobs with
  | [] => mret (fs, local_files)
  | name :: rest =>
      let local_file := "/tmp/" +:+ basename name in
      data ← download name;
      download_chunks rest (<[local_file := data]> fs) (local_files ++ [local_file])
  end.

Definition truthy_str (o : option string) : bool :=
  match o with
  | Some s => negb (String.eqb s "")
  | None => false
  end.

Inductive StitchResp := StitchCompleted (url : string).

Definition stitch_video (env : Env) (job_id : string) : M StitchResp :=
  update_status job_id STITCHING ;;
  listed ← list_blobs ("output/" +:+ job_id +:+ "/");
  let chunk_blobs := select_chunks listed in
  local ← download_chunks chunk_blobs ∅ [];
  let inputs := map (λ f, default "" (local.1 !! f)) local.2 in
  match ffmpeg_concat env inputs with
  | None => raise CalledProcessError
  | Some output_local =>
      let final_path := "output/" +:+ job_id +:+ "/final.mp4" in
      upload final_path output_local ;;
      signed ← sign_url env final_path;
      let output_url :=
        match signed with
        | Some u => u
        | None => "https://storage.googleapis.com/" +:+ BUCKET_NAME env +:+ "/" +:+ final_path
        end in
      doc_update job_id (λ j, set_output_url output_url (set_status COMPLETED j)) ;;
      emit (EvStatus job_id COMPLETED) ;;
      job_doc ← doc_get job_id;
      match job_doc with
      | None => raise AttributeError
      | Some j =>
          (if truthy_str (webhook_url j)
           then emit (EvWebhook (default "" (webhook_url j)) job_id)
           else mret ()) ;;
          mret (StitchCompleted output_url)
      end
  end.

Inductive DeleteResp := Erased.

(** [delete_job]: the right to erasure. *)
Definition delete_job (job_id : string) : M DeleteResp :=
  ins ← list_blobs ("input/" +:+ job_id);
  outs ← list_blobs ("output/" +:+ job_id);
  for_each (ins ++ outs) blob_delete ;;
  update_status job_id CANCELLED ;;
  mret Erased.

(** ** The chunk worker (gpu-worker/main.py) *)

Inductive ChunkResp :=
| ChunkError (message : string)
| ChunkProcessed (chunk : string).

(** The profile name handed to the resolver; a stored value that is not a
    string equals no profile, like an unknown name. *)
Definition profile_name (v : pyval) : string :=
  match v with
  | VStr s => s
  | _ => ""
  end.

(** The configuration [process_chunk] derives from the job document. *)
Definition chunk_config (job_data : gmap string pyval) : Res PrivacyConfig :=
  get_config_for_profile
    (profile_name (dict_get job_data "profile" (VStr "NONE")))
    (Some (<["target_logos" := dict_get job_data "target_logos" (VBool false)]>
          (<["target_text" := dict_get job_data "target_text" (VBool false)]>
          (<["mode" := dict_get job_data "mode" (VStr "blur")]> ∅)))).

(** The transaction [update_progress]: read, add one, write, as one step.
    Returns the new count and [chunks_total]. *)
Definition update_progress (job_id : string) : M (Z * Z) := λ w,
  match jobs w !! job_id with
  | Some j =>
      let new_count := (chunks_completed j + 1)%Z in
      (Ok (new_count, chunks_total j),
       {| jobs := <[job_id := set_chunks_completed new_count j]> (jobs w);
          blobs := blobs w;
          trace := trace w ++ [EvChunksCompleted job_id new_count] |})
  | None => (Raise TypeError, w)
  end.

(** Step 8 of [process_chunk]: the completion check and the stitch trigger. *)
Definition trigger_stitch (env : Env) (job_id : string) (completed total : Z) : M unit :=
  if (total <=? completed)%Z then
    if truthy_str (ORCHESTRATOR_URL env)
    then emit (EvStitchTrigger (default "" (ORCHESTRATOR_URL env) +:+ "/internal/stitch") job_id)
    else mret ()
  else mret ().

Definition process_chunk (env : Env) (job_id chunk_name : string) : M ChunkResp :=
  update_status job_id PROCESSING ;;
  job_snap ← doc_get job_id;
  match job_snap with
  | None => raise AttributeError
  | Some job_data =>
      match chunk_config (settings job_data) with
      | Raise e => raise e
      | Ok cfg =>
          let blob_path := "input/" +:+ job_id +:+ "/" +:+ chunk_name in
          found ← blob_exists blob_path;
          local_input ← (if found : bool then download blob_path
                         else
                           match imwrite_dummy env ("/tmp/" +:+ chunk_name) with
                           | Some dummy => mret dummy
                           | None => raise CvError
                           end);
          match video_capture env local_input with
          | None => mret (ChunkError "Could not open video")
          | Some frames =>
              let local_output :=
                video_writer env local_input
                  (map (λ frame, detect_and_redact env frame cfg) frames) in
              upload ("output/" +:+ job_id +:+ "/" +:+ chunk_name) local_output ;;
              ct ← update_progress job_id;
              trigger_stitch env job_id ct.1 ct.2 ;;
              mret (ChunkProcessed chunk_name)
          end
      end
  end.

(** ** Runs and traces *)

(** Completion calls for the chunks [cs] of one job, in the order in which
    the store serializes their transactions.  A call decides on the stitch
    request from what its own transaction returned, and no other step of a
    call reads or writes the counters, so the values observed and the
    requests issued by concurrent calls are those of this sequence. *)
Definition process_chunks (env : Env) (job_id : string) (cs : list string) : M unit :=
  for_each cs (λ chunk_name, process_chunk env job_id chunk_name ;; mret ()).

(** The post-increment values the transactions of a job returned. *)
Definition observed (job_id : string) (tr : list Event) : list Z :=
  omap (λ ev, match ev with
              | EvChunksCompleted j n => if String.eqb j job_id then Some n else None
              | _ => None
              end) tr.

Definition is_stitch_trigger (job_id : string) (ev : Event) : bool :=
  match ev with
  | EvStitchTrigger _ j => String.eqb j job_id
  | _ => false
  end.

(** The number of stitch requests issued for a job. *)
Definition stitch_triggers (job_id : string) (tr : list Event) : nat :=
  length (filter (λ ev, is_stitch_trigger job_id ev = true) tr).

(** The values written to [chunks_total] of a job. *)
Definition total_writes (job_id : string) (tr : list Event) : list Z :=
  omap (λ ev, match ev with
              | EvChunksTotal j n => if String.eqb j job_id then Some n else None
              | _ => None
              end) tr.

Definition is_create_task (ev : Event) : bool :=
  match ev with
  | EvCreateTask _ _ => true
  | _ => false
  end.

Definition is_upload (ev : Event) : bool :=
  match ev with
  | EvUpload _ => true
  | _ => false
  end.

Definition is_delete (ev : Event) : bool :=
  match ev with
  | EvDelete _ => true
  | _ => false
  end.

(** The frames of a chunk after redaction, written back as a video. *)
Definition chunk_output (env : Env) (cfg : PrivacyConfig) (input : bytes) (frames : list bytes) : bytes :=
  video_writer env input (map (λ frame, detect_and_redact env frame cfg) frames).

(** What the worker reads as its input: the chunk, or the dummy image that
    [cv2.imwrite] left in its place; [None] when the chunk is missing and
    [cv2.imwrite] raises. *)
Definition chunk_input (env : Env) (w : World) (job_id chunk : string) : option bytes :=
  match blobs w !! ("input/" +:+ job_id +:+ "/" +:+ chunk) with
  | Some b => Some b
  | None => imwrite_dummy env ("/tmp/" +:+ chunk)
  end.

(** The events a call that reaches the transaction appends. *)
Definition chunk_events (env : Env) (job_id chunk : string) (new_count total : Z) : list Event :=
  [EvStatus job_id PROCESSING;
   EvUpload ("output/" +:+ job_id +:+ "/" +:+ chunk);
   EvChunksCompleted job_id new_count] ++
  (if (total <=? new_count)%Z && truthy_str (ORCHESTRATOR_URL env)
   then [EvStitchTrigger (default "" (ORCHESTRATOR_URL env) +:+ "/internal/stitch") job_id]
   else []).

(** How many of the observed values reach the total. *)
Definition reached (total : Z) (vs : list Z) : nat :=
  length (filter (λ v, (total <= v)%Z) vs).

(** How many of the observed values equal the total. *)
Definition hits (total : Z) (vs : list Z) : nat :=
  length (filter (λ v, v = total) vs).

(** The chunks the planner emits, with the bytes it uploads for each:
    [None] when the segment muxer fails.  A pure reading of [plan_chunks]. *)
Definition planned (env : Env) (job_id : string) (original : bytes) (duration : Q)
    : option (list (string * bytes)) :=
  if Qlt_bool 0 duration && Qlt_bool duration CHUNK_DURATION then
    Some [("chunk_000.mp4", original)]
  else
    match ffmpeg_segment env original with
    | None => None
    | Some segs =>
        Some (map (λ f, (clean_name job_id f.1, f.2)) (generated_files job_id segs))
    end.

(** The bucket path of an input chunk. *)
Definition chunk_path (job_id chunk : string) : string :=
  "input/" +:+ job_id +:+ "/" +:+ chunk.

(** The bucket after the uploads of the planner. *)
Definition uploaded (job_id : string) (chunks : list (string * bytes))
    (b : gmap string bytes) : gmap string bytes :=
  foldl (λ b c, <[chunk_path job_id c.1 := c.2]> b) b chunks.

(** What a run of [ingest_video] that gets past planning appends to the
    trace. *)
Definition ingest_events (env : Env) (job_id : string) (chunks : list string) : list Event :=
  EvStatus job_id CHUNKING ::
  map (λ c, EvUpload (chunk_path job_id c)) chunks ++
  EvChunksTotal job_id (Z.of_nat (length chunks)) ::
  imap (λ i c, EvCreateTask (chunk_task env job_id i c)
                            (create_task env (chunk_task env job_id i c))) chunks.

(** The name the planner gives chunk [i]. *)
Definition chunk_name (i : nat) : string := "chunk_" +:+ fmt_03d i +:+ ".mp4".

(** What follows [chunk_] in that name. *)
Definition chunk_suffix (i : nat) : string := fmt_03d i +:+ ".mp4".

(** The local file the stitcher downloads an object to. *)
Definition local_file (name : string) : string := "/tmp/" +:+ basename name.

End Core.

(** ** Concrete deployments used in examples *)

Module Scenario.
Import Policy Core.

(** A deployment in which every tool succeeds: the probe reads the duration
    off the content, the muxer cuts three segments, every file opens as a
    one-frame video.  OpenCV writes the dummy image to a path that ends in
    [.png] or [.jpg] and has no image writer for any other name; the URL
    signer lacks the permission to sign. *)
Definition env_ok : Env :=
  {| BUCKET_NAME := "media";
     WORKER_URL := Some "http://worker";
     ORCHESTRATOR_URL := Some "http://orchestrator";
     ffprobe := λ b, if String.eqb b "video-120s" then Some 120%Q
                     else if String.eqb b "video-700s" then Some 700%Q
                     else None;
     ffmpeg_segment := λ b, Some ["seg0"; "seg1"; "seg2"];
     ffmpeg_concat := λ l, Some (foldr String.append "" l);
     video_capture := λ b, Some [b];
     detect_and_redact := λ frame _, "redacted:" +:+ frame;
     video_writer := λ _ frames, foldr String.append "" frames;
     imwrite_dummy := λ path, if endswith path ".png" || endswith path ".jpg"
                              then Some "zeros-100x100" else None;
     create_task := λ _, true;
     generate_signed_url := λ _ _, None |}.

Definition job_with (s : Status) (total completed : Z) : Job :=
  set_chunks_completed completed (set_chunks_total total (set_status s (new_job None "clip.mp4"))).

(** One job [j1] and the given bucket contents. *)
Definition world_with (j : Job) (objects : gmap string bytes) : World :=
  {| jobs := {[ "j1" := j ]}; blobs := objects; trace := [] |}.

(** The spec's scenario: three chunks, completions arriving as 002, 000,
    001, then a redelivery of 001. *)
Definition arrivals_with_duplicate : list string :=
  ["chunk_002.mp4"; "chunk_000.mp4"; "chunk_001.mp4"; "chunk_001.mp4"].

Definition three_chunks : gmap string bytes :=
  {[ "input/j1/chunk_000.mp4" := "seg0";
     "input/j1/chunk_001.mp4" := "seg1";
     "input/j1/chunk_002.mp4" := "seg2" ]}.

(** A job of one chunk whose completion task is delivered twice. *)
Definition redelivered : list string := ["chunk_000.mp4"; "chunk_000.mp4"].

Definition one_chunk : gmap string bytes :=
  {[ "input/j1/chunk_000.mp4" := "video-120s" ]}.

(** A cancelled job whose processed chunk is still in the bucket. *)
Definition cancelled_world : World :=
  world_with (job_with CANCELLED 1 1)
    {[ "input/j1/chunk_000.mp4" := "video-120s";
       "output/j1/chunk_000.mp4" := "redacted:video-120s" ]}.


(** A freshly created job whose input video is in the bucket. *)
Definition queued_world (original : bytes) : World :=
  world_with (new_job None "clip.mp4") {[ "input/j1/original.mp4" := original ]}.

End Scenario.

(** ** The resolver in closed form *)

Module PolicyTable.
Import Policy.

(** The mode an override dictionary asks for, when it names one of the three
    modes. *)
Definition requested_mode (o : gmap string pyval) : option AnonymizeMode :=
  match o !! "mode" with
  | Some v => AnonymizeMode_of v
  | None => None
  end.

(** What the three steps of [get_config_for_profile] add up to when none of
    them raises: a target is on when the profile mandates it or the override
    is truthy, the mode is the forced one, else the requested one, else
    blur, the threshold is the raised floor, else the default. *)
Definition merged_config (profile : string) (o : gmap string pyval) : PrivacyConfig :=
  let m := mandates profile in
  {| target_faces := true;
     target_plates := true;
     target_logos := m_logos m || truthy (dict_get o "target_logos" VNone);
     target_text := m_text m || truthy (dict_get o "target_text" VNone);
     mode := match m_mode m with
             | Some forced => forced
             | None => default BLUR (requested_mode o)
             end;
     confidence_threshold := match m_floor m with
                             | Some floor => raised_threshold floor o
                             | None => 0.4%Q
                             end;
     enable_heuristics := true |}.

(** The keys of an override dictionary the resolver reads. *)
Definition recognized_key (k : string) : bool :=
  String.eqb k "confidence_threshold" || String.eqb k "target_logos" ||
  String.eqb k "target_text" || String.eqb k "mode".

End PolicyTable.

(** ** What a handler leaves alone *)

Module Frame.
Import Core.

(** A handler keeps a property of the world, whatever it returns or raises. *)
Definition stable {A} (P : World → Prop) (m : M A) : Prop :=
  ∀ w, P w → P (m w).2.

(** A property that only looks at the job documents, or only at the bucket. *)
Definition on_jobs (Q : gmap string Job → Prop) : World → Prop := λ w, Q (jobs w).
Definition on_blobs (Q : gmap string bytes → Prop) : World → Prop := λ w, Q (blobs w).

End Frame.

(** ** The inputs and the URL of a stitch run *)

Module StitchRun.
Import Core.

(** The local files after the download loop of [stitch_video]. *)
Definition local_files_of (names : list string) (b : gmap string bytes)
    : gmap string bytes :=
  foldl (λ fs x, <[local_file x := default "" (b !! x)]> fs) ∅ names.

(** What the concat list file makes ffmpeg read, in order. *)
Definition stitch_inputs (names : list string) (b : gmap string bytes) : list bytes :=
  map (λ f, default "" (local_files_of names b !! f)) (local_file <$> names).

(** The trace of a stitch run started in [w] at the moment it asks for the
    signed URL: the status is written and the final video uploaded. *)
Definition signing_time (w : World) (job_id : string) : list Event :=
  trace w ++ [EvStatus job_id STITCHING;
              EvUpload ("output/" +:+ job_id +:+ "/final.mp4")].

(** [output_url] of [stitch_video]: the URL signed at the moment the trace
    [signed_at] stands for, else the public one. *)
Definition final_url (env : Env) (signed_at : list Event) (job_id : string) : string :=
  let final_path := "output/" +:+ job_id +:+ "/final.mp4" in
  match generate_signed_url env signed_at final_path with
  | Some u => u
  | None => "https://storage.googleapis.com/" +:+ BUCKET_NAME env +:+ "/" +:+ final_path
  end.

End StitchRun.

(** ** The image endpoint of the worker (gpu-worker/main.py) *)

Module ImageWorker.
Import Policy Core.

(** An HTTP response: the status and the body. *)
Record Response := {
  status_code : Z;
  content : bytes
}.

(** OpenCV's codec: [cv2.imdecode] gives [None] for bytes, at least one,
    that are no image; [cv2.imencode] gives [None] when [success] is
    false. *)
Record Codec := {
  imdecode : bytes → option bytes;
  imencode : bytes → option bytes
}.

(** [get_config_for_profile] applied to what [json.loads] returned: [None]
    is replaced by the empty dict, a dict is read with [get], and any other
    value has no [get]. *)
Definition config_for (profile : string) (user_opts : pyval) : Res PrivacyConfig :=
  match user_opts with
  | VNone => get_config_for_profile profile None
  | VDict d => get_config_for_profile profile (Some (list_to_map d))
  | _ => Raise AttributeError
  end.

(** [process_image_internal]; [options] is the result of [json.loads] on
    the form field, [None] when it raises [JSONDecodeError].  On an empty
    buffer [cv2.imdecode] raises [cv2.error] instead of returning. *)
Definition process_image_internal (env : Env) (c : Codec) (image_bytes : bytes)
    (profile : string) (options : option pyval) : Res Response :=
  let user_opts := match options with
                   | Some v => v
                   | None => VDict []
                   end in
  match config_for profile user_opts with
  | Raise e => Raise e
  | Ok cfg =>
      if String.eqb image_bytes "" then Raise CvError
      else
        match imdecode c image_bytes with
        | None => Ok {| status_code := 400; content := "Invalid image" |}
        | Some frame =>
            let processed_frame := detect_and_redact env frame cfg in
            match imencode c processed_frame with
            | None => Ok {| status_code := 500; content := "Encoding failed" |}
            | Some encoded => Ok {| status_code := 200; content := encoded |}
            end
        end
  end.

End ImageWorker.

(** ** The gateway (gateway/main.py) *)

Module Gateway.
Import Policy Core ImageWorker.

(** What a handler answers: its return value, or the [HTTPException] it
    raises, which FastAPI turns into a response with that status. *)
Inductive Http (A : Type) :=
| Returned (a : A)
| HTTPException (status_code : Z) (detail : string).
Arguments Returned {A} a.
Arguments HTTPException {A} status_code detail.

(** The task [submit_video] hands to the queue: the URL and the payload. *)
Record IngestTask := {
  ingest_url : string;
  ingest_job_id : string;
  ingest_filename : string
}.

(** The settings and the collaborators of the gateway.  A call that can
    raise gives [Some] of the text of the exception, [None] when it
    succeeds. *)
Record GatewayEnv := {
  PROJECT_ID : option string;
  ORCHESTRATOR_URL : option string;
  WORKER_URL : option string;
  upload_from_file : string → bytes → option string;
  create_task : IngestTask → option string;
  (** the [httpx.RequestError] of the call to the worker, if it fails *)
  request_error : option string
}.

(** [f"{PROJECT_ID}-media-v5"]; the environment variable GCS_BUCKET_NAME is
    not read here. *)
Definition BUCKET_NAME (g : GatewayEnv) : string :=
  default "None" (PROJECT_ID g) +:+ "-media-v5".

(** [doc_ref.set(fields)]: creates the document or replaces it. *)
Definition doc_set (job_id : string) (j : Job) : M unit := λ w,
  (Ok (), {| jobs := <[job_id := j]> (jobs w); blobs := blobs w;
             trace := trace w ++ [EvStatus job_id (status j)] |}).

Definition ingest_task (g : GatewayEnv) (job_id filename : string) : IngestTask :=
  {| ingest_url := default "None" (ORCHESTRATOR_URL g) +:+ "/internal/ingest";
     ingest_job_id := job_id;
     ingest_filename := filename |}.

(** [submit_video], with [job_id] the value of [uuid.uuid4()].  The world
    holds the bucket the orchestrator and the worker use,
    [Core.BUCKET_NAME env]; an upload to a bucket of another name does not
    show in it. *)
Definition submit_video (g : GatewayEnv) (env : Env) (job_id : string)
    (file : bytes) (filename : string) (webhook_url : option string)
    : M (Http string) :=
  if negb (truthy_str (ORCHESTRATOR_URL g)) then
    mret (HTTPException 500 "Orchestrator URL not configured")
  else
    let blob_path := "input/" +:+ job_id +:+ "/original.mp4" in
    match upload_from_file g blob_path file with
    | Some e => mret (HTTPException 500 ("Failed to upload video: " +:+ e))
    | None =>
        (if String.eqb (BUCKET_NAME g) (Core.BUCKET_NAME env)
         then upload blob_path file else mret ()) ;;
        doc_set job_id (new_job webhook_url filename) ;;
        match create_task g (ingest_task g job_id filename) with
        | Some e => mret (HTTPException 500 ("Failed to enqueue job: " +:+ e))
        | None => mret (Returned job_id)
        end
    end.

(** The form fields [anonymize_image] forwards, after [json.dumps] on its
    side and [json.loads] on the worker's. *)
Definition image_options (mode : string) (target_logos target_text : bool) : pyval :=
  VDict [("mode", VStr mode);
         ("target_logos", VBool target_logos);
         ("target_text", VBool target_text)].

(** [anonymize_image]: the worker's answer is passed on with its status; an
    exception in the worker reaches the gateway as the 500 response of the
    worker's server. *)
Definition anonymize_image (g : GatewayEnv) (env : Env) (c : Codec)
    (image_bytes : bytes) (profile mode : string) (target_logos target_text : bool)
    : Http Response :=
  if negb (truthy_str (WORKER_URL g)) then
    Returned {| status_code := 500; content := "Error: WORKER_URL not configured." |}
  else
    let options := image_options mode target_logos target_text in
    match request_error g with
    | Some exc => HTTPException 500 ("Worker contact failed: " +:+ exc)
    | None =>
        match process_image_internal env c image_bytes profile (Some options) with
        | Ok response => Returned response
        | Raise _ =>
            Returned {| status_code := 500; content := "Internal Server Error" |}
        end
    end.

(** [get_status] *)
Definition get_status (job_id : string) : M (Http Job) :=
  doc ← doc_get job_id;
  match doc with
  | None => mret (HTTPException 404 "Job not found")
  | Some j => mret (Returned j)
  end.

End Gateway.

(** ** The detection engine (gpu-worker/inference.py) *)

Module Inference.
Import Policy Core.

(** A box [x1, y1, x2, y2]; coordinates are numbers, the integers of the
    detectors among them. *)
Definition Box : Type := Q * Q * Q * Q.

(** The models of a [PrivacyEngine] and the arithmetic it does in doubles.
    A specialist model is [None] when its weights did not load. *)
Record PrivacyEngine := {
  (** [general_model.predict(frame, conf=0.4)]: class id and [xyxy] of each
      box of the first result *)
  general_model : bytes → list (Z * Box);
  (** [face_model.predict(frame, conf=0.4)] *)
  face_model : option (bytes → list Box);
  (** [plate_model.predict(frame, conf=0.15)] *)
  plate_model : option (bytes → list Box);
  (** [ocr_reader.readtext(frame)]: the corner points, the text and the
      probability of each hit; [None] when it raises *)
  readtext : bytes → option (list (list (Q * Q) * string * Q));
  (** [int(h * 0.20)] and [int(h * 0.25)] *)
  head_height : Q → Q;
  bumper_height : Q → Q;
  (** one turn of the render loop: the frame with one box redacted *)
  redact_box : AnonymizeMode → bytes → Box → bytes
}.

(** [min] and [max] of a non-empty list: the first of the least, the first
    of the greatest. *)
Definition py_min (x : Q) (xs : list Q) : Q :=
  foldl (λ m y, if Qlt_bool y m then y else m) x xs.
Definition py_max_of (x : Q) (xs : list Q) : Q :=
  foldl (λ m y, if Qlt_bool m y then y else m) x xs.

(** The box around the corner points of a hit; [min] of no coordinates
    raises. *)
Definition ocr_box (bbox : list (Q * Q)) : option Box :=
  match bbox with
  | [] => None
  | p :: ps =>
      Some (py_min p.1 ps.*1, py_min p.2 ps.*2,
            py_max_of p.1 ps.*1, py_max_of p.2 ps.*2)
  end.

(** The loop of [_get_ocr_boxes].  An exception inside the [try] ends it,
    and the boxes collected so far are returned. *)
Fixpoint ocr_loop (results : list (list (Q * Q) * string * Q)) (conf_thresh : Q)
    (boxes : list Box) : list Box :=
  match results with
  | [] => boxes
  | (bbox, _, prob) :: rest =>
      if Qle_bool conf_thresh prob then
        match ocr_box bbox with
        | None => boxes
        | Some box => ocr_loop rest conf_thresh (boxes ++ [box])
        end
      else ocr_loop rest conf_thresh boxes
  end.

Definition _get_ocr_boxes (eng : PrivacyEngine) (frame : bytes) (conf_thresh : Q)
    : list Box :=
  match readtext eng frame with
  | None => []
  | Some results => ocr_loop results conf_thresh []
  end.

Definition is_vehicle (cls_id : Z) : bool :=
  bool_decide (cls_id ∈ [2; 3; 5; 7]%Z).
Definition is_bag (cls_id : Z) : bool :=
  bool_decide (cls_id ∈ [24; 26; 28]%Z).

(** Part A of [detect_and_redact]: what one box of the general model adds. *)
Definition general_boxes (eng : PrivacyEngine) (config : PrivacyConfig)
    (box : Z * Box) : list Box :=
  let '(cls_id, (x1, y1, x2, y2)) := box in
  (if (cls_id =? 0)%Z && target_faces config
   then [(x1, y1, x2, (y1 + head_height eng (y2 - y1))%Q)] else []) ++
  (if is_vehicle cls_id && target_plates config && enable_heuristics config
   then [(x1, (y2 - bumper_height eng (y2 - y1))%Q, x2, y2)] else []) ++
  (if is_bag cls_id && target_logos config
   then [(x1, y1, x2, y2)] else []).

(** Parts A to D: [boxes_to_blur] when the render loop starts. *)
Definition boxes_to_blur (eng : PrivacyEngine) (frame : bytes)
    (config : PrivacyConfig) : list Box :=
  concat (map (general_boxes eng config) (general_model eng frame)) ++
  (match face_model eng with
   | Some predict => if target_faces config then predict frame else []
   | None => []
   end) ++
  (match plate_model eng with
   | Some predict => if target_plates config then predict frame else []
   | None => []
   end) ++
  (if target_text config || (target_plates config && enable_heuristics config)
   then _get_ocr_boxes eng frame (confidence_threshold config) else []).

(** [detect_and_redact]: the boxes are redacted one after the other on a
    copy of the frame. *)
Definition detect_and_redact (eng : PrivacyEngine) (frame : bytes)
    (config : PrivacyConfig) : bytes :=
  foldl (redact_box eng (mode config)) frame (boxes_to_blur eng frame config).

End Inference.

(** ** Further deployments and worlds used in examples *)

Module Cases.
Import Policy Core Scenario.

(** [env_ok] with a concat step that exits with an error. *)
Definition env_failing_concat : Env :=
  {| BUCKET_NAME := BUCKET_NAME env_ok;
     WORKER_URL := WORKER_URL env_ok;
     ORCHESTRATOR_URL := ORCHESTRATOR_URL env_ok;
     ffprobe := ffprobe env_ok;
     ffmpeg_segment := ffmpeg_segment env_ok;
     ffmpeg_concat := λ _, None;
     video_capture := video_capture env_ok;
     detect_and_redact := detect_and_redact env_ok;
     video_writer := video_writer env_ok;
     imwrite_dummy := imwrite_dummy env_ok;
     create_task := create_task env_ok;
     generate_signed_url := generate_signed_url env_ok |}.

(** [env_ok] for a worker started without ORCHESTRATOR_URL. *)
Definition env_no_orchestrator : Env :=
  {| BUCKET_NAME := BUCKET_NAME env_ok;
     WORKER_URL := WORKER_URL env_ok;
     ORCHESTRATOR_URL := None;
     ffprobe := ffprobe env_ok;
     ffmpeg_segment := ffmpeg_segment env_ok;
     ffmpeg_concat := ffmpeg_concat env_ok;
     video_capture := video_capture env_ok;
     detect_and_redact := detect_and_redact env_ok;
     video_writer := video_writer env_ok;
     imwrite_dummy := imwrite_dummy env_ok;
     create_task := create_task env_ok;
     generate_signed_url := generate_signed_url env_ok |}.

(** [env_ok] with the bucket named after the project [acme]. *)
Definition env_project_bucket : Env :=
  {| BUCKET_NAME := "acme-media-v5";
     WORKER_URL := WORKER_URL env_ok;
     ORCHESTRATOR_URL := ORCHESTRATOR_URL env_ok;
     ffprobe := ffprobe env_ok;
     ffmpeg_segment := ffmpeg_segment env_ok;
     ffmpeg_concat := ffmpeg_concat env_ok;
     video_capture := video_capture env_ok;
     detect_and_redact := detect_and_redact env_ok;
     video_writer := video_writer env_ok;
     imwrite_dummy := imwrite_dummy env_ok;
     create_task := create_task env_ok;
     generate_signed_url := generate_signed_url env_ok |}.

(** Two jobs next to each other, and the objects of a third id that starts
    with the first. *)
Definition two_jobs : World :=
  {| jobs := {[ "j1" := job_with PROCESSING 1 0; "j2" := job_with QUEUED 0 0 ]};
     blobs := {[ "input/j1/chunk_000.mp4" := "video-120s";
                 "input/j10/original.mp4" := "video-700s";
                 "output/j10/chunk_000.mp4" := "redacted:seg0" ]};
     trace := [] |}.

(** A job under an id of hexadecimal digits and dashes, its two chunks
    processed. *)
Definition hex_id : string := "3f2a-77c0".
Definition processed_world : World :=
  {| jobs := {[ hex_id := job_with PROCESSING 2 2 ]};
     blobs := {[ "output/3f2a-77c0/chunk_000.mp4" := "redacted:seg0";
                 "output/3f2a-77c0/chunk_001.mp4" := "redacted:seg1" ]};
     trace := [] |}.

(** A gateway of the project [acme] whose calls all succeed. *)
Definition gateway_ok : Gateway.GatewayEnv :=
  {| Gateway.PROJECT_ID := Some "acme";
     Gateway.ORCHESTRATOR_URL := Some "http://orchestrator";
     Gateway.WORKER_URL := Some "http://worker";
     Gateway.upload_from_file := λ _ _, None;
     Gateway.create_task := λ _, None;
     Gateway.request_error := None |}.

(** The same gateway started without ORCHESTRATOR_URL. *)
Definition gateway_unconfigured : Gateway.GatewayEnv :=
  {| Gateway.PROJECT_ID := Some "acme";
     Gateway.ORCHESTRATOR_URL := None;
     Gateway.WORKER_URL := Some "http://worker";
     Gateway.upload_from_file := λ _ _, None;
     Gateway.create_task := λ _, None;
     Gateway.request_error := None |}.

(** The same gateway in front of a queue that refuses every task. *)
Definition gateway_queue_down : Gateway.GatewayEnv :=
  {| Gateway.PROJECT_ID := Some "acme";
     Gateway.ORCHESTRATOR_URL := Some "http://orchestrator";
     Gateway.WORKER_URL := Some "http://worker";
     Gateway.upload_from_file := λ _ _, None;
     Gateway.create_task := λ _, Some "queue unavailable";
     Gateway.request_error := None |}.

Definition empty_world : World := {| jobs := ∅; blobs := ∅; trace := [] |}.

(** A codec that takes every byte string for an image, except those that
    start with a question mark. *)
Definition codec_ok : ImageWorker.Codec :=
  {| ImageWorker.imdecode := λ b, if String.prefix "?" b then None else Some b;
     ImageWorker.imencode := λ b, Some ("jpeg:" +:+ b) |}.

(** An engine that finds one person, one car and one handbag, one face, and
    two texts read with probabilities 0.5 and 0.9; no plate model is
    loaded. *)
Definition engine_example : Inference.PrivacyEngine :=
  {| Inference.general_model := λ _,
       [(0%Z, (10, 20, 50, 120)%Q); (2%Z, (100, 60, 180, 100)%Q);
        (26%Z, (60, 80, 70, 95)%Q)];
     Inference.face_model := Some (λ _, [(22, 24, 38, 40)%Q]);
     Inference.plate_model := None;
     Inference.readtext := λ _,
       Some [([(120, 90); (160, 90); (160, 98); (120, 98)]%Q, "AB-123", 0.5%Q);
             ([(5, 5); (40, 5); (40, 15); (5, 15)]%Q, "EXIT", 0.9%Q)];
     Inference.head_height := λ h, inject_Z (Qnum h * 20 / (Zpos (Qden h) * 100));
     Inference.bumper_height := λ h, inject_Z (Qnum h * 25 / (Zpos (Qden h) * 100));
     Inference.redact_box := λ _ frame _, frame +:+ "#" |}.

End Cases.

(** * Properties *)

(** ** Policy resolver *)

Section PolicyFacts.
Import Policy.

Lemma Qlt_bool_irrefl (q : Q) : Qlt_bool q q = false.
Proof.
  unfold Qlt_bool. apply negb_false_iff, Qle_bool_iff, Qle_refl.
Qed.

Lemma py_max_usable (floor : Q) (o : gmap string pyval) :
  threshold_usable o →
  py_max floor (dict_get o "confidence_threshold" (VNum floor))
  = Ok (raised_threshold floor o).
Proof.
  unfold threshold_usable, dict_get, raised_threshold, py_max.
  destruct (o !! "confidence_threshold") as [v|]; simpl.
  - intros [q ->]. reflexivity.
  - intros _. by rewrite Qlt_bool_irrefl.
Qed.

Lemma raised_threshold_floor (floor : Q) (o : gmap string pyval) :
  (floor <= raised_threshold floor o)%Q.
Proof.
  unfold raised_threshold.
  destruct (o !! "confidence_threshold") as [v|]; [|apply Qle_refl].
  destruct (as_number v) as [q|]; [|apply Qle_refl].
  destruct (Qlt_bool floor q) eqn:E; [|apply Qle_refl].
  unfold Qlt_bool in E. apply negb_true_iff in E.
  apply Qlt_le_weak, Qnot_le_lt. intros H%Qle_bool_iff. congruence.
Qed.

(** The overrides of step 3 never clear a target and never touch the
    threshold. *)
Lemma apply_overrides_monotone (profile : string) (o : gmap string pyval)
    (c : PrivacyConfig) :
  let c' := apply_overrides profile o c in
  target_faces c' = target_faces c ∧
  target_plates c' = target_plates c ∧
  (target_logos c = true → target_logos c' = true) ∧
  (target_text c = true → target_text c' = true) ∧
  confidence_threshold c' = confidence_threshold c.
Proof.
  unfold apply_overrides.
  destruct (truthy (dict_get o "target_logos" VNone));
    destruct (truthy (dict_get o "target_text" VNone));
    destruct (negb (String.eqb profile "HIPAA_SAFE_HARBOR"));
    destruct (o !! "mode") as [v|]; try destruct (AnonymizeMode_of v);
    simpl; auto.
Qed.

Lemma apply_overrides_hipaa_mode (o : gmap string pyval) (c : PrivacyConfig) :
  mode (apply_overrides "HIPAA_SAFE_HARBOR" o c) = mode c.
Proof.
  unfold apply_overrides. simpl.
  destruct (truthy (dict_get o "target_logos" VNone));
    destruct (truthy (dict_get o "target_text" VNone)); reflexivity.
Qed.

(** Step 2 returns whenever the threshold entry is usable, and leaves the
    mode at the forced one, or at the default. *)
Lemma mandates_total (profile : string) (o : gmap string pyval) :
  threshold_usable o →
  ∃ c, apply_mandates profile o default_config = Ok c ∧
       mode c = default (mode default_config) (m_mode (mandates profile)).
Proof.
  intros Hu. unfold apply_mandates, mandates.
  destruct (String.eqb profile "GDPR");
    [|destruct (String.eqb profile "HIPAA_SAFE_HARBOR");
      [|destruct (String.eqb profile "CCPA")]];
    rewrite ?(py_max_usable _ _ Hu); eexists; split; reflexivity.
Qed.

(** With a usable threshold entry the resolver returns, and what it returns
    respects the mandates. *)
Lemma resolver_usable (profile : string)
    (user_overrides : option (gmap string pyval)) :
  let o := default ∅ user_overrides in
  let m := mandates profile in
  threshold_usable o →
  ∃ cfg, get_config_for_profile profile user_overrides = Ok cfg ∧
    target_faces cfg = true ∧ target_plates cfg = true ∧
    (m_logos m = true → target_logos cfg = true) ∧
    (m_text m = true → target_text cfg = true) ∧
    (∀ forced, m_mode m = Some forced → mode cfg = forced) ∧
    (profile = "HIPAA_SAFE_HARBOR" → mode cfg = BLACK_BOX) ∧
    (∀ floor, m_floor m = Some floor →
       confidence_threshold cfg = raised_threshold floor o ∧
       (floor <= confidence_threshold cfg)%Q).
Proof.
  intros o m Hu.
  assert (Hget : get_config_for_profile profile user_overrides =
                 match apply_mandates profile o default_config with
                 | Ok c => Ok (apply_overrides profile o c)
                 | Raise e => Raise e
                 end) by (destruct user_overrides; reflexivity).
  rewrite Hget. subst m. unfold apply_mandates, mandates.
  destruct (String.eqb profile "GDPR") eqn:E1;
    [|destruct (String.eqb profile "HIPAA_SAFE_HARBOR") eqn:E2;
      [|destruct (String.eqb profile "CCPA") eqn:E3]].
  - rewrite (py_max_usable _ _ Hu). eexists; split; [reflexivity|].
    destruct (apply_overrides_monotone profile o
      (set_confidence_threshold (raised_threshold 0.6 o)
        (set_target_text true (set_target_plates true
          (set_target_faces true default_config)))))
      as (Hf & Hp & Hl & Ht & Hc).
    simpl in *. rewrite Hf, Hp, Hc.
    apply String.eqb_eq in E1. subst profile.
    split_and!; auto; try discriminate.
    intros ? [= <-]. split; [reflexivity | apply raised_threshold_floor].
  - rewrite (py_max_usable _ _ Hu). eexists; split; [reflexivity|].
    apply String.eqb_eq in E2. subst profile.
    rewrite apply_overrides_hipaa_mode.
    destruct (apply_overrides_monotone "HIPAA_SAFE_HARBOR" o
      (set_confidence_threshold (raised_threshold 0.7 o)
        (set_mode BLACK_BOX (set_target_logos true
          (set_target_text true (set_target_plates true
            (set_target_faces true default_config)))))))
      as (Hf & Hp & Hl & Ht & Hc).
    simpl in *. rewrite Hf, Hp, Hc.
    split_and!; auto.
    + intros forced [= <-]. reflexivity.
    + intros ? [= <-]. split; [reflexivity | apply raised_threshold_floor].
  - rewrite (py_max_usable _ _ Hu). eexists; split; [reflexivity|].
    destruct (apply_overrides_monotone profile o
      (set_confidence_threshold (raised_threshold 0.55 o)
        (set_target_plates true (set_target_faces true default_config))))
      as (Hf & Hp & Hl & Ht & Hc).
    simpl in *. rewrite Hf, Hp, Hc.
    apply String.eqb_eq in E3. subst profile.
    split_and!; auto; try discriminate.
    intros ? [= <-]. split; [reflexivity | apply raised_threshold_floor].
  - eexists; split; [reflexivity|].
    destruct (apply_overrides_monotone profile o default_config)
      as (Hf & Hp & Hl & Ht & Hc).
    simpl in *. rewrite Hf, Hp.
    split_and!; auto; try discriminate.
    intros ->. discriminate.
Qed.

(** A profile with a floor hands the threshold entry to [max]; when the
    resolver returns, that entry was usable. *)
Lemma resolver_ok_usable (profile : string)
    (user_overrides : option (gmap string pyval)) (cfg : PrivacyConfig) :
  get_config_for_profile profile user_overrides = Ok cfg →
  threshold_usable (default ∅ user_overrides) ∨
  (mandates profile = {| m_faces := false; m_plates := false; m_logos := false;
                         m_text := false; m_mode := None; m_floor := None |} ∧
   cfg = apply_overrides profile (default ∅ user_overrides) default_config).
Proof.
  set (o := default ∅ user_overrides).
  assert (Hget : get_config_for_profile profile user_overrides =
                 match apply_mandates profile o default_config with
                 | Ok c => Ok (apply_overrides profile o c)
                 | Raise e => Raise e
                 end) by (destruct user_overrides; reflexivity).
  rewrite Hget. unfold apply_mandates, mandates, threshold_usable, dict_get, py_max.
  destruct (String.eqb profile "GDPR");
    [|destruct (String.eqb profile "HIPAA_SAFE_HARBOR");
      [|destruct (String.eqb profile "CCPA")]];
    try (destruct (o !! "confidence_threshold") as [v|]; [|by left];
         destruct (as_number v); [left; eauto | discriminate]).
  intros [= <-]. by right.
Qed.

(** C6. Profile mandates are floors.  For every profile name and every
    override dictionary: whenever the resolver produces a configuration,
    faces and plates are on, every target the profile mandates is on, the
    mode the profile forces (black_box for HIPAA_SAFE_HARBOR) is in force,
    and for a profile with a floor the threshold is the maximum of the floor
    and the override, so never below the floor.  It produces one whenever the
    threshold entry is absent or a number. *)
Theorem mandates_are_floors (profile : string)
    (user_overrides : option (gmap string pyval)) :
  let o := default ∅ user_overrides in
  let m := mandates profile in
  (threshold_usable o →
   is_ok (get_config_for_profile profile user_overrides) = true) ∧
  ∀ cfg, get_config_for_profile profile user_overrides = Ok cfg →
    target_faces cfg = true ∧ target_plates cfg = true ∧
    (m_logos m = true → target_logos cfg = true) ∧
    (m_text m = true → target_text cfg = true) ∧
    (∀ forced, m_mode m = Some forced → mode cfg = forced) ∧
    (profile = "HIPAA_SAFE_HARBOR" → mode cfg = BLACK_BOX) ∧
    (∀ floor, m_floor m = Some floor →
       confidence_threshold cfg = raised_threshold floor o ∧
       (floor <= confidence_threshold cfg)%Q).
Proof.
  intros o m. split.
  - intros Hu. destruct (resolver_usable profile user_overrides Hu) as (cfg & -> & _).
    reflexivity.
  - intros cfg Hget.
    destruct (resolver_ok_usable profile user_overrides cfg Hget) as [Hu|[Hm ->]].
    + destruct (resolver_usable profile user_overrides Hu) as (cfg' & Hget' & Hprops).
      rewrite Hget in Hget'. injection Hget' as <-. exact Hprops.
    + destruct (apply_overrides_monotone profile o default_config)
        as (Hf & Hp & _ & _ & _).
      subst m. rewrite Hm. cbn [m_logos m_text m_mode m_floor].
      fold o. rewrite Hf, Hp.
      split_and!; try done.
      intros ->. discriminate Hm.
Qed.

(** The spec's example for C6: GDPR with an override of 0.3 keeps 0.6. *)
Lemma mandates_are_floors_witness :
  let o : gmap string pyval := {[ "confidence_threshold" := VNum 0.3%Q ]} in
  is_ok (get_config_for_profile "GDPR" (Some o)) = true ∧
  ∃ cfg, get_config_for_profile "GDPR" (Some o) = Ok cfg ∧
         target_text cfg = true ∧ confidence_threshold cfg = 0.6%Q.
Proof.
  intros o.
  assert (Hu : threshold_usable o) by (vm_compute; eauto).
  destruct (mandates_are_floors "GDPR" (Some o)) as [Htotal Hprops].
  split; [exact (Htotal Hu)|].
  exists {| target_faces := true; target_plates := true; target_logos := false;
            target_text := true; mode := BLUR; confidence_threshold := 0.6%Q;
            enable_heuristics := true |}.
  split; [reflexivity|].
  destruct (Hprops _ eq_refl) as (_ & _ & _ & Htext & _ & _ & Hfloor).
  split; [apply Htext; reflexivity|].
  destruct (Hfloor 0.6%Q eq_refl) as [Hthr _]. exact Hthr.
Defined.

Example gdpr_override_above_floor :
  confidence_threshold <$>
    (match get_config_for_profile "GDPR"
             (Some {[ "confidence_threshold" := VNum 0.9%Q ]}) with
     | Ok c => Some c | Raise _ => None end) = Some 0.9%Q.
Proof. reflexivity. Qed.

Example hipaa_blur_override_ignored :
  mode <$>
    (match get_config_for_profile "HIPAA_SAFE_HARBOR"
             (Some {[ "mode" := VStr "blur" ]}) with
     | Ok c => Some c | Raise _ => None end) = Some BLACK_BOX.
Proof. reflexivity. Qed.

Lemma threshold_usable_delete_mode (o : gmap string pyval) :
  threshold_usable (delete "mode" o) ↔ threshold_usable o.
Proof.
  unfold threshold_usable. by rewrite lookup_delete_ne.
Qed.

(** C8. A mode override outside blur / pixelate / black_box is ignored: the
    resolver behaves exactly as if the override dictionary had no mode entry,
    so the mode entry causes no error; and whenever the threshold entry is
    usable the call returns a configuration whose mode is the one the
    profile forces, or the default blur when it forces none. *)
Theorem unrecognized_mode_ignored (profile : string)
    (user_overrides : gmap string pyval) (v : pyval) :
  user_overrides !! "mode" = Some v →
  ¬ recognized_mode v →
  get_config_for_profile profile (Some user_overrides)
  = get_config_for_profile profile (Some (delete "mode" user_overrides)) ∧
  (threshold_usable user_overrides →
   ∃ cfg, get_config_for_profile profile (Some user_overrides) = Ok cfg ∧
          mode cfg = default (mode default_config) (m_mode (mandates profile))).
Proof.
  intros Hv Hnot.
  assert (Hnone : AnonymizeMode_of v = None).
  { destruct (AnonymizeMode_of v) eqn:E; [|reflexivity].
    exfalso. apply Hnot. unfold recognized_mode. rewrite E. eauto. }
  assert (Hov : ∀ c, apply_overrides profile user_overrides c
                   = apply_overrides profile (delete "mode" user_overrides) c).
  { intros c. unfold apply_overrides, dict_get.
    rewrite (lookup_delete_ne _ "mode" "target_logos") by done.
    rewrite (lookup_delete_ne _ "mode" "target_text") by done.
    rewrite lookup_delete_eq, Hv, Hnone.
    destruct (negb (String.eqb profile "HIPAA_SAFE_HARBOR")); reflexivity. }
  assert (Hmd : ∀ c, apply_mandates profile user_overrides c
                   = apply_mandates profile (delete "mode" user_overrides) c).
  { intros c. unfold apply_mandates, dict_get.
    rewrite (lookup_delete_ne _ "mode" "confidence_threshold") by done.
    reflexivity. }
  split.
  - unfold get_config_for_profile. rewrite Hmd.
    destruct (apply_mandates profile (delete "mode" user_overrides) default_config);
      [by rewrite Hov | reflexivity].
  - intros Hu.
    destruct (mandates_total profile user_overrides Hu) as (c & Hc & Hmode).
    exists (apply_overrides profile user_overrides c). split.
    + unfold get_config_for_profile. by rewrite Hc.
    + rewrite <- Hmode. unfold apply_overrides.
      rewrite Hv, Hnone.
      destruct (truthy (dict_get user_overrides "target_logos" VNone));
        destruct (truthy (dict_get user_overrides "target_text" VNone));
        destruct (negb (String.eqb profile "HIPAA_SAFE_HARBOR")); reflexivity.
Qed.

Lemma unrecognized_mode_ignored_witness :
  let o : gmap string pyval :=
    {[ "mode" := VStr "sepia"; "target_logos" := VBool true ]} in
  ∃ cfg, get_config_for_profile "GDPR" (Some o) = Ok cfg ∧ mode cfg = BLUR.
Proof.
  intros o.
  assert (Hv : o !! "mode" = Some (VStr "sepia")) by reflexivity.
  assert (Hnot : ¬ recognized_mode (VStr "sepia")).
  { intros [m Hm]. vm_compute in Hm. discriminate Hm. }
  assert (Hu : threshold_usable o) by (vm_compute; exact I).
  destruct (unrecognized_mode_ignored "GDPR" o (VStr "sepia") Hv Hnot)
    as [_ Hcfg].
  exact (Hcfg Hu).
Defined.

End PolicyFacts.

(** ** The handlers, step by step *)

Section CoreFacts.
Import Policy Core.

Lemma bind_run {A B} (m : M A) (f : A → M B) (w : World) :
  (m ≫= f) w = match m w with
               | (Ok a, w') => f a w'
               | (Raise e, w') => (Raise e, w')
               end.
Proof. reflexivity. Qed.

Lemma update_status_run (job_id : string) (s : Status) (w : World) (j : Job) :
  jobs w !! job_id = Some j →
  update_status job_id s w =
  (Ok (), {| jobs := <[job_id := set_status s j]> (jobs w); blobs := blobs w;
             trace := trace w ++ [EvStatus job_id s] |}).
Proof.
  intros Hj. unfold update_status. rewrite bind_run. unfold doc_update.
  rewrite Hj. reflexivity.
Qed.

Lemma update_status_missing (job_id : string) (s : Status) (w : World) :
  jobs w !! job_id = None → update_status job_id s w = (Raise NotFound, w).
Proof.
  intros Hj. unfold update_status. rewrite bind_run. unfold doc_update.
  rewrite Hj. reflexivity.
Qed.

Lemma chunk_config_ok (job_data : gmap string pyval) :
  ∃ cfg, chunk_config job_data = Ok cfg.
Proof.
  unfold chunk_config, get_config_for_profile.
  match goal with |- context [apply_mandates ?p ?o _] =>
    destruct (mandates_total p o) as (c & -> & _) end.
  - unfold threshold_usable. by simplify_map_eq.
  - eauto.
Qed.

Lemma process_chunk_steps (env : Env) (job_id chunk : string) (w : World) (j : Job)
    (cfg : PrivacyConfig) :
  jobs w !! job_id = Some j →
  chunk_config (settings j) = Ok cfg →
  let w1 := {| jobs := <[job_id := set_status PROCESSING j]> (jobs w);
               blobs := blobs w;
               trace := trace w ++ [EvStatus job_id PROCESSING] |} in
  process_chunk env job_id chunk w =
  match chunk_input env w job_id chunk with
  | None => (Raise CvError, w1)
  | Some local_input =>
      match video_capture env local_input with
      | None => (Ok (ChunkError "Could not open video"), w1)
      | Some frames =>
          (upload ("output/" +:+ job_id +:+ "/" +:+ chunk)
                  (chunk_output env cfg local_input frames) ;;
           ct ← update_progress job_id;
           trigger_stitch env job_id ct.1 ct.2 ;;
           mret (ChunkProcessed chunk)) w1
      end
  end.
Proof.
  intros Hj Hcfg w1. unfold process_chunk.
  rewrite bind_run, (update_status_run _ _ _ _ Hj). fold w1.
  rewrite bind_run. unfold doc_get at 1. subst w1. cbn [jobs].
  rewrite lookup_insert_eq. cbn [settings set_status]. rewrite Hcfg.
  cbv zeta. rewrite bind_run. unfold blob_exists at 1, chunk_input. cbn [blobs].
  destruct (blobs w !! ("input/" +:+ job_id +:+ "/" +:+ chunk)) as [b|] eqn:Hb.
  - rewrite bool_decide_eq_true_2 by eauto.
    rewrite bind_run. unfold download at 1. cbn [blobs]. rewrite Hb.
    destruct (video_capture env b) as [frames|]; reflexivity.
  - rewrite bool_decide_eq_false_2 by (intros [? ?]; discriminate).
    rewrite bind_run.
    destruct (imwrite_dummy env ("/tmp/" +:+ chunk)) as [dummy|]; [|reflexivity].
    unfold mret at 1, M_ret at 1.
    destruct (video_capture env dummy) as [frames|]; reflexivity.
Qed.

Lemma process_chunk_run (env : Env) (job_id chunk : string) (w : World) (j : Job)
    (cfg : PrivacyConfig) (input : bytes) (frames : list bytes) :
  jobs w !! job_id = Some j →
  chunk_config (settings j) = Ok cfg →
  chunk_input env w job_id chunk = Some input →
  video_capture env input = Some frames →
  let new_count := (chunks_completed j + 1)%Z in
  process_chunk env job_id chunk w =
  (Ok (ChunkProcessed chunk),
   {| jobs := <[job_id := set_chunks_completed new_count (set_status PROCESSING j)]> (jobs w);
      blobs := <["output/" +:+ job_id +:+ "/" +:+ chunk :=
                 chunk_output env cfg input frames]> (blobs w);
      trace := trace w ++
        [EvStatus job_id PROCESSING;
         EvUpload ("output/" +:+ job_id +:+ "/" +:+ chunk);
         EvChunksCompleted job_id new_count] ++
        (if (chunks_total j <=? new_count)%Z && truthy_str (ORCHESTRATOR_URL env)
         then [EvStitchTrigger (default "" (ORCHESTRATOR_URL env) +:+ "/internal/stitch") job_id]
         else []) |}).
Proof.
  intros Hj Hcfg Hin Hcap new_count.
  rewrite (process_chunk_steps _ _ _ _ _ _ Hj Hcfg). cbv zeta. rewrite Hin, Hcap.
  rewrite bind_run. unfold upload at 1. cbn [jobs blobs trace].
  rewrite bind_run. unfold update_progress at 1. cbn [jobs blobs trace].
  rewrite lookup_insert_eq. cbn [chunks_completed chunks_total set_status fst snd].
  rewrite bind_run. unfold trigger_stitch.
  fold new_count.
  rewrite insert_insert_eq, <- !app_assoc. cbn [app].
  destruct (chunks_total j <=? new_count)%Z; cbn [andb];
    [destruct (truthy_str (ORCHESTRATOR_URL env))|]; unfold emit, mret, M_ret;
    cbn [jobs blobs trace]; rewrite <- ?app_assoc, ?app_nil_r; reflexivity.
Qed.

Lemma process_chunk_unopened (env : Env) (job_id chunk : string) (w : World) (j : Job)
    (input : bytes) :
  jobs w !! job_id = Some j →
  chunk_input env w job_id chunk = Some input →
  video_capture env input = None →
  process_chunk env job_id chunk w =
  (Ok (ChunkError "Could not open video"),
   {| jobs := <[job_id := set_status PROCESSING j]> (jobs w);
      blobs := blobs w;
      trace := trace w ++ [EvStatus job_id PROCESSING] |}).
Proof.
  intros Hj Hin Hcap.
  destruct (chunk_config_ok (settings j)) as [cfg Hcfg].
  rewrite (process_chunk_steps _ _ _ _ _ _ Hj Hcfg). cbv zeta.
  by rewrite Hin, Hcap.
Qed.

(** A call for a chunk that is not in the bucket, under a name for which
    [cv2.imwrite] has no writer, ends in [cv2.error] once the status is
    written. *)
Lemma process_chunk_no_input (env : Env) (job_id chunk : string) (w : World) (j : Job) :
  jobs w !! job_id = Some j →
  chunk_input env w job_id chunk = None →
  process_chunk env job_id chunk w =
  (Raise CvError,
   {| jobs := <[job_id := set_status PROCESSING j]> (jobs w);
      blobs := blobs w;
      trace := trace w ++ [EvStatus job_id PROCESSING] |}).
Proof.
  intros Hj Hin.
  destruct (chunk_config_ok (settings j)) as [cfg Hcfg].
  rewrite (process_chunk_steps _ _ _ _ _ _ Hj Hcfg). cbv zeta.
  by rewrite Hin.
Qed.

(** The three ways a call for an existing job can go. *)
Lemma process_chunk_cases (env : Env) (job_id chunk : string) (w : World) (j : Job) :
  jobs w !! job_id = Some j →
  chunk_input env w job_id chunk = None ∨
  (∃ input, chunk_input env w job_id chunk = Some input ∧
            video_capture env input = None) ∨
  (∃ input frames, chunk_input env w job_id chunk = Some input ∧
                   video_capture env input = Some frames).
Proof.
  intros _. destruct (chunk_input env w job_id chunk) as [input|]; [|by left].
  right. destruct (video_capture env input) as [frames|] eqn:E; eauto.
Qed.

(** Uploads of outputs do not change what a later call reads. *)
Lemma chunk_input_output (env : Env) (w w' : World) (job_id c c' : string) (v : bytes) :
  blobs w' = <["output/" +:+ job_id +:+ "/" +:+ c' := v]> (blobs w) →
  chunk_input env w' job_id c = chunk_input env w job_id c.
Proof.
  intros Hb. unfold chunk_input. rewrite Hb, lookup_insert_ne; [done|].
  change ("input/" +:+ ?x) with (String "i" ("nput/" +:+ x)).
  change ("output/" +:+ ?x) with (String "o" ("utput/" +:+ x)).
  discriminate.
Qed.

Lemma process_chunk_missing_job (env : Env) (job_id chunk : string) (w : World) :
  jobs w !! job_id = None →
  process_chunk env job_id chunk w = (Raise NotFound, w).
Proof.
  intros Hj. unfold process_chunk.
  rewrite bind_run, (update_status_missing _ _ _ Hj). reflexivity.
Qed.

Lemma process_chunk_status (env : Env) (job_id chunk : string)
    (w : World) (j : Job) :
  jobs w !! job_id = Some j →
  ∃ j', jobs (process_chunk env job_id chunk w).2 !! job_id = Some j' ∧
        status j' = PROCESSING ∧ chunks_total j' = chunks_total j.
Proof.
  intros Hj.
  destruct (chunk_config_ok (settings j)) as [cfg Hcfg].
  destruct (process_chunk_cases env job_id chunk w j Hj)
    as [Hin|[(input & Hin & Hcap)|(input & frames & Hin & Hcap)]].
  - rewrite (process_chunk_no_input _ _ _ _ _ Hj Hin). cbn [snd jobs].
    rewrite lookup_insert_eq. eauto.
  - rewrite (process_chunk_unopened _ _ _ _ _ _ Hj Hin Hcap). cbn [snd jobs].
    rewrite lookup_insert_eq. eauto.
  - rewrite (process_chunk_run _ _ _ _ _ _ _ _ Hj Hcfg Hin Hcap). cbn [snd jobs].
    rewrite lookup_insert_eq. eauto.
Qed.

Lemma download_chunks_world (l : list string) :
  ∀ fs lf w, (download_chunks l fs lf w).2 = w.
Proof.
  induction l as [|name l IH]; intros fs lf w; [reflexivity|].
  cbn [download_chunks]. rewrite bind_run. unfold download at 1.
  destruct (blobs w !! name); [apply IH | reflexivity].
Qed.

Lemma stitch_video_status (env : Env) (job_id : string) (w : World) (j : Job) :
  jobs w !! job_id = Some j →
  ∃ j', jobs (stitch_video env job_id w).2 !! job_id = Some j' ∧
        status j' = (if is_ok (stitch_video env job_id w).1 then COMPLETED else STITCHING) ∧
        chunks_total j' = chunks_total j.
Proof.
  intros Hj. destruct (stitch_video env job_id w) as [r w'] eqn:E.
  cbn [fst snd]. revert E. unfold stitch_video.
  rewrite bind_run, (update_status_run _ _ _ _ Hj).
  rewrite bind_run. unfold list_blobs at 1. cbn [blobs].
  rewrite bind_run.
  match goal with |- context [download_chunks ?l ?fs ?lf ?w0] =>
    pose proof (download_chunks_world l fs lf w0) as Hw;
    destruct (download_chunks l fs lf w0) as [[local|e] w1] end;
    cbn [snd] in Hw; subst w1.
  2:{ intros [= <- <-]. cbn [jobs is_ok]. rewrite lookup_insert_eq. eauto. }
  destruct (ffmpeg_concat env _) as [out|].
  2:{ intros [= <- <-]. cbn [jobs is_ok]. rewrite lookup_insert_eq. eauto. }
  rewrite bind_run. unfold upload at 1. cbn [jobs blobs trace].
  rewrite bind_run. unfold sign_url at 1. cbn [jobs blobs trace].
  rewrite bind_run. unfold doc_update at 1. cbn [jobs blobs trace].
  rewrite lookup_insert_eq.
  rewrite bind_run. unfold emit at 1. cbn [jobs blobs trace].
  rewrite bind_run. unfold doc_get at 1. cbn [jobs blobs trace].
  rewrite lookup_insert_eq.
  rewrite bind_run.
  destruct (truthy_str _); unfold emit, mret, M_ret;
    intros [= <- <-]; cbn [jobs is_ok]; rewrite lookup_insert_eq; eauto.
Qed.


Lemma observed_app (job_id : string) (t1 t2 : list Event) :
  observed job_id (t1 ++ t2) = observed job_id t1 ++ observed job_id t2.
Proof. apply omap_app. Qed.

Lemma stitch_triggers_app (job_id : string) (t1 t2 : list Event) :
  stitch_triggers job_id (t1 ++ t2) = stitch_triggers job_id t1 + stitch_triggers job_id t2.
Proof. unfold stitch_triggers. by rewrite filter_app, length_app. Qed.

Lemma observed_chunk_events (env : Env) (job_id chunk : string) (v total : Z) :
  observed job_id (chunk_events env job_id chunk v total) = [v].
Proof.
  unfold chunk_events, observed.
  destruct (_ && _); cbn; rewrite String.eqb_refl; reflexivity.
Qed.

Lemma stitch_triggers_chunk_events (env : Env) (job_id chunk : string) (v total : Z) :
  stitch_triggers job_id (chunk_events env job_id chunk v total)
  = if (total <=? v)%Z && truthy_str (ORCHESTRATOR_URL env) then 1 else 0.
Proof.
  unfold chunk_events, stitch_triggers.
  destruct (_ && _); [|reflexivity].
  rewrite filter_app, length_app.
  rewrite (filter_cons_True _ (EvStitchTrigger _ _));
    [reflexivity | cbn; apply String.eqb_refl].
Qed.

Lemma process_chunks_cons (env : Env) (job_id c : string) (cs : list string) (w : World) :
  process_chunks env job_id (c :: cs) w =
  match process_chunk env job_id c w with
  | (Ok _, w') => process_chunks env job_id cs w'
  | (Raise e, w') => (Raise e, w')
  end.
Proof.
  unfold process_chunks. cbn [for_each]. rewrite !bind_run.
  destruct (process_chunk env job_id c w) as [[r|e] w']; reflexivity.
Qed.

Lemma process_chunks_run (env : Env) (job_id : string) (cs : list string) :
  (∀ b, is_Some (video_capture env b)) →
  ∀ (w : World) (j : Job),
  jobs w !! job_id = Some j →
  (∀ c, c ∈ cs → is_Some (chunk_input env w job_id c)) →
  ∃ j' new,
    (process_chunks env job_id cs w).1 = Ok () ∧
    jobs (process_chunks env job_id cs w).2 !! job_id = Some j' ∧
    trace (process_chunks env job_id cs w).2 = trace w ++ new ∧
    chunks_completed j' = (chunks_completed j + Z.of_nat (length cs))%Z ∧
    chunks_total j' = chunks_total j ∧
    observed job_id new
      = map (λ k, (chunks_completed j + Z.of_nat k)%Z) (seq 1 (length cs)) ∧
    stitch_triggers job_id new
      = if truthy_str (ORCHESTRATOR_URL env)
        then reached (chunks_total j) (observed job_id new) else 0.
Proof.
  intros Hcap. induction cs as [|c cs IH]; intros w j Hj Hin.
  - exists j, []. cbn. rewrite app_nil_r.
    split_and!; auto; [f_equal; lia | by destruct (truthy_str _)].
  - destruct (chunk_config_ok (settings j)) as [cfg Hcfg].
    destruct (Hin c) as [input Hinput]; [by left|].
    destruct (Hcap input) as [frames Hfr].
    rewrite process_chunks_cons,
      (process_chunk_run _ _ _ _ _ _ _ _ Hj Hcfg Hinput Hfr).
    fold (chunk_events env job_id c (chunks_completed j + 1) (chunks_total j)).
    set (j1 := set_chunks_completed (chunks_completed j + 1) (set_status PROCESSING j)).
    set (w1 := {| jobs := <[job_id := j1]> (jobs w) |}).
    destruct (IH w1 j1) as (j' & new & Hok & Hj' & Htr & Hc & Ht & Hobs & Htrig).
    { subst w1. cbn [jobs]. apply lookup_insert_eq. }
    { intros c' Hc'. rewrite (chunk_input_output env w w1 job_id c' c _ eq_refl).
      apply Hin. by right. }
    exists j', (chunk_events env job_id c (chunks_completed j + 1) (chunks_total j) ++ new).
    subst j1. cbn [chunks_completed chunks_total set_chunks_completed set_status] in *.
    split_and!; auto.
    + rewrite Htr. subst w1. cbn [trace]. by rewrite app_assoc.
    + rewrite Hc. cbn [length]. lia.
    + rewrite observed_app, observed_chunk_events, Hobs.
      cbn [length seq map app]. f_equal. rewrite <- (fmap_S_seq 1 (length cs)).
      rewrite <- list_fmap_compose. apply list_fmap_ext. intros _ k _. cbn. lia.
    + rewrite stitch_triggers_app, stitch_triggers_chunk_events, Htrig.
      rewrite observed_app, observed_chunk_events.
      destruct (truthy_str _); rewrite ?andb_false_r, ?andb_true_r; [|reflexivity].
      unfold reached. cbn [app].
      destruct (Z.leb_spec (chunks_total j) (chunks_completed j + 1)).
      * by rewrite filter_cons_True.
      * rewrite filter_cons_False by lia. reflexivity.
Qed.

(** ** Progress aggregation *)

Lemma seq_snoc_map (f : nat → Z) (n : nat) :
  map f (seq 1 (S n)) = map f (seq 1 n) ++ [f (S n)].
Proof. by rewrite seq_S, map_app. Qed.

Lemma hits_serial (c0 total : Z) (n : nat) :
  hits total (map (λ k, (c0 + Z.of_nat k)%Z) (seq 1 n))
  = if ((c0 <? total)%Z && (total <=? c0 + Z.of_nat n)%Z)%bool then 1 else 0.
Proof.
  unfold hits. induction n as [|n IH].
  - cbn. destruct (Z.ltb_spec c0 total), (Z.leb_spec total (c0 + Z.of_nat 0)); cbn; auto; lia.
  - rewrite seq_snoc_map, filter_app, length_app, IH.
    destruct (decide ((c0 + Z.of_nat (S n))%Z = total)) as [He|Hne].
    + rewrite filter_cons_True by done. rewrite filter_nil. cbn [length].
      destruct (Z.ltb_spec c0 total), (Z.leb_spec total (c0 + Z.of_nat n)),
        (Z.leb_spec total (c0 + Z.of_nat (S n))); cbn; lia.
    + rewrite filter_cons_False by done. rewrite filter_nil. cbn [length].
      destruct (Z.ltb_spec c0 total), (Z.leb_spec total (c0 + Z.of_nat n)),
        (Z.leb_spec total (c0 + Z.of_nat (S n))); cbn; lia.
Qed.

Lemma reached_serial (c0 total : Z) (n : nat) :
  (c0 < total)%Z →
  Z.of_nat (reached total (map (λ k, (c0 + Z.of_nat k)%Z) (seq 1 n)))
  = Z.max 0 (c0 + Z.of_nat n - total + 1).
Proof.
  intros Hlt. unfold reached. induction n as [|n IH].
  - cbn. lia.
  - rewrite seq_snoc_map, filter_app, length_app, Nat2Z.inj_add, IH.
    destruct (decide (total <= c0 + Z.of_nat (S n))%Z).
    + rewrite filter_cons_True by done. rewrite filter_nil. cbn [length]. lia.
    + rewrite filter_cons_False by done. rewrite filter_nil. cbn [length]. lia.
Qed.

(** C1, as the code has it.  In a run of completion calls for one job that
    all reach the transaction (each has an input to read, and every file
    opens), with the orchestrator URL configured: the
    k-th call observes [chunks_completed + k]; exactly one call observes
    [chunks_total] when the counter starts below it and enough calls arrive;
    and a call issues the stitch request exactly when the value it observes
    is at least [chunks_total], so the calls after that one issue it again. *)
Theorem stitch_trigger_at_or_above_total (env : Env) (job_id : string)
    (cs : list string) (w : World) (j : Job) :
  (∀ b, is_Some (video_capture env b)) →
  (∀ c, c ∈ cs → is_Some (chunk_input env w job_id c)) →
  truthy_str (ORCHESTRATOR_URL env) = true →
  jobs w !! job_id = Some j →
  let total := chunks_total j in
  let c0 := chunks_completed j in
  let n := Z.of_nat (length cs) in
  ∃ new,
    trace (process_chunks env job_id cs w).2 = trace w ++ new ∧
    observed job_id new = map (λ k, (c0 + Z.of_nat k)%Z) (seq 1 (length cs)) ∧
    stitch_triggers job_id new = reached total (observed job_id new) ∧
    ((c0 < total ≤ c0 + n)%Z →
       hits total (observed job_id new) = 1 ∧
       Z.of_nat (stitch_triggers job_id new) = (c0 + n - total + 1)%Z) ∧
    ((c0 + n < total)%Z → stitch_triggers job_id new = 0).
Proof.
  intros Hcap Hin Hurl Hj total c0 n. subst n.
  destruct (process_chunks_run env job_id cs Hcap w j Hj Hin)
    as (j' & new & _ & _ & Htr & _ & _ & Hobs & Htrig).
  fold c0 total in Hobs, Htrig. clearbody c0 total.
  rewrite Hurl in Htrig. exists new. split_and!; auto.
  - intros [Hlo Hhi]. rewrite Htrig, Hobs, hits_serial. split.
    + destruct (Z.ltb_spec c0 total), (Z.leb_spec total (c0 + Z.of_nat (length cs)));
        cbn; auto; lia.
    + rewrite reached_serial by done. lia.
  - intros Hlt. rewrite Htrig, Hobs.
    apply Nat2Z.inj. rewrite reached_serial by lia. lia.
Qed.

(** C3, as the code has it.  Every completion call that reaches the
    transaction (it has an input to read, and the file opens) adds exactly
    one to [chunks_completed] and leaves
    [chunks_total] alone: after [n] calls, duplicates included, the counter
    is its old value plus [n].  It stays within [0, chunks_total] as long as
    no more calls arrive than chunks were missing, and exceeds the total
    otherwise. *)
Theorem completed_counts_every_call (env : Env) (job_id : string)
    (cs : list string) (w : World) (j : Job) :
  (∀ b, is_Some (video_capture env b)) →
  (∀ c, c ∈ cs → is_Some (chunk_input env w job_id c)) →
  jobs w !! job_id = Some j →
  let n := Z.of_nat (length cs) in
  ∃ j', jobs (process_chunks env job_id cs w).2 !! job_id = Some j' ∧
    chunks_total j' = chunks_total j ∧
    chunks_completed j' = (chunks_completed j + n)%Z ∧
    ((0 <= chunks_completed j)%Z → (chunks_completed j + n <= chunks_total j)%Z →
       (0 <= chunks_completed j' <= chunks_total j')%Z) ∧
    ((chunks_total j < chunks_completed j + n)%Z →
       (chunks_total j' < chunks_completed j')%Z).
Proof.
  intros Hcap Hin Hj n.
  destruct (process_chunks_run env job_id cs Hcap w j Hj Hin)
    as (j' & new & _ & Hj' & _ & Hc & Ht & _ & _).
  exists j'. subst n. split_and!; auto; lia.
Qed.

(** C2, as the code has it.  No status write looks at the current status:
    on an existing job in any state, terminal ones included, a completion
    call leaves the status at PROCESSING, and a stitch request leaves it at
    COMPLETED when it returns and at STITCHING when it raises. *)
Theorem status_writes_are_unguarded (env : Env) (job_id : string)
    (w : World) (j : Job) :
  jobs w !! job_id = Some j →
  (∀ chunk, ∃ j',
      jobs (process_chunk env job_id chunk w).2 !! job_id = Some j' ∧
      status j' = PROCESSING) ∧
  (∃ j', jobs (stitch_video env job_id w).2 !! job_id = Some j' ∧
      status j' = if is_ok (stitch_video env job_id w).1
                  then COMPLETED else STITCHING).
Proof.
  intros Hj. split.
  - intros chunk.
    destruct (process_chunk_status env job_id chunk w j Hj) as (j' & ? & ? & _). eauto.
  - destruct (stitch_video_status env job_id w j Hj) as (j' & ? & ? & _). eauto.
Qed.

(** C10, where the code fails it.  When the input chunk is not in the bucket
    the worker means to read a dummy image in its place, but it asks
    [cv2.imwrite] to write the image under the name of the chunk.  For a
    name OpenCV has no image writer for, and the names of the planner all
    end in [.mp4], the call ends in [cv2.error] once the status is written:
    no dummy is read, nothing is stored under the output path and
    [chunks_completed] stays as it is. *)
Theorem missing_chunk_raises_cv_error (env : Env) (job_id chunk : string)
    (w : World) (j : Job) :
  jobs w !! job_id = Some j →
  blobs w !! ("input/" +:+ job_id +:+ "/" +:+ chunk) = None →
  imwrite_dummy env ("/tmp/" +:+ chunk) = None →
  let r := process_chunk env job_id chunk w in
  r.1 = Raise CvError ∧
  blobs r.2 = blobs w ∧
  jobs r.2 !! job_id = Some (set_status PROCESSING j) ∧
  trace r.2 = trace w ++ [EvStatus job_id PROCESSING].
Proof.
  intros Hj Hb Hw r. subst r.
  assert (Hin : chunk_input env w job_id chunk = None).
  { unfold chunk_input. by rewrite Hb. }
  rewrite (process_chunk_no_input _ _ _ _ _ Hj Hin). cbn [fst snd jobs blobs trace].
  by rewrite lookup_insert_eq.
Qed.

(** ** Ingest: planning and dispatch *)

Lemma for_each_upload_run {A} (pf : A → string) (df : A → bytes) (l : list A) :
  ∀ w, for_each l (λ x, upload (pf x) (df x)) w =
       (Ok (), {| jobs := jobs w;
                  blobs := foldl (λ b x, <[pf x := df x]> b) (blobs w) l;
                  trace := trace w ++ map (λ x, EvUpload (pf x)) l |}).
Proof.
  induction l as [|x l IH]; intros w.
  - cbn. rewrite app_nil_r. by destruct w.
  - cbn [for_each]. rewrite bind_run. unfold upload at 1. rewrite IH.
    cbn [jobs blobs trace foldl map]. by rewrite <- app_assoc.
Qed.

Lemma for_each_emit_run {A} (g : A → Event) (l : list A) :
  ∀ w, for_each l (λ x, emit (g x)) w =
       (Ok (), {| jobs := jobs w; blobs := blobs w; trace := trace w ++ map g l |}).
Proof.
  induction l as [|x l IH]; intros w.
  - cbn. rewrite app_nil_r. by destruct w.
  - cbn [for_each]. rewrite bind_run. unfold emit at 1. rewrite IH.
    cbn [jobs blobs trace map]. by rewrite <- app_assoc.
Qed.

Lemma foldl_fmap {A B C} (f : A → C → A) (g : B → C) (a : A) (l : list B) :
  foldl f a (g <$> l) = foldl (λ a x, f a (g x)) a l.
Proof. revert a. induction l as [|x l IH]; intros a; cbn; [done|]. apply IH. Qed.

Lemma plan_chunks_run (env : Env) (job_id : string) (original : bytes) (d : Q) (w : World) :
  plan_chunks env job_id original d w =
  match planned env job_id original d with
  | Some chunks =>
      (Ok chunks.*1,
       {| jobs := jobs w; blobs := uploaded job_id chunks (blobs w);
          trace := trace w ++ map (λ c, EvUpload (chunk_path job_id c)) chunks.*1 |})
  | None => (Raise CalledProcessError, w)
  end.
Proof.
  unfold plan_chunks, planned.
  destruct (Qlt_bool 0 d && Qlt_bool d CHUNK_DURATION).
  - rewrite bind_run. reflexivity.
  - destruct (ffmpeg_segment env original) as [segs|]; [|reflexivity].
    rewrite bind_run.
    rewrite (for_each_upload_run (λ f, "input/" +:+ job_id +:+ "/" +:+ clean_name job_id f.1) snd).
    unfold mret, M_ret, uploaded, chunk_path. cbn [jobs blobs trace].
    rewrite <- !list_fmap_compose. f_equal. f_equal.
    rewrite foldl_fmap. reflexivity.
Qed.

Lemma dispatch_run (env : Env) (job_id : string) (chunks : list string) (w : World) :
  dispatch env job_id chunks w =
  (Ok (), {| jobs := jobs w; blobs := blobs w;
             trace := trace w ++
               imap (λ i c, EvCreateTask (chunk_task env job_id i c)
                              (create_task env (chunk_task env job_id i c))) chunks |}).
Proof.
  unfold dispatch.
  rewrite (for_each_emit_run (λ ic : nat * string,
             EvCreateTask (chunk_task env job_id ic.1 ic.2)
               (create_task env (chunk_task env job_id ic.1 ic.2)))).
  f_equal. f_equal. f_equal.
  match goal with |- map ?g ?l = _ => change (map g l) with (g <$> l) end.
  rewrite fmap_imap. reflexivity.
Qed.

Lemma ingest_video_missing_job (env : Env) (job_id : string) (w : World) :
  jobs w !! job_id = None → ingest_video env job_id w = (Raise NotFound, w).
Proof.
  intros Hj. unfold ingest_video.
  rewrite bind_run, (update_status_missing _ _ _ Hj). reflexivity.
Qed.

Lemma ingest_video_missing_input (env : Env) (job_id : string) (w : World) (j : Job) :
  jobs w !! job_id = Some j →
  blobs w !! ("input/" +:+ job_id +:+ "/original.mp4") = None →
  ingest_video env job_id w =
  (Ok IngestError,
   {| jobs := <[job_id := set_error_message "Input video not found"
                            (set_status FAILED (set_status CHUNKING j))]> (jobs w);
      blobs := blobs w;
      trace := trace w ++ [EvStatus job_id CHUNKING; EvStatus job_id FAILED] |}).
Proof.
  intros Hj Hb. unfold ingest_video.
  rewrite bind_run, (update_status_run _ _ _ _ Hj).
  rewrite bind_run. unfold blob_exists at 1. cbn [blobs]. rewrite Hb.
  rewrite bool_decide_eq_false_2 by (intros [? ?]; discriminate). cbn [negb].
  rewrite bind_run. unfold doc_update at 1. cbn [jobs blobs trace].
  rewrite lookup_insert_eq, insert_insert_eq.
  rewrite bind_run. unfold emit at 1. cbn [jobs blobs trace].
  rewrite <- app_assoc. reflexivity.
Qed.

Lemma ingest_video_run (env : Env) (job_id : string) (w : World) (j : Job)
    (original : bytes) :
  jobs w !! job_id = Some j →
  blobs w !! ("input/" +:+ job_id +:+ "/original.mp4") = Some original →
  ingest_video env job_id w =
  match planned env job_id original (probed_duration env original) with
  | Some chunks =>
      (Ok (Dispatched (length chunks)),
       {| jobs := <[job_id := set_chunks_total (Z.of_nat (length chunks))
                                (set_status CHUNKING j)]> (jobs w);
          blobs := uploaded job_id chunks (blobs w);
          trace := trace w ++ ingest_events env job_id chunks.*1 |})
  | None =>
      (Raise CalledProcessError,
       {| jobs := <[job_id := set_status CHUNKING j]> (jobs w);
          blobs := blobs w;
          trace := trace w ++ [EvStatus job_id CHUNKING] |})
  end.
Proof.
  intros Hj Hb. unfold ingest_video.
  rewrite bind_run, (update_status_run _ _ _ _ Hj).
  rewrite bind_run. unfold blob_exists at 1. cbn [blobs]. rewrite Hb.
  rewrite bool_decide_eq_true_2 by eauto. cbn [negb].
  rewrite bind_run. unfold download at 1. cbn [blobs]. rewrite Hb.
  rewrite bind_run, plan_chunks_run.
  destruct (planned env job_id original (probed_duration env original)) as [chunks|];
    [|reflexivity].
  cbn [jobs blobs trace].
  rewrite bind_run. unfold doc_update at 1. cbn [jobs blobs trace].
  rewrite lookup_insert_eq, insert_insert_eq.
  rewrite bind_run. unfold emit at 1. cbn [jobs blobs trace].
  rewrite bind_run, dispatch_run. cbn [jobs blobs trace].
  unfold mret, M_ret, ingest_events. rewrite !length_fmap.
  rewrite <- !app_assoc. reflexivity.
Qed.


Lemma Qlt_bool_iff (a b : Q) : Qlt_bool a b = true ↔ (a < b)%Q.
Proof.
  unfold Qlt_bool. rewrite negb_true_iff. split.
  - intros H. apply Qnot_le_lt. intros Hle%Qle_bool_iff. congruence.
  - intros H. destruct (Qle_bool b a) eqn:E; [|done].
    apply Qle_bool_iff in E. exfalso. by eapply Qlt_not_le.
Qed.

Lemma total_writes_app (job_id : string) (t1 t2 : list Event) :
  total_writes job_id (t1 ++ t2) = total_writes job_id t1 ++ total_writes job_id t2.
Proof. apply omap_app. Qed.

Lemma total_writes_uploads (job_id : string) (paths : list string) :
  total_writes job_id (map EvUpload paths) = [].
Proof. induction paths; cbn; auto. Qed.

Lemma total_writes_tasks (job_id : string) (l : list string) :
  ∀ (f : nat → string → Task) (g : nat → string → bool),
  total_writes job_id (imap (λ i c, EvCreateTask (f i c) (g i c)) l) = [].
Proof.
  induction l as [|x l IH]; intros f g; cbn; auto.
  apply (IH (λ i, f (S i)) (λ i, g (S i))).
Qed.

Lemma ingest_events_app (env : Env) (job_id : string) (chunks : list string) :
  ingest_events env job_id chunks =
  [EvStatus job_id CHUNKING] ++
  map EvUpload (map (chunk_path job_id) chunks) ++
  [EvChunksTotal job_id (Z.of_nat (length chunks))] ++
  imap (λ i c, EvCreateTask (chunk_task env job_id i c)
                 (create_task env (chunk_task env job_id i c))) chunks.
Proof. unfold ingest_events. by rewrite map_map. Qed.

Lemma total_writes_ingest_events (env : Env) (job_id : string) (chunks : list string) :
  total_writes job_id (ingest_events env job_id chunks) = [Z.of_nat (length chunks)].
Proof.
  rewrite ingest_events_app, !total_writes_app, total_writes_uploads.
  rewrite (total_writes_tasks job_id chunks (chunk_task env job_id)
             (λ i c, create_task env (chunk_task env job_id i c))).
  cbn. by rewrite String.eqb_refl.
Qed.

Lemma uploaded_is_Some (job_id : string) (chunks : list (string * bytes)) :
  ∀ (b : gmap string bytes) (p : string),
  is_Some (b !! p) ∨ p ∈ (λ c, chunk_path job_id c.1) <$> chunks →
  is_Some (uploaded job_id chunks b !! p).
Proof.
  unfold uploaded. induction chunks as [|c chunks IH]; intros b p H; cbn [foldl].
  - destruct H as [H|H]; [done|]. by apply elem_of_nil in H.
  - apply IH. cbn [fmap list_fmap] in H.
    destruct (decide (p = chunk_path job_id c.1)) as [->|Hne].
    + left. rewrite lookup_insert_eq. eauto.
    + rewrite lookup_insert_ne by done.
      destruct H as [H|H]; [by left|]. apply elem_of_cons in H as [?|?]; [done|by right].
Qed.

(** The trace of a run of [ingest_video]: past planning it is the uploads,
    then the one write of [chunks_total], then the tasks; a run that stops
    earlier has neither the write nor a task. *)
Lemma ingest_video_trace (env : Env) (job_id : string) (w : World) :
  let r := ingest_video env job_id w in
  ∃ new, trace r.2 = trace w ++ new ∧
    match r.1 with
    | Ok (Dispatched n) =>
        ∃ chunks : list string,
          length chunks = n ∧
          new = [EvStatus job_id CHUNKING] ++
                map (λ c, EvUpload (chunk_path job_id c)) chunks ++
                [EvChunksTotal job_id (Z.of_nat n)] ++
                imap (λ i c, EvCreateTask (chunk_task env job_id i c)
                               (create_task env (chunk_task env job_id i c))) chunks ∧
          total_writes job_id new = [Z.of_nat n] ∧
          chunks_total <$> jobs r.2 !! job_id = Some (Z.of_nat n) ∧
          (∀ c, c ∈ chunks → is_Some (blobs r.2 !! chunk_path job_id c))
    | _ =>
        total_writes job_id new = [] ∧
        filter (λ ev, is_create_task ev = true) new = [] ∧
        chunks_total <$> jobs r.2 !! job_id = chunks_total <$> jobs w !! job_id
    end.
Proof.
  intros r. subst r.
  destruct (jobs w !! job_id) as [j|] eqn:Hj.
  2:{ rewrite (ingest_video_missing_job _ _ _ Hj). exists []. cbn [fst snd].
      rewrite app_nil_r, Hj. split_and!; reflexivity. }
  destruct (blobs w !! ("input/" +:+ job_id +:+ "/original.mp4")) as [original|] eqn:Hb.
  2:{ rewrite (ingest_video_missing_input _ _ _ _ Hj Hb). eexists. cbn [fst snd jobs trace].
      split; [reflexivity|]. rewrite lookup_insert_eq. split_and!; reflexivity. }
  rewrite (ingest_video_run _ _ _ _ _ Hj Hb).
  destruct (planned env job_id original (probed_duration env original)) as [chunks|].
  2:{ eexists. cbn [fst snd jobs trace]. split; [reflexivity|].
      rewrite lookup_insert_eq. split_and!; reflexivity. }
  exists (ingest_events env job_id chunks.*1). cbn [fst snd jobs blobs trace].
  split; [reflexivity|]. exists chunks.*1. rewrite length_fmap.
  split_and!; auto.
  - unfold ingest_events. by rewrite length_fmap.
  - pose proof (total_writes_ingest_events env job_id chunks.*1) as H.
    by rewrite length_fmap in H.
  - by rewrite lookup_insert_eq.
  - intros c Hc. apply uploaded_is_Some. right.
    apply list_elem_of_fmap in Hc as (x & -> & Hx).
    apply list_elem_of_fmap. eauto.
Qed.

Lemma length_generated_files (job_id : string) (segs : list bytes) :
  length (generated_files job_id segs) = length segs.
Proof.
  unfold generated_files.
  rewrite (Permutation_length (merge_sort_Permutation _ _)).
  apply length_imap.
Qed.

(** C5, as the code has it.  When the probe reports a duration strictly
    between 0 and 300 seconds the planner emits the single chunk
    chunk_000.mp4 holding the whole source.  When the probe fails, or the
    duration is outside that range, the planner runs the segment muxer and
    emits one chunk per segment it produced. *)
Theorem short_video_is_one_chunk (env : Env) (job_id : string) (w : World)
    (j : Job) (original : bytes) :
  jobs w !! job_id = Some j →
  blobs w !! ("input/" +:+ job_id +:+ "/original.mp4") = Some original →
  let r := ingest_video env job_id w in
  (∀ d, ffprobe env original = Some d → (0 < d)%Q → (d < 300)%Q →
     r.1 = Ok (Dispatched 1) ∧
     trace r.2 = trace w ++ ingest_events env job_id ["chunk_000.mp4"] ∧
     blobs r.2 !! chunk_path job_id "chunk_000.mp4" = Some original) ∧
  (ffprobe env original = None ∨
   (∃ d, ffprobe env original = Some d ∧ ¬ ((0 < d)%Q ∧ (d < 300)%Q)) →
     match ffmpeg_segment env original with
     | Some segs =>
         r.1 = Ok (Dispatched (length segs)) ∧
         trace r.2 = trace w ++
           ingest_events env job_id
             (map (λ f, clean_name job_id f.1) (generated_files job_id segs))
     | None => r.1 = Raise CalledProcessError
     end).
Proof.
  intros Hj Hb r. subst r. rewrite (ingest_video_run _ _ _ _ _ Hj Hb).
  unfold planned, probed_duration. split.
  - intros d -> H0 H300.
    rewrite (proj2 (Qlt_bool_iff 0 d) H0), (proj2 (Qlt_bool_iff d CHUNK_DURATION) H300).
    cbn [andb fst snd blobs trace length fmap list_fmap uploaded foldl].
    split_and!; auto. apply lookup_insert_eq.
  - intros Hprobe.
    assert (Hcond : Qlt_bool 0 (match ffprobe env original with Some d => d | None => 0%Q end)
                    && Qlt_bool (match ffprobe env original with Some d => d | None => 0%Q end)
                         CHUNK_DURATION = false).
    { destruct Hprobe as [-> | (d & -> & Hd)]; [reflexivity|].
      apply not_true_is_false. intros [H1 H2]%andb_true_iff. apply Hd.
      split; by apply Qlt_bool_iff. }
    rewrite Hcond.
    destruct (ffmpeg_segment env original) as [segs|]; [|reflexivity].
    cbn [fst snd trace]. rewrite length_fmap, length_generated_files.
    split; [reflexivity|]. f_equal. f_equal.
    rewrite <- list_fmap_compose. reflexivity.
Qed.

(** ** Erasure *)

Lemma list_blobs_run (pre : string) (w : World) :
  list_blobs pre w = (Ok (listed pre (blobs w)), w).
Proof. reflexivity. Qed.

Lemma elem_of_listed (pre : string) (b : gmap string bytes) (k : string) :
  k ∈ listed pre b ↔ is_Some (b !! k) ∧ String.prefix pre k = true.
Proof.
  unfold listed. rewrite list_elem_of_filter, list_elem_of_fmap. split.
  - intros [Hp ([k' v] & -> & Hin)]. apply elem_of_map_to_list in Hin. eauto.
  - intros [[v Hv] Hp]. split; [done|]. exists (k, v). split; [done|].
    by apply elem_of_map_to_list.
Qed.

Lemma NoDup_listed (pre : string) (b : gmap string bytes) : NoDup (listed pre b).
Proof. apply NoDup_filter, NoDup_fst_map_to_list. Qed.

Lemma input_output_disjoint (job_id k : string) :
  String.prefix ("input/" +:+ job_id) k = true →
  String.prefix ("output/" +:+ job_id) k = true → False.
Proof.
  change ("input/" +:+ job_id) with (String "i" ("nput/" +:+ job_id)).
  change ("output/" +:+ job_id) with (String "o" ("utput/" +:+ job_id)).
  destruct k as [|c k]; cbn [String.prefix]; [discriminate|].
  destruct (ascii_dec "i" c) as [<-|]; [|discriminate].
  destruct (ascii_dec "o" "i"); discriminate.
Qed.

Lemma for_each_delete_run (l : list string) :
  ∀ w, NoDup l → (∀ k, k ∈ l → is_Some (blobs w !! k)) →
  ∃ b', for_each l blob_delete w
        = (Ok (), {| jobs := jobs w; blobs := b'; trace := trace w ++ map EvDelete l |}) ∧
        ∀ k, b' !! k = if decide (k ∈ l) then None else blobs w !! k.
Proof.
  induction l as [|x l IH]; intros w Hnd Hin.
  - exists (blobs w). cbn. rewrite app_nil_r. split; [by destruct w|].
    intros k. by rewrite decide_False by apply not_elem_of_nil.
  - apply NoDup_cons in Hnd as [Hx Hnd].
    destruct (Hin x) as [v Hv]; [left|].
    cbn [for_each]. rewrite bind_run. unfold blob_delete at 1. rewrite Hv.
    destruct (IH {| jobs := jobs w; blobs := delete x (blobs w);
                    trace := trace w ++ [EvDelete x] |} Hnd) as (b' & Hrun & Hb').
    { intros k Hk. cbn [blobs]. rewrite lookup_delete_ne; [apply Hin; by right|].
      intros ->. done. }
    cbn [jobs blobs trace] in Hrun, Hb'.
    exists b'. rewrite Hrun. cbn [map]. rewrite <- app_assoc. split; [done|].
    intros k. rewrite Hb'.
    destruct (decide (k = x)) as [->|Hne].
    + rewrite (decide_False (P := x ∈ l)) by done.
      rewrite lookup_delete_eq. by rewrite decide_True by left.
    + rewrite lookup_delete_ne by done.
      destruct (decide (k ∈ l)).
      * by rewrite decide_True by (by right).
      * rewrite decide_False; [done|]. intros [?|?]%elem_of_cons; done.
Qed.

(** One erasure on an existing job: every listed object is deleted, then
    the status is written. *)
Lemma delete_job_run (job_id : string) (w : World) (j : Job) :
  jobs w !! job_id = Some j →
  let doomed := listed ("input/" +:+ job_id) (blobs w) ++
                listed ("output/" +:+ job_id) (blobs w) in
  ∃ b1,
    delete_job job_id w =
    (Ok Erased, {| jobs := <[job_id := set_status CANCELLED j]> (jobs w); blobs := b1;
                   trace := (trace w ++ map EvDelete doomed) ++
                            [EvStatus job_id CANCELLED] |}) ∧
    (∀ k, b1 !! k = if decide (k ∈ doomed) then None else blobs w !! k) ∧
    (∀ k, String.prefix ("input/" +:+ job_id) k = true ∨
          String.prefix ("output/" +:+ job_id) k = true → b1 !! k = None).
Proof.
  intros Hj doomed.
  destruct (for_each_delete_run doomed w) as (b1 & Hdel & Hb1).
  { apply NoDup_app. split_and!; try apply NoDup_listed.
    intros k [_ Hi]%elem_of_listed [_ Ho]%elem_of_listed.
    by eapply input_output_disjoint. }
  { intros k [Hk|Hk]%elem_of_app; by apply elem_of_listed in Hk as [? _]. }
  exists b1. split_and!; [|exact Hb1|].
  - unfold delete_job. rewrite bind_run, list_blobs_run, bind_run, list_blobs_run.
    rewrite bind_run. fold doomed. rewrite Hdel.
    rewrite bind_run, (update_status_run _ _ _ j) by done. reflexivity.
  - intros k Hk. rewrite Hb1. destruct (decide (k ∈ doomed)) as [|Hn]; [done|].
    destruct (blobs w !! k) eqn:E; [|done]. exfalso. apply Hn.
    apply elem_of_app. destruct Hk; [left|right]; apply elem_of_listed; eauto.
Qed.

(** C9. On an existing job, erasure succeeds twice in a row; after the first
    call no object under the job's input or output prefix is left, the
    second call deletes nothing and changes no object, and the status is
    CANCELLED after each call. *)
Theorem erasure_is_idempotent (job_id : string) (w : World) (j : Job) :
  jobs w !! job_id = Some j →
  let r1 := delete_job job_id w in
  let r2 := delete_job job_id r1.2 in
  r1.1 = Ok Erased ∧ r2.1 = Ok Erased ∧
  status <$> jobs r1.2 !! job_id = Some CANCELLED ∧
  status <$> jobs r2.2 !! job_id = Some CANCELLED ∧
  (∀ k, String.prefix ("input/" +:+ job_id) k = true ∨
        String.prefix ("output/" +:+ job_id) k = true → blobs r1.2 !! k = None) ∧
  blobs r2.2 = blobs r1.2 ∧
  trace r2.2 = trace r1.2 ++ [EvStatus job_id CANCELLED].
Proof.
  intros Hj.
  destruct (delete_job_run job_id w j Hj) as (b1 & R1 & _ & Hgone).
  assert (Hempty : ∀ pre, pre = "input/" +:+ job_id ∨ pre = "output/" +:+ job_id →
                          listed pre b1 = []).
  { intros pre Hpre. destruct (listed pre b1) as [|k l] eqn:E; [done|].
    assert (Hk : k ∈ listed pre b1) by (rewrite E; left).
    apply elem_of_listed in Hk as [[v Hv] Hp].
    rewrite Hgone in Hv; [done|]. destruct Hpre as [-> | ->]; auto. }
  intros r1 r2. subst r1 r2. rewrite R1. cbn [fst snd].
  match goal with |- context [delete_job job_id ?w1] =>
    destruct (delete_job_run job_id w1 (set_status CANCELLED j)) as (b2 & R2 & Hb2 & _);
      [apply lookup_insert_eq|] end.
  cbn [blobs] in R2, Hb2. rewrite !Hempty in R2, Hb2 by auto.
  rewrite R2. cbn [fst snd jobs blobs trace app map]. rewrite !lookup_insert_eq, app_nil_r.
  split_and!; auto.
  apply map_eq. intros k. rewrite Hb2. by rewrite decide_False by apply not_elem_of_nil.
Qed.

(** [chunks_total] belongs to the planner: no completion call, stitch
    request or erasure changes it. *)
Lemma chunks_total_untouched (env : Env) (job_id : string) (w : World) (j : Job) :
  jobs w !! job_id = Some j →
  (∀ chunk, chunks_total <$> jobs (process_chunk env job_id chunk w).2 !! job_id
            = Some (chunks_total j)) ∧
  chunks_total <$> jobs (stitch_video env job_id w).2 !! job_id = Some (chunks_total j) ∧
  chunks_total <$> jobs (delete_job job_id w).2 !! job_id = Some (chunks_total j).
Proof.
  intros Hj. split_and!.
  - intros chunk.
    destruct (process_chunk_status env job_id chunk w j Hj) as (j' & -> & _ & <-). done.
  - destruct (stitch_video_status env job_id w j Hj) as (j' & -> & _ & <-). done.
  - destruct (delete_job_run job_id w j Hj) as (b1 & -> & _). cbn [snd jobs].
    by rewrite lookup_insert_eq.
Qed.

(** C4, as the code has it.  A run of [ingest_video] that gets past planning
    (the job and the input video exist, the split did not fail) uploads
    every planned chunk, then writes [chunks_total] once, equal to the number
    of planned chunks, then submits one task per chunk, and writes
    [chunks_total] at no other point.  A run that stops earlier does not
    write [chunks_total] and submits no task.  No completion call, stitch
    request or erasure changes [chunks_total] afterwards. *)
Theorem chunks_total_written_before_dispatch (env : Env) (job_id : string) (w : World) :
  (let r := ingest_video env job_id w in
  ∃ new, trace r.2 = trace w ++ new ∧
    match r.1 with
    | Ok (Dispatched n) =>
        ∃ chunks : list string,
          length chunks = n ∧
          new = [EvStatus job_id CHUNKING] ++
                map (λ c, EvUpload (chunk_path job_id c)) chunks ++
                [EvChunksTotal job_id (Z.of_nat n)] ++
                imap (λ i c, EvCreateTask (chunk_task env job_id i c)
                               (create_task env (chunk_task env job_id i c))) chunks ∧
          total_writes job_id new = [Z.of_nat n] ∧
          chunks_total <$> jobs r.2 !! job_id = Some (Z.of_nat n) ∧
          (∀ c, c ∈ chunks → is_Some (blobs r.2 !! chunk_path job_id c))
    | _ =>
        total_writes job_id new = [] ∧
        filter (λ ev, is_create_task ev = true) new = [] ∧
        chunks_total <$> jobs r.2 !! job_id = chunks_total <$> jobs w !! job_id
    end) ∧
  (∀ env' w0 j0, jobs w0 !! job_id = Some j0 →
     (∀ chunk, chunks_total <$> jobs (process_chunk env' job_id chunk w0).2 !! job_id
               = Some (chunks_total j0)) ∧
     chunks_total <$> jobs (stitch_video env' job_id w0).2 !! job_id
       = Some (chunks_total j0) ∧
     chunks_total <$> jobs (delete_job job_id w0).2 !! job_id
       = Some (chunks_total j0)).
Proof.
  split.
  - apply ingest_video_trace.
  - intros env' w0 j0. apply chunks_total_untouched.
Qed.

End CoreFacts.

(** ** The order of names *)

Section Order.
Import Core.

Lemma ascii_compare_refl (c : ascii) : Ascii.compare c c = Eq.
Proof. unfold Ascii.compare. apply N.compare_refl. Qed.

Lemma ascii_compare_lt_trans (a b c : ascii) :
  Ascii.compare a b = Lt → Ascii.compare b c = Lt → Ascii.compare a c = Lt.
Proof.
  unfold Ascii.compare. rewrite !N.compare_lt_iff. apply N.lt_trans.
Qed.

Lemma string_compare_lt_trans (a : string) :
  ∀ b c, String.compare a b = Lt → String.compare b c = Lt → String.compare a c = Lt.
Proof.
  induction a as [|x a IH]; intros [|y b] [|z c]; cbn; try done.
  destruct (Ascii.compare x y) eqn:Hxy; try done;
    destruct (Ascii.compare y z) eqn:Hyz; try done; intros H1 H2.
  - apply Ascii.compare_eq_iff in Hxy, Hyz. subst.
    rewrite ascii_compare_refl. eauto.
  - apply Ascii.compare_eq_iff in Hxy. subst. by rewrite Hyz.
  - apply Ascii.compare_eq_iff in Hyz. subst. by rewrite Hxy.
  - by rewrite (ascii_compare_lt_trans _ _ _ Hxy Hyz).
Qed.

Lemma string_compare_refl (a : string) : String.compare a a = Eq.
Proof. induction a as [|x a IH]; cbn; [done|]. by rewrite ascii_compare_refl. Qed.

Global Instance str_lt_trans : Transitive str_lt.
Proof.
  intros a b c. unfold str_lt, String.ltb.
  destruct (String.compare a b) eqn:H1; try done.
  destruct (String.compare b c) eqn:H2; try done.
  by rewrite (string_compare_lt_trans _ _ _ H1 H2).
Qed.

Lemma str_lt_irrefl (a : string) : ¬ str_lt a a.
Proof. unfold str_lt, String.ltb. by rewrite string_compare_refl. Qed.

Lemma str_lt_le (a b : string) : str_lt a b → str_le a b.
Proof.
  unfold str_lt, str_le, String.ltb, String.leb.
  by destruct (String.compare a b).
Qed.

Global Instance str_le_total : Total str_le.
Proof. intros a b. apply String.leb_total. Qed.

Global Instance str_le_antisym : AntiSymm (=) str_le.
Proof. intros a b. apply String.leb_antisym. Qed.

Global Instance str_le_trans : Transitive str_le.
Proof.
  intros a b c. unfold str_le, String.leb.
  destruct (String.compare a b) eqn:H1; try done;
    destruct (String.compare b c) eqn:H2; try done; intros _ _.
  - apply String.compare_eq_iff in H1, H2. subst. by rewrite string_compare_refl.
  - apply String.compare_eq_iff in H1. subst. by rewrite H2.
  - apply String.compare_eq_iff in H2. subst. by rewrite H1.
  - by rewrite (string_compare_lt_trans _ _ _ H1 H2).
Qed.

Lemma string_compare_app (p a b : string) :
  String.compare (p +:+ a) (p +:+ b) = String.compare a b.
Proof.
  induction p as [|x p IH]; [done|].
  change (String x p +:+ a) with (String x (p +:+ a)).
  change (String x p +:+ b) with (String x (p +:+ b)).
  cbn [String.compare]. by rewrite ascii_compare_refl.
Qed.

Lemma str_lt_app (p a b : string) : str_lt a b → str_lt (p +:+ a) (p +:+ b).
Proof. unfold str_lt, String.ltb. by rewrite string_compare_app. Qed.

Lemma StronglySorted_lt_le (l : list string) :
  StronglySorted str_lt l → StronglySorted str_le l.
Proof.
  induction 1 as [|x l Hs IH Hx]; constructor; [done|].
  eapply Forall_impl; [exact Hx|]. intros y. apply str_lt_le.
Qed.

Lemma StronglySorted_lt_NoDup (l : list string) :
  StronglySorted str_lt l → NoDup l.
Proof.
  induction 1 as [|x l Hs IH Hx]; constructor; [|done].
  intros Hin. rewrite Forall_forall in Hx. by apply (str_lt_irrefl x), Hx.
Qed.

Lemma chunk_names_ascending_1000 : Sorted str_lt (chunk_name <$> seq 0 1000).
Proof. apply (bool_decide_unpack _). vm_compute. reflexivity. Qed.

Lemma chunk_names_ascending (n : nat) :
  n ≤ 1000 → StronglySorted str_lt (chunk_name <$> seq 0 n).
Proof.
  intros Hn.
  pose proof chunk_names_ascending_1000 as H.
  apply (Sorted_StronglySorted _) in H.
  replace 1000 with (n + (1000 - n)) in H by lia.
  rewrite seq_app, fmap_app in H. by apply StronglySorted_app_1_l in H.
Qed.

End Order.

(** ** Paths and names *)

Section Strings.
Import Core.

Lemma app_cons (x : ascii) (a b : string) : String x a +:+ b = String x (a +:+ b).
Proof. reflexivity. Qed.

Lemma app_assoc_str (a b c : string) : (a +:+ b) +:+ c = a +:+ b +:+ c.
Proof. induction a as [|x a IH]; [done|]. by rewrite !app_cons, IH. Qed.


Lemma prefix_app (p x : string) : String.prefix p (p +:+ x) = true.
Proof.
  induction p as [|c p IH]; [by destruct x|].
  rewrite app_cons. cbn [String.prefix]. by destruct (ascii_dec c c).
Qed.

Lemma str_in_cons (sub : string) (c : ascii) (s : string) :
  str_in sub (String c s) = String.prefix sub (String c s) || str_in sub s.
Proof. reflexivity. Qed.

Lemma str_in_prefix (sub s : string) :
  String.prefix sub s = true → str_in sub s = true.
Proof. intros H. destruct s; cbn [str_in]; by rewrite H. Qed.

Lemma str_in_app (sub a b : string) : str_in sub (a +:+ sub +:+ b) = true.
Proof.
  induction a as [|c a IH].
  - change ("" +:+ sub +:+ b) with (sub +:+ b). apply str_in_prefix, prefix_app.
  - rewrite app_cons, str_in_cons, IH. apply orb_true_r.
Qed.






End Strings.

(** ** Stitching *)

Section Stitch.
Import Policy Core.


Lemma basename_app (a c : string) :
  str_in "/" c = false → basename (a +:+ "/" +:+ c) = c.
Proof.
  intros Hc. induction a as [|x a IH].
  - change ("" +:+ "/" +:+ c) with (String "/" c). cbn [basename]. by rewrite Hc.
  - rewrite app_cons. cbn [basename]. by rewrite str_in_app.
Qed.

Lemma chunk_names_no_slash_1000 :
  Forall (λ i, str_in "/" (chunk_name i) = false) (seq 0 1000).
Proof. apply (bool_decide_unpack _). vm_compute. reflexivity. Qed.

Lemma chunk_name_no_slash (i : nat) : i < 1000 → str_in "/" (chunk_name i) = false.
Proof.
  intros Hi. pose proof chunk_names_no_slash_1000 as H.
  rewrite Forall_forall in H. apply H, elem_of_seq. lia.
Qed.

Lemma download_chunks_run (names : list string) (w : World) :
  (∀ x, x ∈ names → is_Some (blobs w !! x)) →
  ∀ fs lf,
  download_chunks names fs lf w =
  (Ok (foldl (λ fs x, <[local_file x := default "" (blobs w !! x)]> fs) fs names,
       lf ++ (local_file <$> names)), w).
Proof.
  induction names as [|x names IH]; intros Hin fs lf.
  - cbn. by rewrite app_nil_r.
  - cbn [download_chunks]. rewrite bind_run. unfold download at 1.
    destruct (Hin x) as [v Hv]; [left|]. rewrite Hv.
    rewrite IH by (intros y Hy; apply Hin; by right).
    cbn [foldl fmap list_fmap].
    rewrite Hv, <- app_assoc. reflexivity.
Qed.

Lemma foldl_insert_notin {A} (kf : A → string) (vf : A → bytes) (l : list A) :
  ∀ (fs : gmap string bytes) (k : string),
  k ∉ kf <$> l → foldl (λ fs x, <[kf x := vf x]> fs) fs l !! k = fs !! k.
Proof.
  induction l as [|y l IH]; intros fs k Hk; [done|].
  cbn [foldl]. cbn [fmap list_fmap] in Hk. apply not_elem_of_cons in Hk as [Hne Hk].
  rewrite IH by done. by rewrite lookup_insert_ne.
Qed.






End Stitch.

(** ** The names the planner emits *)

Section Planner.
Import Policy Core.

Lemma replace_skip (old new a rest : string) :
  replace_from old new (String.length a) (a +:+ rest) = replace_from old new 0 rest.
Proof.
  induction a as [|c a IH]; [done|]. rewrite app_cons. cbn. apply IH.
Qed.

Lemma replace_absent (old new s : string) :
  str_in old s = false → replace_from old new 0 s = s.
Proof.
  induction s as [|c s IH]; [done|].
  rewrite str_in_cons. intros [Hp Hs]%orb_false_iff.
  cbn [replace_from]. rewrite Hp. by rewrite IH.
Qed.

Lemma replace_leading (old rest : string) :
  old ≠ "" → str_in old rest = false → replace old "" (old +:+ rest) = rest.
Proof.
  intros Hne Hrest. destruct old as [|c old]; [done|].
  unfold replace. rewrite app_cons. cbn [replace_from].
  rewrite <- app_cons, prefix_app.
  change ("" +:+ ?x) with x.
  cbn [String.length]. rewrite Nat.sub_0_r || replace (S (String.length old) - 1) with (String.length old) by lia.
  rewrite replace_skip. by apply replace_absent.
Qed.


Lemma prefix_app_in (a b t : string) :
  String.prefix (a +:+ b) t = true → str_in b t = true.
Proof.
  revert t. induction a as [|x a IH]; intros t.
  - apply str_in_prefix.
  - rewrite app_cons. destruct t as [|y t]; cbn [String.prefix]; [done|].
    destruct (ascii_dec x y); [|done]. intros H%IH.
    rewrite str_in_cons, H. apply orb_true_r.
Qed.

Lemma str_in_app_in (a b s : string) :
  str_in (a +:+ b) s = true → str_in b s = true.
Proof.
  induction s as [|c s IH].
  - cbn [str_in]. rewrite orb_false_r. apply prefix_app_in.
  - rewrite !str_in_cons. intros [H|H]%orb_true_iff.
    + apply prefix_app_in in H. by rewrite str_in_cons in H.
    + rewrite (IH H). apply orb_true_r.
Qed.

Lemma prefix_head_ne (c x : ascii) (a t : string) :
  c ≠ x → String.prefix (String c a) (String x t) = false.
Proof. intros Hne. cbn. by destruct (ascii_dec c x). Qed.

Lemma prefix_head_eq (c : ascii) (a t : string) :
  String.prefix (String c a) (String c t) = String.prefix a t.
Proof. cbn. by destruct (ascii_dec c c). Qed.

Lemma chunk_suffix_no_underscore_1000 :
  Forall (λ i, str_in "_" (chunk_suffix i) = false) (seq 0 1000).
Proof. apply (bool_decide_unpack _). vm_compute. reflexivity. Qed.

Ltac not_uuid_char H :=
  let E := fresh in intros E; rewrite E in H; vm_compute in H; discriminate H.

Lemma job_prefix_absent (job_id : string) (i : nat) :
  uuid_like job_id = true → i < 1000 →
  str_in (job_id +:+ "_") (chunk_name i) = false.
Proof.
  intros Hjob Hi.
  assert (Hsuf : str_in (job_id +:+ "_") (chunk_suffix i) = false).
  { apply not_true_is_false. intros H%str_in_app_in.
    pose proof chunk_suffix_no_underscore_1000 as HF. rewrite Forall_forall in HF.
    rewrite HF in H; [done|]. apply elem_of_seq. lia. }
  destruct job_id as [|c0 job]; [done|].
  cbn [uuid_like uuid_like_tail] in Hjob. apply andb_true_iff in Hjob as [Hc0 Hjob].
  change (chunk_name i) with
    (String "c" (String "h" (String "u" (String "n" (String "k" (String "_" (chunk_suffix i))))))).
  rewrite !str_in_cons, Hsuf, app_cons.
  rewrite (prefix_head_ne c0 "h"), (prefix_head_ne c0 "u"), (prefix_head_ne c0 "n"),
    (prefix_head_ne c0 "k"), (prefix_head_ne c0 "_") by not_uuid_char Hc0.
  rewrite !orb_false_r.
  destruct (ascii_dec c0 "c") as [->|Hne]; [|by apply prefix_head_ne].
  rewrite prefix_head_eq.
  destruct job as [|c1 job].
  - by apply prefix_head_ne.
  - cbn [uuid_like_tail] in Hjob. apply andb_true_iff in Hjob as [Hc1 _].
    rewrite app_cons. apply prefix_head_ne. not_uuid_char Hc1.
Qed.


Lemma str_in_slash_uuid (a b : string) :
  uuid_like_tail a = true → str_in "/" (a +:+ b) = str_in "/" b.
Proof.
  induction a as [|x a IH]; [done|].
  cbn [uuid_like_tail]. intros [Hx Ha]%andb_true_iff.
  rewrite app_cons, str_in_cons, (IH Ha), prefix_head_ne; [done|].
  intros E. rewrite <- E in Hx. vm_compute in Hx. discriminate Hx.
Qed.

Lemma segment_path_split (job_id : string) (i : nat) :
  segment_path job_id i = "/tmp" +:+ "/" +:+ (job_id +:+ "_") +:+ chunk_name i.
Proof. unfold segment_path, chunk_name. by rewrite app_assoc_str. Qed.

Lemma clean_name_segment (job_id : string) (i : nat) :
  uuid_like job_id = true → i < 1000 →
  clean_name job_id (segment_path job_id i) = chunk_name i.
Proof.
  intros Hjob Hi. unfold clean_name. rewrite segment_path_split.
  assert (Htail : uuid_like_tail job_id = true) by (by destruct job_id).
  rewrite basename_app.
  - apply replace_leading.
    + by destruct job_id.
    + by apply job_prefix_absent.
  - rewrite app_assoc_str, str_in_slash_uuid by done.
    change ("_" +:+ chunk_name i) with (String "_" (chunk_name i)).
    rewrite str_in_cons, chunk_name_no_slash by done.
    by rewrite prefix_head_ne.
Qed.

Global Instance file_le_trans : Transitive file_le.
Proof. intros a b c. unfold file_le. apply str_le_trans. Qed.

Global Instance file_le_total : Total file_le.
Proof. intros a b. unfold file_le. apply str_le_total. Qed.

Lemma StronglySorted_by_path (l : list (string * bytes)) :
  StronglySorted str_le l.*1 → StronglySorted file_le l.
Proof.
  induction l as [|x l IH]; [constructor|].
  cbn [fmap list_fmap]. intros [Hs Hx]%StronglySorted_inv. constructor; [by apply IH|].
  rewrite Forall_fmap in Hx. exact Hx.
Qed.

Lemma segment_files_paths (job_id : string) (segs : list bytes) :
  (imap (λ i seg, (segment_path job_id i, seg)) segs).*1
  = (λ c, "/tmp" +:+ "/" +:+ (job_id +:+ "_") +:+ c) <$> (chunk_name <$> seq 0 (length segs)).
Proof.
  rewrite fmap_imap.
  rewrite (imap_ext _ (λ i _, segment_path job_id i)) by done.
  rewrite imap_seq_0, <- list_fmap_compose.
  apply list_fmap_ext. intros _ i _. apply segment_path_split.
Qed.

Lemma NoDup_fst_functional {A B} (l : list (A * B)) (x : A) (y1 y2 : B) :
  NoDup l.*1 → (x, y1) ∈ l → (x, y2) ∈ l → y1 = y2.
Proof.
  induction l as [|[a b] l IH]; [by intros _ ?%elem_of_nil|].
  cbn [fmap list_fmap fst]. intros [Ha Hnd]%NoDup_cons.
  intros [E1|H1]%elem_of_cons [E2|H2]%elem_of_cons.
  - congruence.
  - injection E1 as -> ->. exfalso. apply Ha.
    apply list_elem_of_fmap. by exists (a, y2).
  - injection E2 as -> ->. exfalso. apply Ha.
    apply list_elem_of_fmap. by exists (a, y1).
  - by apply IH.
Qed.

(** Within a thousand segments the muxer's files are already in the order
    [sorted] puts them in. *)
Lemma generated_files_in_order (job_id : string) (segs : list bytes) :
  length segs ≤ 1000 →
  generated_files job_id segs = imap (λ i seg, (segment_path job_id i, seg)) segs.
Proof.
  intros Hn. unfold generated_files.
  set (files := imap (λ i seg, (segment_path job_id i, seg)) segs).
  assert (Hstrict : StronglySorted str_lt files.*1).
  { subst files. rewrite segment_files_paths.
    apply (StronglySorted_fmap _ str_lt str_lt); [|by apply chunk_names_ascending].
    intros a b Hab. rewrite <- !app_assoc_str. by apply str_lt_app. }
  apply (StronglySorted_unique_strong file_le).
  - intros [p1 b1] [p2 b2] H1 H2 Hle1 Hle2.
    assert (p1 = p2) as <- by (by apply (anti_symm str_le)).
    f_equal.
    pose proof (StronglySorted_lt_NoDup _ Hstrict) as Hnd.
    apply (NoDup_fst_functional files p1 b1 b2 Hnd); [|exact H2].
    by rewrite <- (merge_sort_Permutation file_le files).
  - apply StronglySorted_merge_sort; apply _.
  - apply StronglySorted_by_path. by apply StronglySorted_lt_le.
  - apply merge_sort_Permutation.
Qed.

(** For a job id as the gateway makes them and at most a thousand segments,
    the planner emits chunk_000.mp4, chunk_001.mp4, ... in ascending order. *)
Lemma planner_emits_chunk_names (job_id : string) (segs : list bytes) :
  uuid_like job_id = true → length segs ≤ 1000 →
  map (λ f, clean_name job_id f.1) (generated_files job_id segs)
  = chunk_name <$> seq 0 (length segs).
Proof.
  intros Hjob Hn. rewrite generated_files_in_order by done.
  change (map ?g ?l) with (g <$> l).
  rewrite fmap_imap.
  rewrite (imap_ext _ (λ i _, clean_name job_id (segment_path job_id i))) by done.
  rewrite imap_seq_0. apply list_fmap_ext.
  intros k i Hk. apply clean_name_segment; [done|].
  apply lookup_seq in Hk as [-> Hk]. lia.
Qed.

Lemma planned_names (env : Env) (job_id : string) (original : bytes) (d : Q)
    (chunks : list (string * bytes)) :
  planned env job_id original d = Some chunks →
  uuid_like job_id = true → length chunks ≤ 1000 →
  chunks.*1 = chunk_name <$> seq 0 (length chunks).
Proof.
  unfold planned. destruct (Qlt_bool 0 d && Qlt_bool d CHUNK_DURATION).
  - by intros [= <-] _ _.
  - destruct (ffmpeg_segment env original) as [segs|]; [|done].
    intros [= <-] Hjob. rewrite length_fmap, length_generated_files. intros Hn.
    rewrite <- list_fmap_compose.
    by rewrite <- (planner_emits_chunk_names job_id segs Hjob Hn).
Qed.

End Planner.

(** ** The claims on concrete runs *)

Section Runs.
Import Policy Core.
Import Scenario.

Lemma env_ok_captures (b : bytes) : is_Some (video_capture env_ok b).
Proof. cbn. eauto. Qed.

(** The chunks of the scenario are all in the bucket. *)
Lemma three_chunks_readable (j : Job) (c : string) :
  c ∈ arrivals_with_duplicate →
  is_Some (chunk_input env_ok (world_with j three_chunks) "j1" c).
Proof.
  revert c. apply Forall_forall.
  repeat (constructor; [by eexists|]). constructor.
Qed.

Lemma stitch_trigger_at_or_above_total_witness :
  let w := world_with (job_with PROCESSING 3 0) three_chunks in
  ∃ new,
    trace (process_chunks env_ok "j1" arrivals_with_duplicate w).2 = trace w ++ new ∧
    observed "j1" new = [1; 2; 3; 4]%Z ∧
    hits 3 (observed "j1" new) = 1 ∧
    stitch_triggers "j1" new = 2.
Proof.
  intros w.
  destruct (stitch_trigger_at_or_above_total env_ok "j1" arrivals_with_duplicate w
              (job_with PROCESSING 3 0) env_ok_captures (three_chunks_readable _)
              eq_refl eq_refl)
    as (new & Htr & Hobs & _ & Hin & _).
  exists new. split; [exact Htr|]. split; [exact Hobs|].
  destruct Hin as [Hhit Htrig].
  { split; [reflexivity | discriminate]. }
  split; [exact Hhit|]. apply Nat2Z.inj. exact Htrig.
Defined.

(** C1 fails as stated: the redelivered completion observes 2, not the total
    1, and issues the stitch request a second time. *)
Lemma duplicate_completion_retriggers_stitch :
  let w := world_with (job_with PROCESSING 1 0) one_chunk in
  trace (process_chunks env_ok "j1" redelivered w).2 =
    [EvStatus "j1" PROCESSING; EvUpload "output/j1/chunk_000.mp4";
     EvChunksCompleted "j1" 1;
     EvStitchTrigger "http://orchestrator/internal/stitch" "j1";
     EvStatus "j1" PROCESSING; EvUpload "output/j1/chunk_000.mp4";
     EvChunksCompleted "j1" 2;
     EvStitchTrigger "http://orchestrator/internal/stitch" "j1"] ∧
  stitch_triggers "j1" (trace (process_chunks env_ok "j1" redelivered w).2) = 2.
Proof. vm_compute. split; reflexivity. Qed.

Lemma completed_counts_every_call_witness :
  let w := world_with (job_with PROCESSING 3 0) three_chunks in
  ∃ j', jobs (process_chunks env_ok "j1" arrivals_with_duplicate w).2 !! "j1" = Some j' ∧
        chunks_total j' = 3%Z ∧ chunks_completed j' = 4%Z.
Proof.
  intros w.
  destruct (completed_counts_every_call env_ok "j1" arrivals_with_duplicate w
              (job_with PROCESSING 3 0) env_ok_captures (three_chunks_readable _)
              eq_refl)
    as (j' & Hj' & Ht & Hc & _ & _).
  exists j'. split; [exact Hj'|]. split; [exact Ht | exact Hc].
Defined.

(** C3 fails as stated: after the redelivery the counter is 2 and the total
    is 1. *)
Lemma duplicate_completion_exceeds_total :
  let w := world_with (job_with PROCESSING 1 0) one_chunk in
  (λ j, (chunks_completed j, chunks_total j)) <$>
    jobs (process_chunks env_ok "j1" redelivered w).2 !! "j1" = Some (2%Z, 1%Z).
Proof. vm_compute. reflexivity. Qed.

Lemma status_writes_are_unguarded_witness :
  (∃ j', jobs (process_chunk env_ok "j1" "chunk_000.mp4" cancelled_world).2 !! "j1"
         = Some j' ∧ status j' = PROCESSING) ∧
  (∃ j', jobs (stitch_video env_ok "j1" cancelled_world).2 !! "j1" = Some j' ∧
         status j' = if is_ok (stitch_video env_ok "j1" cancelled_world).1
                     then COMPLETED else STITCHING).
Proof.
  destruct (status_writes_are_unguarded env_ok "j1" cancelled_world
              (job_with CANCELLED 1 1) eq_refl) as [Hchunk Hstitch].
  split; [exact (Hchunk "chunk_000.mp4") | exact Hstitch].
Defined.

(** C2 fails as stated: a late completion moves a cancelled job to
    PROCESSING, and a stitch request moves it to COMPLETED. *)
Lemma late_signals_revive_cancelled_job :
  terminal (status (job_with CANCELLED 1 1)) = true ∧
  status <$> jobs (process_chunk env_ok "j1" "chunk_000.mp4" cancelled_world).2 !! "j1"
    = Some PROCESSING ∧
  status <$> jobs (stitch_video env_ok "j1" cancelled_world).2 !! "j1"
    = Some COMPLETED.
Proof. vm_compute. split_and!; reflexivity. Qed.

Lemma missing_chunk_raises_cv_error_witness :
  let w := world_with (job_with PROCESSING 1 0) ∅ in
  let r := process_chunk env_ok "j1" "chunk_000.mp4" w in
  r.1 = Raise CvError ∧
  blobs r.2 = blobs w ∧
  jobs r.2 !! "j1" = Some (set_status PROCESSING (job_with PROCESSING 1 0)) ∧
  trace r.2 = trace w ++ [EvStatus "j1" PROCESSING].
Proof.
  exact (missing_chunk_raises_cv_error env_ok "j1" "chunk_000.mp4"
           (world_with (job_with PROCESSING 1 0) ∅) (job_with PROCESSING 1 0)
           eq_refl eq_refl eq_refl).
Defined.

Lemma erasure_is_idempotent_witness :
  let r1 := delete_job "j1" cancelled_world in
  let r2 := delete_job "j1" r1.2 in
  r1.1 = Ok Erased ∧ r2.1 = Ok Erased ∧
  status <$> jobs r2.2 !! "j1" = Some CANCELLED ∧
  blobs r2.2 = blobs r1.2.
Proof.
  destruct (erasure_is_idempotent "j1" cancelled_world (job_with CANCELLED 1 1) eq_refl)
    as (H1 & H2 & _ & Hs & _ & Hb & _).
  split; [exact H1|]. split; [exact H2|]. split; [exact Hs | exact Hb].
Defined.

(** C4 fails as stated: a run that does not find the input video never
    writes [chunks_total]. *)
Lemma failed_ingest_writes_no_chunks_total :
  let w := world_with (new_job None "clip.mp4") ∅ in
  let r := ingest_video env_ok "j1" w in
  r.1 = Ok IngestError ∧
  trace r.2 = [EvStatus "j1" CHUNKING; EvStatus "j1" FAILED] ∧
  total_writes "j1" (trace r.2) = [].
Proof. vm_compute. split_and!; reflexivity. Qed.

Lemma chunks_total_written_before_dispatch_witness :
  let r := ingest_video env_ok "j1" (queued_world "video-700s") in
  r.1 = Ok (Dispatched 3) ∧
  total_writes "j1" (trace r.2) = [3%Z] ∧
  chunks_total <$> jobs (process_chunk env_ok "j1" "chunk_000.mp4" r.2).2 !! "j1"
    = Some 3%Z.
Proof.
  intros r.
  assert (Hr : r.1 = Ok (Dispatched 3)) by (vm_compute; reflexivity).
  destruct (chunks_total_written_before_dispatch env_ok "j1" (queued_world "video-700s"))
    as [Hrun Hkeep].
  cbv zeta in Hrun. fold r in Hrun. destruct Hrun as (new & Htr & Hnew).
  rewrite Hr in Hnew. destruct Hnew as (chunks & _ & _ & Hw & _ & _).
  split; [exact Hr|]. split.
  - rewrite Htr. exact Hw.
  - assert (Hj : jobs r.2 !! "j1"
                 = Some (set_chunks_total 3 (set_status CHUNKING (new_job None "clip.mp4"))))
      by (vm_compute; reflexivity).
    destruct (Hkeep env_ok r.2 _ Hj) as (Hchunk & _ & _).
    exact (Hchunk "chunk_000.mp4").
Defined.

Lemma short_video_is_one_chunk_witness :
  let r := ingest_video env_ok "j1" (queued_world "video-120s") in
  r.1 = Ok (Dispatched 1) ∧
  blobs r.2 !! "input/j1/chunk_000.mp4" = Some "video-120s".
Proof.
  intros r.
  destruct (short_video_is_one_chunk env_ok "j1" (queued_world "video-120s")
              (new_job None "clip.mp4") "video-120s" eq_refl eq_refl) as [Hshort _].
  destruct (Hshort 120%Q eq_refl eq_refl eq_refl) as (Hr & _ & Hb).
  split; [exact Hr | exact Hb].
Defined.

(** C5 fails as stated: when the probe fails the planner splits, and emits
    as many chunks as the muxer cut. *)
Lemma probe_failure_takes_the_split_path :
  let r := ingest_video env_ok "j1" (queued_world "unreadable-header") in
  ffprobe env_ok "unreadable-header" = None ∧
  r.1 = Ok (Dispatched 3) ∧
  trace r.2 = ingest_events env_ok "j1"
                ["chunk_000.mp4"; "chunk_001.mp4"; "chunk_002.mp4"].
Proof. vm_compute. split_and!; reflexivity. Qed.


End Runs.

(** * Further properties *)

(** ** The resolver, case by case *)

Section PolicyExtras.
Import Policy PolicyTable.

Lemma apply_overrides_merged (profile : string) (o : gmap string pyval) (c : PrivacyConfig) :
  apply_overrides profile o c =
  {| target_faces := target_faces c;
     target_plates := target_plates c;
     target_logos := target_logos c || truthy (dict_get o "target_logos" VNone);
     target_text := target_text c || truthy (dict_get o "target_text" VNone);
     mode := if negb (String.eqb profile "HIPAA_SAFE_HARBOR")
             then default (mode c) (requested_mode o) else mode c;
     confidence_threshold := confidence_threshold c;
     enable_heuristics := enable_heuristics c |}.
Proof.
  unfold apply_overrides, requested_mode. destruct c as [f p l t m q h]. cbn.
  destruct (truthy (dict_get o "target_logos" VNone));
    destruct (truthy (dict_get o "target_text" VNone));
    destruct (negb (String.eqb profile "HIPAA_SAFE_HARBOR"));
    destruct (o !! "mode") as [v|]; try destruct (AnonymizeMode_of v);
    cbn; rewrite ?orb_true_r, ?orb_false_r; reflexivity.
Qed.

Lemma resolver_merge (profile : string) (o : gmap string pyval) :
  threshold_usable o →
  get_config_for_profile profile (Some o) = Ok (merged_config profile o).
Proof.
  intros Hu. unfold get_config_for_profile, apply_mandates, merged_config, mandates.
  destruct (String.eqb profile "GDPR") eqn:E1;
    [|destruct (String.eqb profile "HIPAA_SAFE_HARBOR") eqn:E2;
      [|destruct (String.eqb profile "CCPA") eqn:E3]];
    rewrite ?(py_max_usable _ _ Hu), apply_overrides_merged; cbn.
  - apply String.eqb_eq in E1. subst. reflexivity.
  - rewrite E2. reflexivity.
  - rewrite E2. reflexivity.
  - rewrite E2. reflexivity.
Qed.


(** X1. Whenever the threshold entry of the options is absent or a number, the
    resolver returns, and what it returns is the closed form
    [merged_config]: faces, plates and heuristics on; logos and text on when
    the profile mandates them or the option is truthy; the forced mode, else
    the requested one, else blur; the raised floor, else 0.4. *)
Theorem resolver_is_table_merge (profile : string) (o : gmap string pyval) :
  threshold_usable o →
  get_config_for_profile profile (Some o) = Ok (merged_config profile o).
Proof. apply resolver_merge. Qed.

(** X2. For a profile name other than GDPR, HIPAA_SAFE_HARBOR and CCPA the
    resolver never raises and never reads the threshold entry: the threshold
    is 0.4 whatever the options hold. *)
Theorem resolver_without_profile (profile : string) (o : gmap string pyval) :
  profile ≠ "GDPR" → profile ≠ "HIPAA_SAFE_HARBOR" → profile ≠ "CCPA" →
  get_config_for_profile profile (Some o)
  = Ok {| target_faces := true; target_plates := true;
          target_logos := truthy (dict_get o "target_logos" VNone);
          target_text := truthy (dict_get o "target_text" VNone);
          mode := default BLUR (requested_mode o);
          confidence_threshold := 0.4%Q;
          enable_heuristics := true |}.
Proof.
  intros H1%String.eqb_neq H2%String.eqb_neq H3%String.eqb_neq.
  unfold get_config_for_profile, apply_mandates. rewrite H1, H2, H3.
  rewrite apply_overrides_merged, H2. reflexivity.
Qed.

Lemma resolver_without_profile_witness :
  get_config_for_profile "NONE"
    (Some {[ "confidence_threshold" := VStr "high"; "target_logos" := VNum 1%Q ]})
  = Ok {| target_faces := true; target_plates := true; target_logos := true;
          target_text := false; mode := BLUR; confidence_threshold := 0.4%Q;
          enable_heuristics := true |}.
Proof.
  assert (H1 : "NONE" ≠ "GDPR") by discriminate.
  assert (H2 : "NONE" ≠ "HIPAA_SAFE_HARBOR") by discriminate.
  assert (H3 : "NONE" ≠ "CCPA") by discriminate.
  exact (resolver_without_profile "NONE"
           {[ "confidence_threshold" := VStr "high"; "target_logos" := VNum 1%Q ]}
           H1 H2 H3).
Defined.

Lemma resolver_is_table_merge_witness :
  get_config_for_profile "CCPA"
    (Some {[ "target_text" := VStr "yes"; "mode" := VStr "pixelate";
             "confidence_threshold" := VNum 0.8%Q ]})
  = Ok {| target_faces := true; target_plates := true; target_logos := false;
          target_text := true; mode := PIXELATE; confidence_threshold := 0.8%Q;
          enable_heuristics := true |}.
Proof.
  assert (Hu : threshold_usable
            ({[ "target_text" := VStr "yes"; "mode" := VStr "pixelate";
                "confidence_threshold" := VNum 0.8%Q ]} : gmap string pyval))
    by (vm_compute; eauto).
  exact (resolver_is_table_merge "CCPA" _ Hu).
Defined.

(** X3. Under a profile with a floor, a threshold entry that is present and
    does not order against a float (None, a string, a list, a dict) makes the
    resolver raise TypeError. *)
Theorem resolver_rejects_unordered_threshold (profile : string)
    (o : gmap string pyval) (v : pyval) :
  is_Some (m_floor (mandates profile)) →
  o !! "confidence_threshold" = Some v →
  as_number v = None →
  get_config_for_profile profile (Some o) = Raise TypeError.
Proof.
  intros Hfloor Hv Hnum.
  unfold get_config_for_profile, apply_mandates, dict_get, py_max.
  unfold mandates in Hfloor. rewrite Hv, Hnum.
  destruct (String.eqb profile "GDPR"); [reflexivity|].
  destruct (String.eqb profile "HIPAA_SAFE_HARBOR"); [reflexivity|].
  destruct (String.eqb profile "CCPA"); [reflexivity|].
  by destruct Hfloor.
Qed.

Lemma resolver_rejects_unordered_threshold_witness :
  get_config_for_profile "GDPR" (Some {[ "confidence_threshold" := VNone ]})
  = Raise TypeError.
Proof.
  apply (resolver_rejects_unordered_threshold "GDPR"
           {[ "confidence_threshold" := VNone ]} VNone);
    [vm_compute; eauto | reflexivity | reflexivity].
Defined.

(** X4. The resolver reads four keys of the options.  Setting any other key,
    [target_faces] and [target_plates] included, changes neither the
    configuration returned nor the exception raised. *)
Theorem resolver_ignores_other_keys (profile : string) (o : gmap string pyval)
    (k : string) (v : pyval) :
  recognized_key k = false →
  get_config_for_profile profile (Some (<[k := v]> o))
  = get_config_for_profile profile (Some o).
Proof.
  unfold recognized_key. rewrite !orb_false_iff.
  intros [[[H1%String.eqb_neq H2%String.eqb_neq] H3%String.eqb_neq] H4%String.eqb_neq].
  unfold get_config_for_profile, apply_mandates, apply_overrides, dict_get.
  rewrite !(lookup_insert_ne o k) by done. reflexivity.
Qed.

Lemma resolver_ignores_other_keys_witness :
  get_config_for_profile "GDPR" (Some (<["target_faces" := VBool false]> ∅))
  = get_config_for_profile "GDPR" (Some ∅).
Proof.
  exact (resolver_ignores_other_keys "GDPR" ∅ "target_faces" (VBool false) eq_refl).
Defined.

End PolicyExtras.

(** ** What the handlers leave alone *)

Section FrameFacts.
Import Policy Core.
Import Scenario Cases.
Import Frame.

Context {P : World → Prop}.

Lemma stable_ret {A} (a : A) : stable P (mret a : M A).
Proof. by intros w. Qed.

Lemma stable_raise {A} (e : exn) : stable P (raise e : M A).
Proof. by intros w. Qed.

Lemma stable_bind {A B} (m : M A) (f : A → M B) :
  stable P m → (∀ a, stable P (f a)) → stable P (m ≫= f).
Proof.
  intros Hm Hf w Hw. rewrite bind_run. specialize (Hm w Hw).
  destruct (m w) as [[a|e] w']; cbn in *; [by apply Hf | done].
Qed.

Lemma stable_for_each {A} (l : list A) (body : A → M unit) :
  (∀ x, stable P (body x)) → stable P (for_each l body).
Proof.
  intros Hb. induction l as [|x l IH]; [apply stable_ret|].
  cbn [for_each]. apply stable_bind; auto.
Qed.

End FrameFacts.

Section JobFrame.
Import Policy Core.
Import Scenario Cases.
Import Frame.

(** Steps that do not write job documents keep every property of them. *)
Context (Q : gmap string Job → Prop).

Lemma jobs_emit ev : stable (on_jobs Q) (emit ev).
Proof. by intros w. Qed.
Lemma jobs_doc_get job_id : stable (on_jobs Q) (doc_get job_id).
Proof. by intros w. Qed.
Lemma jobs_blob_exists p : stable (on_jobs Q) (blob_exists p).
Proof. by intros w. Qed.
Lemma jobs_download p : stable (on_jobs Q) (download p).
Proof. intros w Hw. unfold download. by destruct (blobs w !! p). Qed.
Lemma jobs_upload p d : stable (on_jobs Q) (upload p d).
Proof. by intros w. Qed.
Lemma jobs_blob_delete p : stable (on_jobs Q) (blob_delete p).
Proof. intros w Hw. unfold blob_delete. by destruct (blobs w !! p). Qed.
Lemma jobs_list_blobs p : stable (on_jobs Q) (list_blobs p).
Proof. by intros w. Qed.
Lemma jobs_sign_url env p : stable (on_jobs Q) (sign_url env p).
Proof. by intros w. Qed.
Lemma jobs_download_chunks l fs lf : stable (on_jobs Q) (download_chunks l fs lf).
Proof. intros w Hw. by rewrite download_chunks_world. Qed.

(** A document write keeps [Q] when [Q] does not see the change. *)
Lemma jobs_doc_update job_id f :
  (∀ js j, js !! job_id = Some j → Q js → Q (<[job_id := f j]> js)) →
  stable (on_jobs Q) (doc_update job_id f).
Proof.
  intros Hf w Hw. unfold doc_update.
  destruct (jobs w !! job_id) as [j|] eqn:E; [|done]. by apply Hf.
Qed.

Lemma jobs_update_progress job_id :
  (∀ js j n, js !! job_id = Some j → Q js →
             Q (<[job_id := set_chunks_completed n j]> js)) →
  stable (on_jobs Q) (update_progress job_id).
Proof.
  intros Hf w Hw. unfold update_progress.
  destruct (jobs w !! job_id) as [j|] eqn:E; [|done]. by apply Hf.
Qed.

End JobFrame.

Section BlobFrame.
Import Policy Core.
Import Scenario Cases.
Import Frame.

(** Steps that do not write objects keep every property of the bucket. *)
Context (Q : gmap string bytes → Prop).

Lemma blobs_emit ev : stable (on_blobs Q) (emit ev).
Proof. by intros w. Qed.
Lemma blobs_doc_get job_id : stable (on_blobs Q) (doc_get job_id).
Proof. by intros w. Qed.
Lemma blobs_doc_update job_id f : stable (on_blobs Q) (doc_update job_id f).
Proof. intros w Hw. unfold doc_update. by destruct (jobs w !! job_id). Qed.
Lemma blobs_update_progress job_id : stable (on_blobs Q) (update_progress job_id).
Proof. intros w Hw. unfold update_progress. by destruct (jobs w !! job_id). Qed.
Lemma blobs_blob_exists p : stable (on_blobs Q) (blob_exists p).
Proof. by intros w. Qed.
Lemma blobs_download p : stable (on_blobs Q) (download p).
Proof. intros w Hw. unfold download. by destruct (blobs w !! p). Qed.
Lemma blobs_list_blobs p : stable (on_blobs Q) (list_blobs p).
Proof. by intros w. Qed.
Lemma blobs_sign_url env p : stable (on_blobs Q) (sign_url env p).
Proof. by intros w. Qed.
Lemma blobs_download_chunks l fs lf : stable (on_blobs Q) (download_chunks l fs lf).
Proof. intros w Hw. by rewrite download_chunks_world. Qed.

(** An upload keeps [Q] when [Q] does not see the object written. *)
Lemma blobs_upload p d :
  (∀ b, Q b → Q (<[p := d]> b)) → stable (on_blobs Q) (upload p d).
Proof. intros Hq w Hw. by apply Hq. Qed.

End BlobFrame.

Ltac stable_step side :=
  lazy zeta;
  first
    [ apply stable_ret
    | apply stable_raise
    | apply jobs_emit
    | apply jobs_doc_get
    | apply jobs_blob_exists
    | apply jobs_download
    | apply jobs_upload
    | apply jobs_blob_delete
    | apply jobs_list_blobs
    | apply jobs_sign_url
    | apply jobs_download_chunks
    | apply jobs_doc_update; side
    | apply jobs_update_progress; side
    | apply blobs_emit
    | apply blobs_doc_get
    | apply blobs_doc_update
    | apply blobs_update_progress
    | apply blobs_blob_exists
    | apply blobs_download
    | apply blobs_list_blobs
    | apply blobs_sign_url
    | apply blobs_download_chunks
    | apply blobs_upload; side
    | apply stable_bind; [|intros ?]
    | apply stable_for_each; intros ?
    | match goal with
      | |- Frame.stable _ (if ?b then _ else _) => destruct b
      | |- Frame.stable _ (match ?x with _ => _ end) => destruct x
      end ].

Ltac stable_handler side :=
  unfold Core.process_chunk, Core.ingest_video, Core.stitch_video, Core.delete_job,
    Core.update_status, Core.plan_chunks, Core.dispatch, Core.trigger_stitch;
  repeat stable_step side.

Section OtherJobs.
Import Policy Core.
Import Scenario Cases.
Import Frame.

(** X5. A handler called for one job leaves every other job document as it
    is, whatever the outcome of the call. *)
Theorem handlers_leave_other_jobs_alone (env : Env) (job_id other chunk : string)
    (w : World) :
  other ≠ job_id →
  jobs (process_chunk env job_id chunk w).2 !! other = jobs w !! other ∧
  jobs (ingest_video env job_id w).2 !! other = jobs w !! other ∧
  jobs (stitch_video env job_id w).2 !! other = jobs w !! other ∧
  jobs (delete_job job_id w).2 !! other = jobs w !! other.
Proof.
  intros Hne.
  set (Q := λ js : gmap string Job, js !! other = jobs w !! other).
  assert (Hside : ∀ js j', Q js → Q (<[job_id := j']> js)).
  { intros js j' H. unfold Q. by rewrite lookup_insert_ne. }
  split_and!.
  - assert (H : stable (on_jobs Q) (process_chunk env job_id chunk))
      by stable_handler ltac:(intros; apply Hside; assumption).
    by apply H.
  - assert (H : stable (on_jobs Q) (ingest_video env job_id))
      by stable_handler ltac:(intros; apply Hside; assumption).
    by apply H.
  - assert (H : stable (on_jobs Q) (stitch_video env job_id))
      by stable_handler ltac:(intros; apply Hside; assumption).
    by apply H.
  - assert (H : stable (on_jobs Q) (delete_job job_id))
      by stable_handler ltac:(intros; apply Hside; assumption).
    by apply H.
Qed.

Lemma handlers_leave_other_jobs_alone_witness :
  jobs (process_chunk env_ok "j1" "chunk_000.mp4" two_jobs).2 !! "j2"
    = jobs two_jobs !! "j2" ∧
  jobs (ingest_video env_ok "j1" two_jobs).2 !! "j2" = jobs two_jobs !! "j2" ∧
  jobs (stitch_video env_ok "j1" two_jobs).2 !! "j2" = jobs two_jobs !! "j2" ∧
  jobs (delete_job "j1" two_jobs).2 !! "j2" = jobs two_jobs !! "j2".
Proof.
  apply (handlers_leave_other_jobs_alone env_ok "j1" "j2" "chunk_000.mp4" two_jobs).
  discriminate.
Defined.

End OtherJobs.

Section Footprints.
Import Policy Core.
Import Scenario Cases.
Import Frame.

(** X6. Chunk processing, ingest and stitching never remove an object: what
    is in the bucket before a call is there after it, whatever the outcome. *)
Theorem only_erasure_removes_objects (env : Env) (job_id chunk : string)
    (w : World) (k : string) :
  is_Some (blobs w !! k) →
  is_Some (blobs (process_chunk env job_id chunk w).2 !! k) ∧
  is_Some (blobs (ingest_video env job_id w).2 !! k) ∧
  is_Some (blobs (stitch_video env job_id w).2 !! k).
Proof.
  intros Hk.
  set (Q := λ b : gmap string bytes, is_Some (b !! k)).
  assert (Hside : ∀ p d b, Q b → Q (<[p := d]> b)).
  { intros p d b H. unfold Q. destruct (decide (p = k)) as [->|].
    - rewrite lookup_insert_eq. eauto.
    - by rewrite lookup_insert_ne. }
  split_and!.
  - assert (H : stable (on_blobs Q) (process_chunk env job_id chunk))
      by stable_handler ltac:(intros; apply Hside; assumption).
    by apply H.
  - assert (H : stable (on_blobs Q) (ingest_video env job_id))
      by stable_handler ltac:(intros; apply Hside; assumption).
    by apply H.
  - assert (H : stable (on_blobs Q) (stitch_video env job_id))
      by stable_handler ltac:(intros; apply Hside; assumption).
    by apply H.
Qed.

Lemma only_erasure_removes_objects_witness :
  let k := "input/j1/chunk_000.mp4" in
  is_Some (blobs (process_chunk env_ok "j1" "chunk_000.mp4" two_jobs).2 !! k) ∧
  is_Some (blobs (ingest_video env_ok "j1" two_jobs).2 !! k) ∧
  is_Some (blobs (stitch_video env_ok "j1" two_jobs).2 !! k).
Proof.
  apply (only_erasure_removes_objects env_ok "j1" "chunk_000.mp4" two_jobs
           "input/j1/chunk_000.mp4").
  exists "video-120s". reflexivity.
Defined.

Lemma path_under_prefix (pre c k : string) :
  String.prefix pre k = false → pre +:+ c ≠ k.
Proof. intros Hk <-. by rewrite prefix_app in Hk. Qed.

(** X7. What each handler can write to the bucket, whatever its outcome: a
    completion call only the output object of its chunk, a stitch request
    only the final object, an ingest run only objects under the input prefix
    of its job. *)
Theorem handlers_write_only_their_objects (env : Env) (job_id chunk : string)
    (w : World) (k : string) :
  (k ≠ "output/" +:+ job_id +:+ "/" +:+ chunk →
   blobs (process_chunk env job_id chunk w).2 !! k = blobs w !! k) ∧
  (k ≠ "output/" +:+ job_id +:+ "/final.mp4" →
   blobs (stitch_video env job_id w).2 !! k = blobs w !! k) ∧
  (String.prefix ("input/" +:+ job_id +:+ "/") k = false →
   blobs (ingest_video env job_id w).2 !! k = blobs w !! k).
Proof.
  set (Q := λ b : gmap string bytes, b !! k = blobs w !! k).
  split_and!.
  - intros Hne.
    assert (H : stable (on_blobs Q) (process_chunk env job_id chunk))
      by stable_handler ltac:(intros b Hb; unfold Q; by rewrite lookup_insert_ne).
    by apply H.
  - intros Hne.
    assert (H : stable (on_blobs Q) (stitch_video env job_id))
      by stable_handler ltac:(intros b Hb; unfold Q; by rewrite lookup_insert_ne).
    by apply H.
  - intros Hpre.
    assert (Hside : ∀ c d b, Q b → Q (<["input/" +:+ job_id +:+ "/" +:+ c := d]> b)).
    { intros c d b Hb. unfold Q. rewrite lookup_insert_ne; [done|].
      replace ("input/" +:+ job_id +:+ "/" +:+ c)
        with (("input/" +:+ job_id +:+ "/") +:+ c) by (by rewrite !app_assoc_str).
      by apply path_under_prefix. }
    assert (H : stable (on_blobs Q) (ingest_video env job_id))
      by stable_handler ltac:(intros; apply Hside; assumption).
    by apply H.
Qed.

Lemma handlers_write_only_their_objects_witness :
  let k := "input/j10/original.mp4" in
  blobs (process_chunk env_ok "j1" "chunk_000.mp4" two_jobs).2 !! k
    = blobs two_jobs !! k ∧
  blobs (stitch_video env_ok "j1" two_jobs).2 !! k = blobs two_jobs !! k ∧
  blobs (ingest_video env_ok "j1" two_jobs).2 !! k = blobs two_jobs !! k.
Proof.
  destruct (handlers_write_only_their_objects env_ok "j1" "chunk_000.mp4" two_jobs
              "input/j10/original.mp4") as (H1 & H2 & H3).
  split; [apply H1; discriminate|].
  split; [apply H2; discriminate|].
  apply H3. reflexivity.
Defined.

(** X8. Only completion calls count: ingest, stitching and erasure leave
    [chunks_completed] of their job as it is, so a repeated ingest does not
    set the counter back. *)
Theorem only_the_worker_counts (env : Env) (job_id : string) (w : World) :
  chunks_completed <$> jobs (ingest_video env job_id w).2 !! job_id
    = chunks_completed <$> jobs w !! job_id ∧
  chunks_completed <$> jobs (stitch_video env job_id w).2 !! job_id
    = chunks_completed <$> jobs w !! job_id ∧
  chunks_completed <$> jobs (delete_job job_id w).2 !! job_id
    = chunks_completed <$> jobs w !! job_id.
Proof.
  set (Q := λ js : gmap string Job,
         chunks_completed <$> js !! job_id = chunks_completed <$> jobs w !! job_id).
  assert (Hside : ∀ (f : Job → Job), (∀ j, chunks_completed (f j) = chunks_completed j) →
            ∀ js j, js !! job_id = Some j → Q js → Q (<[job_id := f j]> js)).
  { intros f Hf js j Hj H. unfold Q in *. rewrite lookup_insert_eq.
    rewrite Hj in H. cbn in *. by rewrite Hf. }
  split_and!.
  - assert (H : stable (on_jobs Q) (ingest_video env job_id))
      by stable_handler ltac:(apply Hside; reflexivity).
    by apply H.
  - assert (H : stable (on_jobs Q) (stitch_video env job_id))
      by stable_handler ltac:(apply Hside; reflexivity).
    by apply H.
  - assert (H : stable (on_jobs Q) (delete_job job_id))
      by stable_handler ltac:(apply Hside; reflexivity).
    by apply H.
Qed.

End Footprints.

Section SettingsFrame.
Import Policy Core.
Import Scenario Cases.
Import Frame.

(** X9. No handler writes the fields a job was created with: the settings
    the worker derives its configuration from, the webhook URL and the file
    name stay as they are through every call. *)
Theorem handlers_keep_creation_fields (env : Env) (job_id chunk : string) (w : World) :
  let created := λ j : Job, (settings j, webhook_url j, filename j) in
  created <$> jobs (process_chunk env job_id chunk w).2 !! job_id
    = created <$> jobs w !! job_id ∧
  created <$> jobs (ingest_video env job_id w).2 !! job_id
    = created <$> jobs w !! job_id ∧
  created <$> jobs (stitch_video env job_id w).2 !! job_id
    = created <$> jobs w !! job_id ∧
  created <$> jobs (delete_job job_id w).2 !! job_id
    = created <$> jobs w !! job_id.
Proof.
  intros created.
  set (Q := λ js : gmap string Job,
         created <$> js !! job_id = created <$> jobs w !! job_id).
  assert (Hside : ∀ (f : Job → Job), (∀ j, created (f j) = created j) →
            ∀ js j, js !! job_id = Some j → Q js → Q (<[job_id := f j]> js)).
  { intros f Hf js j Hj H. unfold Q in *. rewrite lookup_insert_eq.
    rewrite Hj in H. cbn in *. by rewrite Hf. }
  assert (Hside' : ∀ js j n, js !! job_id = Some j → Q js →
            Q (<[job_id := set_chunks_completed n j]> js)).
  { intros js j n. by apply (Hside (set_chunks_completed n)). }
  split_and!.
  - assert (H : stable (on_jobs Q) (process_chunk env job_id chunk))
      by stable_handler ltac:(first [apply Hside'| apply Hside; reflexivity]).
    by apply H.
  - assert (H : stable (on_jobs Q) (ingest_video env job_id))
      by stable_handler ltac:(apply Hside; reflexivity).
    by apply H.
  - assert (H : stable (on_jobs Q) (stitch_video env job_id))
      by stable_handler ltac:(apply Hside; reflexivity).
    by apply H.
  - assert (H : stable (on_jobs Q) (delete_job job_id))
      by stable_handler ltac:(apply Hside; reflexivity).
    by apply H.
Qed.

End SettingsFrame.

(** ** Unknown jobs and erasure *)

Section WorkerExtras.
Import Policy Core.
Import Scenario Cases.

(** X10. For an id without a job document, a completion call, an ingest run
    and a stitch request raise NotFound at their first step and change
    nothing. *)
Theorem unknown_job_changes_nothing (env : Env) (job_id chunk : string) (w : World) :
  jobs w !! job_id = None →
  process_chunk env job_id chunk w = (Raise NotFound, w) ∧
  ingest_video env job_id w = (Raise NotFound, w) ∧
  stitch_video env job_id w = (Raise NotFound, w).
Proof.
  intros Hj. split_and!.
  - by apply process_chunk_missing_job.
  - by apply ingest_video_missing_job.
  - unfold stitch_video. by rewrite bind_run, (update_status_missing _ _ _ Hj).
Qed.

Lemma unknown_job_changes_nothing_witness :
  process_chunk env_ok "j3" "chunk_000.mp4" two_jobs = (Raise NotFound, two_jobs) ∧
  ingest_video env_ok "j3" two_jobs = (Raise NotFound, two_jobs) ∧
  stitch_video env_ok "j3" two_jobs = (Raise NotFound, two_jobs).
Proof.
  apply (unknown_job_changes_nothing env_ok "j3" "chunk_000.mp4" two_jobs).
  reflexivity.
Defined.

Lemma delete_job_unknown_run (job_id : string) (w : World) :
  jobs w !! job_id = None →
  let doomed := listed ("input/" +:+ job_id) (blobs w) ++
                listed ("output/" +:+ job_id) (blobs w) in
  ∃ b1,
    delete_job job_id w =
    (Raise NotFound, {| jobs := jobs w; blobs := b1;
                        trace := trace w ++ map EvDelete doomed |}) ∧
    (∀ k, b1 !! k = if decide (k ∈ doomed) then None else blobs w !! k).
Proof.
  intros Hj doomed.
  destruct (for_each_delete_run doomed w) as (b1 & Hdel & Hb1).
  { apply NoDup_app. split_and!; try apply NoDup_listed.
    intros k [_ Hi]%elem_of_listed [_ Ho]%elem_of_listed.
    by eapply input_output_disjoint. }
  { intros k [Hk|Hk]%elem_of_app; by apply elem_of_listed in Hk as [? _]. }
  exists b1. split; [|exact Hb1].
  unfold delete_job. rewrite bind_run, list_blobs_run, bind_run, list_blobs_run.
  rewrite bind_run. fold doomed. rewrite Hdel.
  rewrite bind_run, update_status_missing by done. reflexivity.
Qed.

Lemma doomed_gone (job_id : string) (b b1 : gmap string bytes) :
  (∀ k, b1 !! k = if decide (k ∈ listed ("input/" +:+ job_id) b ++
                                 listed ("output/" +:+ job_id) b)
                  then None else b !! k) →
  ∀ k, String.prefix ("input/" +:+ job_id) k = true ∨
       String.prefix ("output/" +:+ job_id) k = true → b1 !! k = None.
Proof.
  intros Hb1 k Hk. rewrite Hb1. destruct (decide _) as [|Hn]; [done|].
  destruct (b !! k) eqn:E; [|done]. exfalso. apply Hn.
  apply elem_of_app. destruct Hk; [left|right]; apply elem_of_listed; eauto.
Qed.

(** X11. Erasure deletes before it looks for the job: for an id without a
    job document the call raises NotFound only after every object under the
    two prefixes of the id is gone; objects elsewhere and the job documents
    stay. *)
Theorem erasure_of_unknown_job_still_deletes (job_id : string) (w : World) :
  jobs w !! job_id = None →
  let r := delete_job job_id w in
  r.1 = Raise NotFound ∧
  jobs r.2 = jobs w ∧
  (∀ k, String.prefix ("input/" +:+ job_id) k = true ∨
        String.prefix ("output/" +:+ job_id) k = true → blobs r.2 !! k = None) ∧
  (∀ k, String.prefix ("input/" +:+ job_id) k = false →
        String.prefix ("output/" +:+ job_id) k = false →
        blobs r.2 !! k = blobs w !! k).
Proof.
  intros Hj r. subst r.
  destruct (delete_job_unknown_run job_id w Hj) as (b1 & -> & Hb1).
  cbn [fst snd jobs blobs]. split_and!; auto.
  - by apply (doomed_gone job_id (blobs w)).
  - intros k Hi Ho. rewrite Hb1. rewrite decide_False; [done|].
    intros [Hk|Hk]%elem_of_app; apply elem_of_listed in Hk as [_ Hk]; congruence.
Qed.

Lemma erasure_of_unknown_job_still_deletes_witness :
  let r := delete_job "j10" two_jobs in
  r.1 = Raise NotFound ∧
  jobs r.2 = jobs two_jobs ∧
  blobs r.2 !! "input/j10/original.mp4" = None ∧
  blobs r.2 !! "input/j1/chunk_000.mp4" = blobs two_jobs !! "input/j1/chunk_000.mp4".
Proof.
  destruct (erasure_of_unknown_job_still_deletes "j10" two_jobs eq_refl)
    as (H1 & H2 & H3 & H4).
  split; [exact H1|]. split; [exact H2|].
  split; [apply H3; left; reflexivity | apply H4; reflexivity].
Defined.

Lemma prefix_split (a b : string) :
  String.prefix a b = true → ∃ x, b = a +:+ x.
Proof.
  revert b. induction a as [|c a IH]; intros b; [by exists b|].
  destruct b as [|c' b]; cbn [String.prefix]; [done|].
  destruct (ascii_dec c c') as [<-|]; [|done].
  intros [x ->]%IH. by exists x.
Qed.

(** X12. Erasure matches object names by the prefixes input/<id> and
    output/<id> without a closing slash: it also removes the objects of every
    job whose id starts with the id given, whether or not the id given names
    a job. *)
Theorem erasure_reaches_ids_with_the_same_prefix (job_id other : string)
    (w : World) :
  String.prefix job_id other = true →
  ∀ rest,
    blobs (delete_job job_id w).2 !! ("input/" +:+ other +:+ rest) = None ∧
    blobs (delete_job job_id w).2 !! ("output/" +:+ other +:+ rest) = None.
Proof.
  intros [x ->]%prefix_split rest.
  assert (Hin : String.prefix ("input/" +:+ job_id) ("input/" +:+ (job_id +:+ x) +:+ rest) = true).
  { replace ("input/" +:+ (job_id +:+ x) +:+ rest)
      with (("input/" +:+ job_id) +:+ x +:+ rest) by (by rewrite !app_assoc_str).
    apply prefix_app. }
  assert (Hout : String.prefix ("output/" +:+ job_id) ("output/" +:+ (job_id +:+ x) +:+ rest) = true).
  { replace ("output/" +:+ (job_id +:+ x) +:+ rest)
      with (("output/" +:+ job_id) +:+ x +:+ rest) by (by rewrite !app_assoc_str).
    apply prefix_app. }
  destruct (jobs w !! job_id) as [j|] eqn:Hj.
  - destruct (delete_job_run job_id w j Hj) as (b1 & -> & _ & Hgone).
    cbn [snd blobs]. split; apply Hgone; auto.
  - destruct (delete_job_unknown_run job_id w Hj) as (b1 & -> & Hb1).
    cbn [snd blobs]. split; apply (doomed_gone job_id (blobs w) b1 Hb1); auto.
Qed.

Lemma erasure_reaches_ids_with_the_same_prefix_witness :
  blobs (delete_job "j1" two_jobs).2 !! ("input/" +:+ "j10" +:+ "/original.mp4") = None ∧
  blobs (delete_job "j1" two_jobs).2 !! ("output/" +:+ "j10" +:+ "/chunk_000.mp4") = None.
Proof.
  split.
  - exact (proj1 (erasure_reaches_ids_with_the_same_prefix "j1" "j10" two_jobs
                    eq_refl "/original.mp4")).
  - exact (proj2 (erasure_reaches_ids_with_the_same_prefix "j1" "j10" two_jobs
                    eq_refl "/chunk_000.mp4")).
Defined.

(** X13. The configuration of a video chunk never fails to resolve, and its
    threshold is the floor of the stored profile, or 0.4 without one: the
    worker hands no threshold entry to the resolver. *)
Theorem chunk_config_uses_profile_floor (job_data : gmap string pyval) :
  ∃ cfg, chunk_config job_data = Ok cfg ∧
    confidence_threshold cfg
    = default 0.4%Q
        (m_floor (mandates (profile_name (dict_get job_data "profile" (VStr "NONE"))))).
Proof.
  unfold chunk_config.
  set (p := profile_name (dict_get job_data "profile" (VStr "NONE"))).
  match goal with |- context [get_config_for_profile p (Some ?o)] => set (ov := o) end.
  assert (Hno : ov !! "confidence_threshold" = None) by (subst ov; by simplify_map_eq).
  assert (Hu : threshold_usable ov) by (unfold threshold_usable; by rewrite Hno).
  exists (PolicyTable.merged_config p ov). split; [by apply resolver_merge|].
  unfold PolicyTable.merged_config. cbn [confidence_threshold].
  destruct (m_floor (mandates p)) as [floor|]; [|done].
  unfold raised_threshold. by rewrite Hno.
Qed.

End WorkerExtras.

(** ** The outcomes of a stitch run *)

Section StitchExtras.
Import Policy Core.
Import Scenario Cases.
Import StitchRun.

Lemma select_chunks_present (pre : string) (b : gmap string bytes) (x : string) :
  x ∈ select_chunks (listed pre b) → is_Some (b !! x).
Proof.
  unfold select_chunks. rewrite merge_sort_Permutation.
  intros [_ Hx]%list_elem_of_filter. by apply elem_of_listed in Hx as [? _].
Qed.

Lemma stitch_video_run (env : Env) (job_id : string) (w : World) (j : Job) :
  jobs w !! job_id = Some j →
  let names := select_chunks (listed ("output/" +:+ job_id +:+ "/") (blobs w)) in
  let final_path := "output/" +:+ job_id +:+ "/final.mp4" in
  stitch_video env job_id w =
  match ffmpeg_concat env (stitch_inputs names (blobs w)) with
  | None =>
      (Raise CalledProcessError,
       {| jobs := <[job_id := set_status STITCHING j]> (jobs w);
          blobs := blobs w;
          trace := trace w ++ [EvStatus job_id STITCHING] |})
  | Some out =>
      (Ok (StitchCompleted (final_url env (signing_time w job_id) job_id)),
       {| jobs := <[job_id := set_output_url (final_url env (signing_time w job_id) job_id)
                                (set_status COMPLETED (set_status STITCHING j))]> (jobs w);
          blobs := <[final_path := out]> (blobs w);
          trace := trace w ++
            [EvStatus job_id STITCHING; EvUpload final_path; EvStatus job_id COMPLETED] ++
            (if truthy_str (webhook_url j)
             then [EvWebhook (default "" (webhook_url j)) job_id] else []) |})
  end.
Proof.
  intros Hj names final_path. unfold stitch_video.
  rewrite bind_run, (update_status_run _ _ _ _ Hj).
  rewrite bind_run, list_blobs_run. cbn [blobs]. fold names.
  rewrite bind_run.
  rewrite (download_chunks_run names) by (cbn [blobs]; intros x; apply select_chunks_present).
  cbn [fst snd app blobs]. fold (local_files_of names (blobs w)).
  fold (stitch_inputs names (blobs w)).
  destruct (ffmpeg_concat env (stitch_inputs names (blobs w))) as [out|]; [|reflexivity].
  rewrite bind_run. unfold upload at 1. cbn [jobs blobs trace].
  rewrite <- app_assoc. cbn [app]. fold final_path.
  rewrite bind_run. unfold sign_url at 1. cbn [jobs blobs trace].
  fold (signing_time w job_id). fold (final_url env (signing_time w job_id) job_id).
  rewrite bind_run. unfold doc_update at 1. cbn [jobs blobs trace].
  rewrite lookup_insert_eq, insert_insert_eq.
  rewrite bind_run. unfold emit at 1. cbn [jobs blobs trace].
  rewrite bind_run. unfold doc_get at 1. cbn [jobs blobs trace].
  rewrite lookup_insert_eq. cbn [webhook_url set_output_url set_status].
  rewrite bind_run.
  destruct (truthy_str (webhook_url j)); unfold emit, mret, M_ret, signing_time;
    cbn [jobs blobs trace]; rewrite <- ?app_assoc, ?app_nil_r; reflexivity.
Qed.


(** X14. When the concat step fails for a known job, the request ends in
    CalledProcessError with the job left in STITCHING: no FAILED status and
    no error message are written, no object is uploaded and no webhook is
    called. *)
Theorem failed_concat_leaves_job_stitching (env : Env) (job_id : string)
    (w : World) (j : Job) :
  jobs w !! job_id = Some j →
  ffmpeg_concat env
    (stitch_inputs (select_chunks (listed ("output/" +:+ job_id +:+ "/") (blobs w)))
                   (blobs w)) = None →
  let r := stitch_video env job_id w in
  r.1 = Raise CalledProcessError ∧
  jobs r.2 !! job_id = Some (set_status STITCHING j) ∧
  blobs r.2 = blobs w ∧
  trace r.2 = trace w ++ [EvStatus job_id STITCHING].
Proof.
  intros Hj Hc r. subst r. rewrite (stitch_video_run _ _ _ _ Hj). cbv zeta.
  rewrite Hc. cbn [fst snd jobs blobs trace]. by rewrite lookup_insert_eq.
Qed.

Lemma failed_concat_leaves_job_stitching_witness :
  let r := stitch_video env_failing_concat hex_id processed_world in
  r.1 = Raise CalledProcessError ∧
  jobs r.2 !! hex_id = Some (set_status STITCHING (job_with PROCESSING 2 2)) ∧
  blobs r.2 = blobs processed_world ∧
  trace r.2 = trace processed_world ++ [EvStatus hex_id STITCHING].
Proof.
  exact (failed_concat_leaves_job_stitching env_failing_concat hex_id processed_world
           (job_with PROCESSING 2 2) eq_refl eq_refl).
Defined.

(** X15. When the concat step succeeds for a known job, the request cannot
    fail later on: the result is uploaded as final.mp4, the job becomes
    COMPLETED with the URL that is also returned (the signed one, else the
    public one), and the webhook is called exactly when the job has a
    non-empty [webhook_url]. *)
Theorem completed_stitch_publishes_final (env : Env) (job_id : string)
    (w : World) (j : Job) (out : bytes) :
  jobs w !! job_id = Some j →
  ffmpeg_concat env
    (stitch_inputs (select_chunks (listed ("output/" +:+ job_id +:+ "/") (blobs w)))
                   (blobs w)) = Some out →
  let r := stitch_video env job_id w in
  let url := final_url env (signing_time w job_id) job_id in
  r.1 = Ok (StitchCompleted url) ∧
  jobs r.2 !! job_id = Some (set_output_url url (set_status COMPLETED j)) ∧
  blobs r.2 = <["output/" +:+ job_id +:+ "/final.mp4" := out]> (blobs w) ∧
  trace r.2 = trace w ++
    [EvStatus job_id STITCHING;
     EvUpload ("output/" +:+ job_id +:+ "/final.mp4");
     EvStatus job_id COMPLETED] ++
    (if truthy_str (webhook_url j)
     then [EvWebhook (default "" (webhook_url j)) job_id] else []).
Proof.
  intros Hj Hc r url. subst r url. rewrite (stitch_video_run _ _ _ _ Hj). cbv zeta.
  rewrite Hc. cbn [fst snd jobs blobs trace]. rewrite lookup_insert_eq.
  split_and!; reflexivity.
Qed.

Lemma completed_stitch_publishes_final_witness :
  let r := stitch_video env_ok hex_id processed_world in
  let url := "https://storage.googleapis.com/media/output/3f2a-77c0/final.mp4" in
  r.1 = Ok (StitchCompleted url) ∧
  jobs r.2 !! hex_id
    = Some (set_output_url url (set_status COMPLETED (job_with PROCESSING 2 2))) ∧
  blobs r.2 = <["output/" +:+ hex_id +:+ "/final.mp4" := "redacted:seg0redacted:seg1"]>
                (blobs processed_world) ∧
  trace r.2 = trace processed_world ++
    [EvStatus hex_id STITCHING;
     EvUpload ("output/" +:+ hex_id +:+ "/final.mp4");
     EvStatus hex_id COMPLETED] ++ [].
Proof.
  assert (Hc : ffmpeg_concat env_ok
                 (stitch_inputs
                    (select_chunks (listed ("output/" +:+ hex_id +:+ "/")
                                      (blobs processed_world)))
                    (blobs processed_world))
               = Some "redacted:seg0redacted:seg1") by (vm_compute; reflexivity).
  exact (completed_stitch_publishes_final env_ok hex_id processed_world
           (job_with PROCESSING 2 2) "redacted:seg0redacted:seg1" eq_refl Hc).
Defined.

End StitchExtras.

(** ** Repeated deliveries *)

Section RepeatExtras.
Import Policy Core.
Import Scenario Cases.
Import StitchRun.

Lemma str_in_skip_uuid (x : ascii) (r a b : string) :
  uuid_char x = false →
  uuid_like_tail a = true →
  str_in (String x r) (a +:+ b) = str_in (String x r) b.
Proof.
  intros Hx. induction a as [|y a IH]; [done|].
  cbn [uuid_like_tail]. intros [Hy Ha]%andb_true_iff.
  rewrite app_cons, str_in_cons, (IH Ha), prefix_head_ne; [done|].
  intros E. rewrite <- E in Hy. congruence.
Qed.

Lemma final_is_no_chunk (job_id : string) :
  uuid_like job_id = true →
  is_chunk_blob ("output/" +:+ job_id +:+ "/final.mp4") = false.
Proof.
  intros Hu. unfold is_chunk_blob. apply andb_false_iff. left.
  destruct (str_in "chunk_" _) eqn:E; [|done]. exfalso.
  apply (str_in_app_in "c" "hunk_") in E.
  assert (Ht : uuid_like_tail job_id = true) by (by destruct job_id).
  change ("output/" +:+ job_id +:+ "/final.mp4")
    with (String "o" (String "u" (String "t" (String "p" (String "u" (String "t"
           (String "/" (job_id +:+ "/final.mp4")))))))) in E.
  rewrite !str_in_cons in E.
  rewrite !prefix_head_ne in E by discriminate.
  rewrite (str_in_skip_uuid "h" "unk_" job_id "/final.mp4") in E by done.
  vm_compute in E. discriminate E.
Qed.

Lemma select_chunks_insert_rejected (pre k : string) (v : bytes)
    (b : gmap string bytes) :
  is_chunk_blob k = false →
  select_chunks (listed pre (<[k := v]> b)) = select_chunks (listed pre b).
Proof.
  intros Hk. unfold select_chunks.
  apply (Sorted_unique str_le); try apply (Sorted_merge_sort str_le).
  rewrite !merge_sort_Permutation.
  apply NoDup_Permutation; try (apply NoDup_filter, NoDup_listed).
  intros x. rewrite !list_elem_of_filter, !elem_of_listed.
  destruct (decide (x = k)) as [->|Hne].
  - rewrite Hk. split; intros [? _]; discriminate.
  - by rewrite lookup_insert_ne.
Qed.

Lemma local_files_of_ext (names : list string) (b1 b2 : gmap string bytes) :
  (∀ x, x ∈ names → b1 !! x = b2 !! x) →
  local_files_of names b1 = local_files_of names b2.
Proof.
  unfold local_files_of. generalize (∅ : gmap string bytes).
  induction names as [|x names IH]; intros fs Hx; [done|].
  cbn [foldl]. rewrite (Hx x) by left. apply IH. intros y Hy. apply Hx. by right.
Qed.

(** X16. For a job id made of hexadecimal digits and dashes, the final video
    is never taken for a chunk: a stitch request that is repeated hands the
    same inputs to the concat step and leaves the bucket as the first one
    left it.  It raises what the first one raised, and returns where the
    first one returned, with the URL signed at the second call. *)
Theorem repeated_stitch_is_stable (env : Env) (job_id : string) (w : World) (j : Job) :
  uuid_like job_id = true →
  jobs w !! job_id = Some j →
  let pre := "output/" +:+ job_id +:+ "/" in
  let r1 := stitch_video env job_id w in
  let r2 := stitch_video env job_id r1.2 in
  stitch_inputs (select_chunks (listed pre (blobs r1.2))) (blobs r1.2)
    = stitch_inputs (select_chunks (listed pre (blobs w))) (blobs w) ∧
  r2.1 = match r1.1 with
         | Ok _ => Ok (StitchCompleted (final_url env (signing_time r1.2 job_id) job_id))
         | Raise e => Raise e
         end ∧
  blobs r2.2 = blobs r1.2.
Proof.
  intros Hu Hj pre r1 r2. subst r2 r1.
  rewrite (stitch_video_run _ _ _ _ Hj). cbv zeta. fold pre.
  destruct (ffmpeg_concat env _) as [out|] eqn:Hc; cbn [fst snd blobs].
  - assert (Hin : stitch_inputs
              (select_chunks (listed pre
                 (<["output/" +:+ job_id +:+ "/final.mp4" := out]> (blobs w))))
              (<["output/" +:+ job_id +:+ "/final.mp4" := out]> (blobs w))
            = stitch_inputs (select_chunks (listed pre (blobs w))) (blobs w)).
    { rewrite (select_chunks_insert_rejected _ _ _ _ (final_is_no_chunk _ Hu)).
      unfold stitch_inputs. f_equal.
      erewrite local_files_of_ext; [reflexivity|].
      intros x Hx. apply lookup_insert_ne. intros <-.
      unfold select_chunks in Hx. rewrite merge_sort_Permutation in Hx.
      apply list_elem_of_filter in Hx as [Hx _].
      by rewrite (final_is_no_chunk _ Hu) in Hx. }
    split; [exact Hin|].
    erewrite stitch_video_run by (cbn [jobs]; apply lookup_insert_eq).
    cbv zeta. cbn [blobs]. fold pre. rewrite Hin, Hc. cbn [fst snd blobs].
    by rewrite insert_insert_eq.
  - split; [reflexivity|].
    erewrite stitch_video_run by (cbn [jobs]; apply lookup_insert_eq).
    cbv zeta. cbn [blobs]. fold pre. by rewrite Hc.
Qed.

Lemma repeated_stitch_is_stable_witness :
  let pre := "output/" +:+ hex_id +:+ "/" in
  let r1 := stitch_video env_ok hex_id processed_world in
  let r2 := stitch_video env_ok hex_id r1.2 in
  stitch_inputs (select_chunks (listed pre (blobs r1.2))) (blobs r1.2)
    = stitch_inputs (select_chunks (listed pre (blobs processed_world)))
        (blobs processed_world) ∧
  r2.1 = match r1.1 with
         | Ok _ => Ok (StitchCompleted
                         (final_url env_ok (signing_time r1.2 hex_id) hex_id))
         | Raise e => Raise e
         end ∧
  blobs r2.2 = blobs r1.2.
Proof.
  exact (repeated_stitch_is_stable env_ok hex_id processed_world
           (job_with PROCESSING 2 2) eq_refl eq_refl).
Defined.

(** X17. A completion call delivered twice for one chunk writes the same
    output object both times: the bucket after the second call is the bucket
    after the first, whatever the outcome of the calls. *)
Theorem redelivery_rewrites_the_same_output (env : Env) (job_id chunk : string)
    (w : World) :
  let r1 := process_chunk env job_id chunk w in
  let r2 := process_chunk env job_id chunk r1.2 in
  blobs r2.2 = blobs r1.2.
Proof.
  intros r1 r2. subst r2 r1.
  destruct (jobs w !! job_id) as [j|] eqn:Hj.
  2: { rewrite (process_chunk_missing_job _ _ _ _ Hj). cbn [snd].
       by rewrite (process_chunk_missing_job _ _ _ _ Hj). }
  destruct (chunk_config_ok (settings j)) as [cfg Hcfg].
  destruct (process_chunk_cases env job_id chunk w j Hj)
    as [Hin|[(input & Hin & Hcap)|(input & frames & Hin & Hcap)]].
  - rewrite (process_chunk_no_input _ _ _ _ _ Hj Hin). cbn [snd].
    erewrite process_chunk_no_input;
      [| cbn [jobs]; apply lookup_insert_eq | exact Hin ].
    reflexivity.
  - rewrite (process_chunk_unopened _ _ _ _ _ _ Hj Hin Hcap). cbn [snd].
    erewrite process_chunk_unopened;
      [| cbn [jobs]; apply lookup_insert_eq | exact Hin | exact Hcap ].
    reflexivity.
  - rewrite (process_chunk_run _ _ _ _ _ _ _ _ Hj Hcfg Hin Hcap). cbv zeta. cbn [snd].
    match goal with |- context [process_chunk env job_id chunk ?x] =>
      set (w1 := x) end.
    assert (Hin1 : chunk_input env w1 job_id chunk = Some input).
    { rewrite <- Hin. by apply (chunk_input_output env w w1 job_id chunk chunk
                                 (chunk_output env cfg input frames)). }
    erewrite (process_chunk_run env job_id chunk w1 _ cfg input frames);
      [| subst w1; cbn [jobs]; apply lookup_insert_eq | exact Hcfg | exact Hin1
       | exact Hcap ].
    cbv zeta. subst w1. cbn [snd blobs]. by rewrite insert_insert_eq.
Qed.

(** X18. With ORCHESTRATOR_URL unset or empty the worker never asks for a
    stitch, however many chunks complete. *)
Theorem no_orchestrator_url_no_stitch (env : Env) (job_id : string)
    (cs : list string) (w : World) :
  truthy_str (ORCHESTRATOR_URL env) = false →
  stitch_triggers job_id (trace (process_chunks env job_id cs w).2)
  = stitch_triggers job_id (trace w).
Proof.
  intros Hurl. revert w. induction cs as [|c cs IH]; intros w; [done|].
  rewrite process_chunks_cons.
  destruct (jobs w !! job_id) as [j|] eqn:Hj.
  2: { by rewrite (process_chunk_missing_job _ _ _ _ Hj). }
  destruct (chunk_config_ok (settings j)) as [cfg Hcfg].
  destruct (process_chunk_cases env job_id c w j Hj)
    as [Hin|[(input & Hin & Hcap)|(input & frames & Hin & Hcap)]].
  - rewrite (process_chunk_no_input _ _ _ _ _ Hj Hin). cbn [snd trace].
    by rewrite stitch_triggers_app, Nat.add_0_r.
  - rewrite (process_chunk_unopened _ _ _ _ _ _ Hj Hin Hcap).
    rewrite IH. cbn [trace]. by rewrite stitch_triggers_app, Nat.add_0_r.
  - rewrite (process_chunk_run _ _ _ _ _ _ _ _ Hj Hcfg Hin Hcap). cbv zeta.
    rewrite IH. cbn [trace]. rewrite Hurl, andb_false_r, app_nil_r.
    by rewrite stitch_triggers_app, Nat.add_0_r.
Qed.

Lemma no_orchestrator_url_no_stitch_witness :
  let w := world_with (job_with PROCESSING 3 0) three_chunks in
  stitch_triggers "j1"
    (trace (process_chunks env_no_orchestrator "j1" arrivals_with_duplicate w).2)
  = stitch_triggers "j1" (trace w).
Proof.
  exact (no_orchestrator_url_no_stitch env_no_orchestrator "j1" arrivals_with_duplicate
           (world_with (job_with PROCESSING 3 0) three_chunks) eq_refl).
Defined.

End RepeatExtras.

(** ** Ingest runs *)

Section IngestExtras.
Import Policy Core.
Import Scenario Cases.

Lemma app_inj_str (a b c : string) : a +:+ b = a +:+ c → b = c.
Proof.
  induction a as [|x a IH]; [done|]. rewrite !app_cons. intros [= H]. by apply IH.
Qed.

Lemma uploaded_union (job_id : string) (chunks : list (string * bytes))
    (b : gmap string bytes) :
  uploaded job_id chunks b = uploaded job_id chunks ∅ ∪ b.
Proof.
  unfold uploaded. revert b. induction chunks as [|c chunks IH]; intros b.
  - cbn. by rewrite (left_id_L ∅ (∪)).
  - cbn [foldl]. rewrite IH, (IH (<[_ := _]> ∅)).
    rewrite <- (assoc_L (∪)). f_equal.
    by rewrite insert_union_singleton_l, (insert_union_singleton_l ∅), (right_id_L ∅ (∪)).
Qed.

Lemma uploaded_idemp (job_id : string) (chunks : list (string * bytes))
    (b : gmap string bytes) :
  uploaded job_id chunks (uploaded job_id chunks b) = uploaded job_id chunks b.
Proof.
  rewrite (uploaded_union _ _ (uploaded _ _ b)), (uploaded_union _ _ b).
  by rewrite (assoc_L (∪)), (idemp_L (∪)).
Qed.

Lemma uploaded_other (job_id : string) (chunks : list (string * bytes))
    (b : gmap string bytes) (p : string) :
  p ∉ (λ c, chunk_path job_id c.1) <$> chunks →
  uploaded job_id chunks b !! p = b !! p.
Proof. intros Hp. unfold uploaded. by apply foldl_insert_notin. Qed.

(** X19. An ingest task delivered a second time repeats the first run: it
    uploads the same chunks over themselves, writes the same [chunks_total],
    and submits one more task for every chunk, while the job document is
    otherwise as the first run left it. *)
Theorem repeated_ingest_dispatches_again (env : Env) (job_id : string) (w : World)
    (j : Job) (original : bytes) (chunks : list (string * bytes)) :
  jobs w !! job_id = Some j →
  blobs w !! ("input/" +:+ job_id +:+ "/original.mp4") = Some original →
  planned env job_id original (probed_duration env original) = Some chunks →
  "original.mp4" ∉ chunks.*1 →
  let r1 := ingest_video env job_id w in
  let r2 := ingest_video env job_id r1.2 in
  r2.1 = Ok (Dispatched (length chunks)) ∧
  blobs r2.2 = blobs r1.2 ∧
  jobs r2.2 = jobs r1.2 ∧
  trace r2.2 = trace r1.2 ++ ingest_events env job_id chunks.*1.
Proof.
  intros Hj Hb Hp Hno r1 r2. subst r2 r1.
  rewrite (ingest_video_run _ _ _ _ _ Hj Hb), Hp. cbn [snd].
  assert (Hb' : uploaded job_id chunks (blobs w)
                !! ("input/" +:+ job_id +:+ "/original.mp4") = Some original).
  { rewrite uploaded_other; [done|].
    intros (c & Hc & Hin)%list_elem_of_fmap. apply Hno.
    apply list_elem_of_fmap. exists c. split; [|done].
    unfold chunk_path in Hc.
    replace ("input/" +:+ job_id +:+ "/original.mp4")
      with (("input/" +:+ job_id +:+ "/") +:+ "original.mp4") in Hc
      by (by rewrite !app_assoc_str).
    replace ("input/" +:+ job_id +:+ "/" +:+ c.1)
      with (("input/" +:+ job_id +:+ "/") +:+ c.1) in Hc
      by (by rewrite !app_assoc_str).
    symmetry. by apply app_inj_str in Hc. }
  erewrite ingest_video_run;
    [| cbn [jobs]; apply lookup_insert_eq | cbn [blobs]; exact Hb'].
  rewrite Hp. cbn [fst snd jobs blobs trace].
  rewrite uploaded_idemp, insert_insert_eq. done.
Qed.

Lemma repeated_ingest_dispatches_again_witness :
  let r1 := ingest_video env_ok "j1" (queued_world "video-120s") in
  let r2 := ingest_video env_ok "j1" r1.2 in
  r2.1 = Ok (Dispatched 1) ∧
  blobs r2.2 = blobs r1.2 ∧
  jobs r2.2 = jobs r1.2 ∧
  trace r2.2 = trace r1.2 ++ ingest_events env_ok "j1" ["chunk_000.mp4"].
Proof.
  apply (repeated_ingest_dispatches_again env_ok "j1" (queued_world "video-120s")
           (new_job None "clip.mp4") "video-120s" [("chunk_000.mp4", "video-120s")]);
    [reflexivity | reflexivity | reflexivity |].
  apply not_elem_of_cons. split; [discriminate | apply not_elem_of_nil].
Defined.

(** X20. An ingest run that does not find the uploaded video reports an error
    in its answer instead of raising: the job becomes FAILED with the
    message Input video not found, nothing is uploaded and no task is
    submitted. *)
Theorem ingest_without_input_fails_the_job (env : Env) (job_id : string)
    (w : World) (j : Job) :
  jobs w !! job_id = Some j →
  blobs w !! ("input/" +:+ job_id +:+ "/original.mp4") = None →
  let r := ingest_video env job_id w in
  r.1 = Ok IngestError ∧
  status <$> jobs r.2 !! job_id = Some FAILED ∧
  error_message <$> jobs r.2 !! job_id = Some (Some "Input video not found") ∧
  blobs r.2 = blobs w ∧
  trace r.2 = trace w ++ [EvStatus job_id CHUNKING; EvStatus job_id FAILED].
Proof.
  intros Hj Hb r. subst r. rewrite (ingest_video_missing_input _ _ _ _ Hj Hb).
  cbn [fst snd jobs blobs trace]. by rewrite lookup_insert_eq.
Qed.

Lemma ingest_without_input_fails_the_job_witness :
  let w := world_with (new_job None "clip.mp4") ∅ in
  let r := ingest_video env_ok "j1" w in
  r.1 = Ok IngestError ∧
  status <$> jobs r.2 !! "j1" = Some FAILED ∧
  error_message <$> jobs r.2 !! "j1" = Some (Some "Input video not found") ∧
  blobs r.2 = blobs w ∧
  trace r.2 = trace w ++ [EvStatus "j1" CHUNKING; EvStatus "j1" FAILED].
Proof.
  exact (ingest_without_input_fails_the_job env_ok "j1"
           (world_with (new_job None "clip.mp4") ∅) (new_job None "clip.mp4")
           eq_refl eq_refl).
Defined.

End IngestExtras.

(** ** The gateway *)

Section GatewayFacts.
Import Policy Core.
Import Scenario Cases.
Import Gateway.

Lemma submit_video_run (g : GatewayEnv) (env : Env) (job_id : string)
    (file : bytes) (filename : string) (webhook_url : option string) (w : World) :
  truthy_str (Gateway.ORCHESTRATOR_URL g) = true →
  upload_from_file g ("input/" +:+ job_id +:+ "/original.mp4") file = None →
  let same := String.eqb (Gateway.BUCKET_NAME g) (Core.BUCKET_NAME env) in
  let path := "input/" +:+ job_id +:+ "/original.mp4" in
  submit_video g env job_id file filename webhook_url w =
  (Ok (match Gateway.create_task g (ingest_task g job_id filename) with
       | Some e => HTTPException 500 ("Failed to enqueue job: " +:+ e)
       | None => Returned job_id
       end),
   {| jobs := <[job_id := new_job webhook_url filename]> (jobs w);
      blobs := if same then <[path := file]> (blobs w) else blobs w;
      trace := trace w ++ (if same then [EvUpload path] else []) ++
               [EvStatus job_id QUEUED] |}).
Proof.
  intros Hurl Hup same path. subst same path. unfold submit_video.
  rewrite Hurl. cbn [negb]. cbv zeta. rewrite Hup, bind_run.
  destruct (String.eqb _ _); destruct (Gateway.create_task g _);
    unfold upload, doc_set, mret, M_ret; rewrite ?bind_run;
    cbn [jobs blobs trace status new_job app]; rewrite <- ?app_assoc; reflexivity.
Qed.

Lemma submit_video_accepted (g : GatewayEnv) (env : Env) (job_id : string)
    (file : bytes) (filename : string) (webhook_url : option string) (w : World)
    (a : string) :
  (submit_video g env job_id file filename webhook_url w).1 = Ok (Returned a) →
  truthy_str (Gateway.ORCHESTRATOR_URL g) = true ∧
  upload_from_file g ("input/" +:+ job_id +:+ "/original.mp4") file = None ∧
  Gateway.create_task g (ingest_task g job_id filename) = None.
Proof.
  destruct (truthy_str (Gateway.ORCHESTRATOR_URL g)) eqn:Hurl.
  2: { unfold submit_video. by rewrite Hurl. }
  destruct (upload_from_file g _ file) as [e|] eqn:Hup.
  { unfold submit_video. cbv zeta. by rewrite Hurl, Hup. }
  rewrite (submit_video_run _ _ _ _ _ _ _ Hurl Hup). cbv zeta. cbn [fst].
  by destruct (Gateway.create_task g _).
Qed.

(** X21. A submission is refused before anything is stored when the gateway
    has no orchestrator URL or when the upload raises: the answer is a 500
    and jobs, bucket and trace are as before. *)
Theorem refused_submission_stores_nothing (g : GatewayEnv) (env : Env)
    (job_id : string) (file : bytes) (filename : string)
    (webhook_url : option string) (w : World) :
  truthy_str (Gateway.ORCHESTRATOR_URL g) = false ∨
  is_Some (upload_from_file g ("input/" +:+ job_id +:+ "/original.mp4") file) →
  let r := submit_video g env job_id file filename webhook_url w in
  (∃ detail, r.1 = Ok (HTTPException 500 detail)) ∧ r.2 = w.
Proof.
  intros H r. subst r. unfold submit_video.
  destruct (truthy_str (Gateway.ORCHESTRATOR_URL g)) eqn:Hurl; cbn [negb].
  - destruct H as [|[e He]]; [done|]. rewrite He. cbn. eauto.
  - cbn. eauto.
Qed.

Lemma refused_submission_stores_nothing_witness :
  let r := submit_video gateway_unconfigured env_project_bucket hex_id
             "video-120s" "clip.mp4" None empty_world in
  (∃ detail, r.1 = Ok (HTTPException 500 detail)) ∧ r.2 = empty_world.
Proof.
  apply (refused_submission_stores_nothing gateway_unconfigured env_project_bucket
           hex_id "video-120s" "clip.mp4" None empty_world).
  left. reflexivity.
Defined.

(** X22. When the queue refuses the ingest task, the client gets a 500
    although the job has been created: the document stays QUEUED with no
    task to move it, and [get_status] shows it. *)
Theorem refused_enqueue_leaves_a_queued_job (g : GatewayEnv) (env : Env)
    (job_id : string) (file : bytes) (filename : string)
    (webhook_url : option string) (w : World) (e : string) :
  truthy_str (Gateway.ORCHESTRATOR_URL g) = true →
  upload_from_file g ("input/" +:+ job_id +:+ "/original.mp4") file = None →
  Gateway.create_task g (ingest_task g job_id filename) = Some e →
  let r := submit_video g env job_id file filename webhook_url w in
  r.1 = Ok (HTTPException 500 ("Failed to enqueue job: " +:+ e)) ∧
  (get_status job_id r.2).1 = Ok (Returned (new_job webhook_url filename)).
Proof.
  intros Hurl Hup Hq r. subst r.
  rewrite (submit_video_run _ _ _ _ _ _ _ Hurl Hup). cbv zeta. rewrite Hq.
  split; [done|]. unfold get_status. rewrite bind_run. unfold doc_get.
  cbn [fst snd jobs]. by rewrite lookup_insert_eq.
Qed.

Lemma refused_enqueue_leaves_a_queued_job_witness :
  let r := submit_video gateway_queue_down env_project_bucket hex_id
             "video-120s" "clip.mp4" None empty_world in
  r.1 = Ok (HTTPException 500 ("Failed to enqueue job: " +:+ "queue unavailable")) ∧
  (get_status hex_id r.2).1 = Ok (Returned (new_job None "clip.mp4")).
Proof.
  exact (refused_enqueue_leaves_a_queued_job gateway_queue_down env_project_bucket
           hex_id "video-120s" "clip.mp4" None empty_world "queue unavailable"
           eq_refl eq_refl eq_refl).
Defined.

(** X23. An accepted submission whose bucket is the orchestrator's can be
    ingested: the ingest run finds the job and the video, so it neither
    raises NotFound nor reports a missing input; it answers with the number
    of chunks planned for the uploaded bytes, or fails in the segment
    muxer. *)
Theorem accepted_submission_is_ingestable (g : GatewayEnv) (env : Env)
    (job_id : string) (file : bytes) (filename : string)
    (webhook_url : option string) (w : World) :
  Gateway.BUCKET_NAME g = Core.BUCKET_NAME env →
  (submit_video g env job_id file filename webhook_url w).1 = Ok (Returned job_id) →
  let w1 := (submit_video g env job_id file filename webhook_url w).2 in
  (ingest_video env job_id w1).1
  = match planned env job_id file (probed_duration env file) with
    | Some chunks => Ok (Dispatched (length chunks))
    | None => Raise CalledProcessError
    end.
Proof.
  intros Hb Hok w1. subst w1.
  destruct (submit_video_accepted _ _ _ _ _ _ _ _ Hok) as (Hurl & Hup & _).
  rewrite (submit_video_run g env job_id file filename webhook_url w Hurl Hup).
  cbv zeta. rewrite Hb, String.eqb_refl. cbn [snd].
  erewrite ingest_video_run;
    [| cbn [jobs]; apply lookup_insert_eq | cbn [blobs]; apply lookup_insert_eq].
  by destruct (planned env job_id file _).
Qed.

Lemma accepted_submission_is_ingestable_witness :
  let w1 := (submit_video gateway_ok env_project_bucket hex_id
               "video-120s" "clip.mp4" None empty_world).2 in
  (ingest_video env_project_bucket hex_id w1).1 = Ok (Dispatched 1).
Proof.
  exact (accepted_submission_is_ingestable gateway_ok env_project_bucket hex_id
           "video-120s" "clip.mp4" None empty_world eq_refl eq_refl).
Defined.

(** X24. The gateway derives its bucket from the project id alone.  Where the
    orchestrator is configured with another bucket name, an accepted
    submission cannot be ingested: the run does not find the video and
    fails the job. *)
Theorem bucket_mismatch_fails_the_job (g : GatewayEnv) (env : Env)
    (job_id : string) (file : bytes) (filename : string)
    (webhook_url : option string) (w : World) :
  Gateway.BUCKET_NAME g ≠ Core.BUCKET_NAME env →
  blobs w !! ("input/" +:+ job_id +:+ "/original.mp4") = None →
  (submit_video g env job_id file filename webhook_url w).1 = Ok (Returned job_id) →
  let w1 := (submit_video g env job_id file filename webhook_url w).2 in
  (ingest_video env job_id w1).1 = Ok IngestError ∧
  status <$> jobs (ingest_video env job_id w1).2 !! job_id = Some FAILED.
Proof.
  intros Hb Hnone Hok w1. subst w1.
  destruct (submit_video_accepted _ _ _ _ _ _ _ _ Hok) as (Hurl & Hup & _).
  rewrite (submit_video_run g env job_id file filename webhook_url w Hurl Hup).
  cbv zeta. apply String.eqb_neq in Hb. rewrite Hb. cbn [snd].
  erewrite ingest_video_missing_input;
    [| cbn [jobs]; apply lookup_insert_eq | cbn [blobs]; exact Hnone].
  cbn [fst snd jobs]. by rewrite lookup_insert_eq.
Qed.

Lemma bucket_mismatch_fails_the_job_witness :
  let w1 := (submit_video gateway_ok env_ok hex_id
               "video-120s" "clip.mp4" None empty_world).2 in
  (ingest_video env_ok hex_id w1).1 = Ok IngestError ∧
  status <$> jobs (ingest_video env_ok hex_id w1).2 !! hex_id = Some FAILED.
Proof.
  apply (bucket_mismatch_fails_the_job gateway_ok env_ok hex_id
           "video-120s" "clip.mp4" None empty_world);
    [discriminate | reflexivity | reflexivity].
Defined.

(** X25. A job created by the gateway carries no profile and no options, and
    ingest adds none: once a submitted video is ingested, the worker redacts
    each chunk it can read and open with the default configuration. *)
Theorem submitted_videos_use_no_profile (g : GatewayEnv) (env : Env)
    (job_id : string) (file : bytes) (filename : string)
    (webhook_url : option string) (w : World) (chunk : string)
    (input : bytes) (frames : list bytes) :
  Gateway.BUCKET_NAME g = Core.BUCKET_NAME env →
  (submit_video g env job_id file filename webhook_url w).1 = Ok (Returned job_id) →
  let w1 := (submit_video g env job_id file filename webhook_url w).2 in
  let w2 := (ingest_video env job_id w1).2 in
  chunk_input env w2 job_id chunk = Some input →
  video_capture env input = Some frames →
  blobs (process_chunk env job_id chunk w2).2 !! ("output/" +:+ job_id +:+ "/" +:+ chunk)
  = Some (chunk_output env default_config input frames).
Proof.
  intros Hb Hok w1 w2.
  destruct (submit_video_accepted _ _ _ _ _ _ _ _ Hok) as (Hurl & Hup & _).
  assert (Hj2 : ∃ j2, jobs w2 !! job_id = Some j2 ∧ settings j2 = ∅).
  { subst w2 w1.
    rewrite (submit_video_run g env job_id file filename webhook_url w Hurl Hup).
    cbv zeta. rewrite Hb, String.eqb_refl. cbn [snd].
    erewrite ingest_video_run;
      [| cbn [jobs]; apply lookup_insert_eq | cbn [blobs]; apply lookup_insert_eq].
    destruct (planned env job_id file _); cbn [snd jobs];
      rewrite lookup_insert_eq; eauto. }
  destruct Hj2 as (j2 & Hj2 & Hset). clearbody w2. intros Hin Hcap.
  assert (Hcfg : chunk_config (settings j2) = Ok default_config)
    by (by rewrite Hset).
  rewrite (process_chunk_run _ _ _ _ _ _ _ _ Hj2 Hcfg Hin Hcap). cbv zeta.
  cbn [snd blobs]. apply lookup_insert_eq.
Qed.

Lemma submitted_videos_use_no_profile_witness :
  let w1 := (submit_video gateway_ok env_project_bucket hex_id
               "video-120s" "clip.mp4" None empty_world).2 in
  let w2 := (ingest_video env_project_bucket hex_id w1).2 in
  blobs (process_chunk env_project_bucket hex_id "chunk_000.mp4" w2).2
    !! ("output/" +:+ hex_id +:+ "/" +:+ "chunk_000.mp4")
  = Some "redacted:video-120s".
Proof.
  exact (submitted_videos_use_no_profile gateway_ok env_project_bucket hex_id
           "video-120s" "clip.mp4" None empty_world "chunk_000.mp4" "video-120s"
           ["video-120s"] eq_refl eq_refl eq_refl eq_refl).
Defined.

End GatewayFacts.

Section ImageFacts.
Import Policy Core.
Import Scenario Cases.
Import ImageWorker Gateway.

(** X26. The options the gateway forwards never break the resolver: for every
    profile, mode and pair of flags the configuration is the closed form,
    with the floor of the profile, or 0.4 without one, as its threshold.  An
    empty upload makes the decoder raise, which reaches the client as the
    500 of the worker's server; for bytes that are no image the answer is
    400, when encoding fails 500, and otherwise 200 with the redacted
    image. *)
Theorem gateway_image_requests_are_served (g : GatewayEnv) (env : Env) (c : Codec)
    (image_bytes : bytes) (profile m : string) (l t : bool) :
  truthy_str (Gateway.WORKER_URL g) = true →
  request_error g = None →
  let cfg := PolicyTable.merged_config profile
               (list_to_map [("mode", VStr m); ("target_logos", VBool l);
                             ("target_text", VBool t)]) in
  confidence_threshold cfg = default 0.4%Q (m_floor (mandates profile)) ∧
  anonymize_image g env c image_bytes profile m l t
  = Returned
      (if String.eqb image_bytes ""
       then {| status_code := 500; content := "Internal Server Error" |}
       else
         match imdecode c image_bytes with
         | None => {| status_code := 400; content := "Invalid image" |}
         | Some frame =>
             match imencode c (detect_and_redact env frame cfg) with
             | None => {| status_code := 500; content := "Encoding failed" |}
             | Some encoded => {| status_code := 200; content := encoded |}
             end
         end).
Proof.
  intros Hurl Hreq cfg. subst cfg.
  set (o := (list_to_map [("mode", VStr m); ("target_logos", VBool l);
                          ("target_text", VBool t)] : gmap string pyval)).
  assert (Hno : o !! "confidence_threshold" = None) by reflexivity.
  assert (Hu : threshold_usable o) by (unfold threshold_usable; by rewrite Hno).
  split.
  - unfold PolicyTable.merged_config. cbn [confidence_threshold].
    destruct (m_floor (mandates profile)) as [floor|]; [|done].
    unfold raised_threshold. by rewrite Hno.
  - unfold anonymize_image. rewrite Hurl, Hreq. cbn [negb].
    unfold process_image_internal, image_options, config_for. fold o.
    rewrite (resolver_merge profile o Hu).
    destruct (String.eqb image_bytes ""); [done|].
    destruct (imdecode c image_bytes) as [frame|]; [|done].
    by destruct (imencode c _).
Qed.

Lemma gateway_image_requests_are_served_witness :
  anonymize_image gateway_ok env_ok codec_ok "photo" "HIPAA_SAFE_HARBOR" "pixelate"
    false false
  = Returned {| status_code := 200; content := "jpeg:redacted:photo" |} ∧
  anonymize_image gateway_ok env_ok codec_ok "" "HIPAA_SAFE_HARBOR" "pixelate"
    false false
  = Returned {| status_code := 500; content := "Internal Server Error" |}.
Proof.
  split.
  - exact (proj2 (gateway_image_requests_are_served gateway_ok env_ok codec_ok "photo"
                    "HIPAA_SAFE_HARBOR" "pixelate" false false eq_refl eq_refl)).
  - exact (proj2 (gateway_image_requests_are_served gateway_ok env_ok codec_ok ""
                    "HIPAA_SAFE_HARBOR" "pixelate" false false eq_refl eq_refl)).
Defined.

(** X27. The worker's image endpoint reads options that are no JSON like the
    JSON value null, as no options; options that are JSON but neither null
    nor an object make it raise AttributeError for every profile and image. *)
Theorem image_options_must_be_an_object (env : Env) (c : Codec)
    (image_bytes : bytes) (profile : string) (v : pyval) :
  (∀ d, v ≠ VDict d) → v ≠ VNone →
  process_image_internal env c image_bytes profile (Some v) = Raise AttributeError ∧
  process_image_internal env c image_bytes profile None
  = process_image_internal env c image_bytes profile (Some VNone).
Proof.
  intros Hd Hn. split.
  - unfold process_image_internal, config_for. destruct v; try done. by destruct (Hd d).
  - reflexivity.
Qed.

Lemma image_options_must_be_an_object_witness :
  process_image_internal env_ok codec_ok "photo" "NONE" (Some (VList []))
  = Raise AttributeError.
Proof.
  refine (proj1 (image_options_must_be_an_object env_ok codec_ok "photo" "NONE"
                   (VList []) _ _)); [intros d|]; discriminate.
Defined.

End ImageFacts.

(** ** The detection engine *)

Section InferenceFacts.
Import Policy Core.
Import Scenario Cases.
Import Inference.

Lemma resolved_targets (profile : string) (o : option (gmap string pyval))
    (cfg : PrivacyConfig) :
  get_config_for_profile profile o = Ok cfg →
  target_faces cfg = true ∧ target_plates cfg = true ∧ enable_heuristics cfg = true.
Proof.
  unfold get_config_for_profile, apply_mandates.
  set (ov := match o with Some d => d | None => ∅ end).
  assert (Hov : ∀ c, target_faces (apply_overrides profile ov c) = target_faces c ∧
                     target_plates (apply_overrides profile ov c) = target_plates c ∧
                     enable_heuristics (apply_overrides profile ov c)
                     = enable_heuristics c).
  { intros c. unfold apply_overrides.
    destruct (truthy (dict_get ov "target_logos" VNone));
      destruct (truthy (dict_get ov "target_text" VNone));
      destruct (negb (String.eqb profile "HIPAA_SAFE_HARBOR"));
      destruct (ov !! "mode") as [v|]; try destruct (AnonymizeMode_of v);
      simpl; auto. }
  destruct (String.eqb profile "GDPR");
    [|destruct (String.eqb profile "HIPAA_SAFE_HARBOR");
      [|destruct (String.eqb profile "CCPA")]];
    try destruct (py_max _ _); try discriminate;
    intros [= <-];
    match goal with |- context [apply_overrides profile ov ?c] =>
      destruct (Hov c) as (-> & -> & ->) end; simpl; auto.
Qed.

(** X28. The resolver switches plates and heuristics on for every profile and
    every options bag, and the engine reads text whenever they are on: the
    text flag of a resolved configuration changes neither the boxes nor the
    frame returned. *)
Theorem text_flag_changes_nothing (eng : PrivacyEngine) (frame : bytes)
    (profile : string) (o : option (gmap string pyval)) (cfg : PrivacyConfig)
    (b : bool) :
  get_config_for_profile profile o = Ok cfg →
  boxes_to_blur eng frame (set_target_text b cfg) = boxes_to_blur eng frame cfg ∧
  detect_and_redact eng frame (set_target_text b cfg) = detect_and_redact eng frame cfg.
Proof.
  intros (Hf & Hp & Hh)%resolved_targets.
  assert (Hb : boxes_to_blur eng frame (set_target_text b cfg)
               = boxes_to_blur eng frame cfg).
  { unfold boxes_to_blur, general_boxes.
    cbn [set_target_text target_faces target_plates target_logos target_text
         enable_heuristics confidence_threshold].
    rewrite Hp, Hh. cbn [andb]. by rewrite !orb_true_r. }
  split; [done|]. unfold detect_and_redact. by rewrite Hb.
Qed.

Lemma text_flag_changes_nothing_witness :
  let cfg := {| target_faces := true; target_plates := true; target_logos := false;
                target_text := true; mode := BLUR; confidence_threshold := 0.6%Q;
                enable_heuristics := true |} in
  boxes_to_blur engine_example "frame" (set_target_text false cfg)
    = boxes_to_blur engine_example "frame" cfg ∧
  detect_and_redact engine_example "frame" (set_target_text false cfg)
    = detect_and_redact engine_example "frame" cfg.
Proof.
  exact (text_flag_changes_nothing engine_example "frame" "GDPR" None _ false eq_refl).
Defined.

Lemma ocr_loop_hits (results : list (list (Q * Q) * string * Q)) (t : Q) :
  Forall (λ r, is_Some (ocr_box r.1.1)) results →
  ∀ boxes, ocr_loop results t boxes
  = boxes ++ omap (λ r, ocr_box r.1.1) (filter (λ r, Qle_bool t r.2 = true) results).
Proof.
  induction 1 as [|[[bbox text] prob] rest [box Hbox] _ IH]; intros boxes.
  - cbn. by rewrite app_nil_r.
  - cbn [ocr_loop]. cbn in Hbox.
    destruct (Qle_bool t prob) eqn:E.
    + rewrite filter_cons_True by done. rewrite Hbox, IH, <- app_assoc.
      cbn. by rewrite Hbox.
    + rewrite filter_cons_False by (cbn; congruence). apply IH.
Qed.

Lemma omap_filter_sublist {A B} (f : A → option B) (P1 P2 : A → Prop)
    `{∀ x, Decision (P1 x)} `{∀ x, Decision (P2 x)} (l : list A) :
  (∀ x, P2 x → P1 x) →
  omap f (filter P2 l) `sublist_of` omap f (filter P1 l).
Proof.
  intros Himp. induction l as [|x l IH]; [done|].
  destruct (decide (P2 x)) as [H2|H2].
  - rewrite !filter_cons_True by auto. cbn.
    destruct (f x); [by apply sublist_skip|done].
  - rewrite (filter_cons_False P2) by done.
    destruct (decide (P1 x)).
    + rewrite filter_cons_True by done. cbn.
      destruct (f x); [by apply sublist_cons|done].
    + by rewrite filter_cons_False.
Qed.

(** X29. The confidence threshold gates the text reader only: raising it
    leaves the boxes of the three detectors as they are and can only drop
    text boxes, so with hits that have corner points a configuration with a
    higher threshold redacts a sub-list of what one with a lower threshold
    redacts. *)
Theorem higher_threshold_redacts_less_text (eng : PrivacyEngine) (frame : bytes)
    (cfg : PrivacyConfig) (t1 t2 : Q) :
  (t1 <= t2)%Q →
  (∀ results, readtext eng frame = Some results →
              Forall (λ r, r.1.1 ≠ []) results) →
  boxes_to_blur eng frame (set_confidence_threshold t2 cfg)
    `sublist_of` boxes_to_blur eng frame (set_confidence_threshold t1 cfg).
Proof.
  intros Hle Hwf. unfold boxes_to_blur, general_boxes.
  cbn [set_confidence_threshold target_faces target_plates target_logos target_text
       enable_heuristics confidence_threshold].
  repeat (apply sublist_app; [done|]).
  destruct (_ || _); [|done].
  unfold _get_ocr_boxes. destruct (readtext eng frame) as [results|] eqn:E; [|done].
  assert (Hsome : Forall (λ r, is_Some (ocr_box r.1.1)) results).
  { eapply Forall_impl; [by apply Hwf|]. intros [[bbox ?] ?]. cbn.
    destruct bbox; [done|]. cbn. eauto. }
  rewrite !ocr_loop_hits by done. cbn [app].
  apply omap_filter_sublist. intros [[? ?] prob]. cbn.
  rewrite !Qle_bool_iff. intros H. by apply (Qle_trans _ t2).
Qed.

Lemma higher_threshold_redacts_less_text_witness :
  boxes_to_blur engine_example "frame" (set_confidence_threshold 0.6%Q default_config)
    `sublist_of`
  boxes_to_blur engine_example "frame" (set_confidence_threshold 0.4%Q default_config).
Proof.
  apply (higher_threshold_redacts_less_text engine_example "frame" default_config
           0.4%Q 0.6%Q).
  - discriminate.
  - intros results [= <-]. repeat constructor; discriminate.
Defined.

End InferenceFacts.
